(** * mail-queue: a Redis-backed email queue with bounded retry

    A shallow embedding of the queue worker ([internal/redisQueue]), the mail
    sender ([internal/senderSide]) and the template manager
    ([internal/emailTemplate]), and the properties of their specification.

    The Go code talks to four libraries.  They are modelled as follows.
    - [encoding/json]: at the level of JSON documents; the text of a
      document, which the library writes and reads back without loss, is not
      modelled, and the texts of the library's errors are abridged.
    - [go-redis]: the list [email_queue] is a Rocq list; what the server
      answers to one command is an input of the model.
    - [html/template], [net/url], [strconv] on floats: the members of two
      type classes; the theorems hold for every behaviour of these libraries.
    - [net/smtp]: what [smtp.SendMail] answers is an input of the model. *)

From stdpp Require Import gmap strings list sorting pretty.
From Stdlib Require Import ZArith String Ascii.

Set Warnings "-register-all".
Set Default Proof Using "Type".
Open Scope Z_scope.

(** ** Go strings: byte sequences that may or may not be UTF-8 *)

Module Utf8.

Definition byte (a : ascii) : Z := Z.of_N (N_of_ascii a).

Definition RuneError : Z := 0xFFFD.

(** A continuation byte, [locb <= b <= hicb] in [unicode/utf8]. *)
Definition cont (b : Z) : bool := (0x80 <=? b) && (b <=? 0xBF).

(** [utf8.DecodeRuneInString]: the first rune of [s] and its width in
    bytes; [(RuneError, 1)] when [s] does not start with a well-formed
    encoding, [(RuneError, 0)] when [s] is empty. *)
Definition DecodeRuneInString (s : string) : Z * nat :=
  match s with
  | EmptyString => (RuneError, 0%nat)
  | String a0 s1 =>
    let b0 := byte a0 in
    if b0 <? 0x80 then (b0, 1%nat)
    else if (b0 <? 0xC2) || (0xF4 <? b0) then (RuneError, 1%nat)
    else
      match s1 with
      | EmptyString => (RuneError, 1%nat)
      | String a1 s2 =>
        let b1 := byte a1 in
        if b0 <? 0xE0 then
          if cont b1
          then (Z.lor (Z.shiftl (Z.land b0 0x1F) 6) (Z.land b1 0x3F), 2%nat)
          else (RuneError, 1%nat)
        else
          let lo := if b0 =? 0xE0 then 0xA0 else if b0 =? 0xF0 then 0x90 else 0x80 in
          let hi := if b0 =? 0xED then 0x9F else if b0 =? 0xF4 then 0x8F else 0xBF in
          if negb ((lo <=? b1) && (b1 <=? hi)) then (RuneError, 1%nat)
          else
            match s2 with
            | EmptyString => (RuneError, 1%nat)
            | String a2 s3 =>
              let b2 := byte a2 in
              if negb (cont b2) then (RuneError, 1%nat)
              else if b0 <? 0xF0 then
                (Z.lor (Z.shiftl (Z.land b0 0x0F) 12)
                   (Z.lor (Z.shiftl (Z.land b1 0x3F) 6) (Z.land b2 0x3F)), 3%nat)
              else
                match s3 with
                | EmptyString => (RuneError, 1%nat)
                | String a3 _ =>
                  let b3 := byte a3 in
                  if negb (cont b3) then (RuneError, 1%nat)
                  else
                    (Z.lor (Z.shiftl (Z.land b0 0x07) 18)
                       (Z.lor (Z.shiftl (Z.land b1 0x3F) 12)
                          (Z.lor (Z.shiftl (Z.land b2 0x3F) 6) (Z.land b3 0x3F))),
                     4%nat)
                end
            end
      end
  end.

(** The test Go code writes as [c == utf8.RuneError && size == 1]. *)
Definition malformed (d : Z * nat) : bool := (d.1 =? RuneError) && (d.2 =? 1)%nat.

(** The UTF-8 encoding of U+FFFD. *)
Definition replacement : string :=
  String (ascii_of_nat 239) (String (ascii_of_nat 191) (String (ascii_of_nat 189) EmptyString)).

(** What a Go string becomes when the JSON encoder writes it and the
    decoder reads it back: every byte that does not start a well-formed
    rune is replaced by U+FFFD, every well-formed rune is kept.  [skip]
    counts the bytes still to copy of the rune being kept. *)
Fixpoint coerce (skip : nat) (s : string) : string :=
  match s with
  | EmptyString => EmptyString
  | String a s1 =>
    match skip with
    | S k => String a (coerce k s1)
    | O =>
      let d := DecodeRuneInString s in
      if malformed d then replacement +:+ coerce 0 s1
      else String a (coerce (d.2 - 1) s1)
    end
  end.

Definition ToValidUTF8 (s : string) : string := coerce 0 s.

(** [utf8.ValidString]. *)
Fixpoint valid (skip : nat) (s : string) : bool :=
  match s with
  | EmptyString => true
  | String a s1 =>
    match skip with
    | S k => valid k s1
    | O =>
      let d := DecodeRuneInString s in
      if malformed d then false else valid (d.2 - 1) s1
    end
  end.

Definition ValidString (s : string) : bool := valid 0 s.

(** [unicode.IsSpace]. *)
Definition IsSpace (r : Z) : bool :=
  ((0x09 <=? r) && (r <=? 0x0D)) || (r =? 0x20) || (r =? 0x85) || (r =? 0xA0)
  || (r =? 0x1680) || ((0x2000 <=? r) && (r <=? 0x200A))
  || (r =? 0x2028) || (r =? 0x2029) || (r =? 0x202F) || (r =? 0x205F) || (r =? 0x3000).

Fixpoint allSpace (skip : nat) (s : string) : bool :=
  match s with
  | EmptyString => true
  | String a s1 =>
    match skip with
    | S k => allSpace k s1
    | O =>
      let d := DecodeRuneInString s in
      IsSpace d.1 && allSpace (d.2 - 1) s1
    end
  end.

(** [strings.TrimSpace(s) == ""]: trimming removes everything exactly when
    every rune of [s] is white space. *)
Definition blank (s : string) : bool := allSpace 0 s.

End Utf8.

(** ** Go errors *)

(** The error values of the program: the two sentinels the worker compares
    with [==], errors with a fixed text, and [fmt.Errorf] with one [%w]
    operand, whose text is [pre ++ text of cause ++ post]. *)
Inductive error :=
| RedisNil
| ContextCanceled
| ErrorString (msg : string)
| WrapError (pre : string) (cause : error) (post : string).

Fixpoint Error (e : error) : string :=
  match e with
  | RedisNil => "redis: nil"
  | ContextCanceled => "context canceled"
  | ErrorString msg => msg
  | WrapError pre cause post => pre +:+ Error cause +:+ post
  end.

Definition Unwrap (e : error) : option error :=
  match e with
  | WrapError _ cause _ => Some cause
  | _ => None
  end.

(** [fmt.Errorf(pre ++ "%w", cause)]. *)
Definition Errorf (pre : string) (cause : error) : error := WrapError pre cause "".

(** A Go result [(T, error)] in which the value is meaningful only when the
    error is nil. *)
Inductive result (A : Type) :=
| Ok (a : A)
| Err (e : error).
Arguments Ok {A} a.
Arguments Err {A} e.

Definition rbind {A B} (r : result A) (k : A → result B) : result B :=
  match r with
  | Ok a => k a
  | Err e => Err e
  end.

Notation "x ←ᵣ r ; k" := (rbind r (λ x, k))
  (at level 20, r at level 100, k at level 200, right associativity,
   format "x  ←ᵣ  r ;  '/' k").

(** All results of [f] over [l], or the first error. *)
Definition mapR {A B} (f : A → result B) : list A → result (list B) :=
  fix go (l : list A) : result (list B) :=
    match l with
    | [] => Ok []
    | x :: l' => y ←ᵣ f x; ys ←ᵣ go l'; Ok (y :: ys)
    end.

(** ** The libraries the program is compiled against *)

(** A JSON number as the decoder sees it: an optional minus sign and
    digits (the only form [strconv.ParseInt] accepts, and the form
    [strconv.FormatInt] writes), or a literal with a fraction or an exponent,
    kept as its text. *)
Inductive numLit :=
| LitInt (neg : bool) (digits : N)
| LitReal (text : string).

(** [strconv] on [float64].  [FormatFloat f] is the literal the JSON encoder
    writes for [f], and is [None] for NaN and the infinities, which JSON
    cannot express; [ParseFloat] is [None] when the literal is out of the
    range of [float64]. *)
Class Strconv := {
  float64 : Type;
  FormatFloat : float64 → option numLit;
  ParseFloat : numLit → option float64;
}.

(** The values an [interface{}] of the data mapping holds in this program:
    what the HTTP layer lets through ([sanitizeTemplateData]), what the JSON
    decoder builds, and the [template.URL] the renderer writes. *)
Inductive value `{Strconv} :=
| VNil
| VBool (b : bool)
| VInt (z : Z)
| VInt64 (z : Z)
| VFloat (f : float64)
| VString (s : string)
| VURL (s : string)
| VSlice (l : list value)
| VMap (m : gmap string value).

(** [net/url] and [html/template]. *)
Class Packages `{Strconv} := {
  URL : Type;
  url_Parse : string → result URL;
  url_String : URL → string;
  Template : Type;
  Execute : Template → gmap string value → result string;
}.

(** ** A fragment of the libraries that computes

    The theorems below hold for every [Strconv] and [Packages].  To evaluate
    the program on concrete tasks one instance is needed; this one covers the
    [float64] values that are integers of magnitude below 2^53, which
    [float64] holds exactly and [strconv] writes with all their digits. *)
Module Fragment.

(** [|z| < 2^53], by the number of bits of [|z|]. *)
Definition exact (z : Z) : bool := Z.log2 (Z.abs z) <? 53.

Definition format (f : Z) : option numLit :=
  if exact f then Some (LitInt (f <? 0) (Z.abs_N f)) else None.

Definition parse (l : numLit) : option Z :=
  match l with
  | LitInt neg n =>
    let z := if neg then - Z.of_N n else Z.of_N n in
    if exact z then Some z else None
  | LitReal _ => None
  end.

Definition strconv : Strconv :=
  {| float64 := Z; FormatFloat := format; ParseFloat := parse |}.

(** A URL parser that rejects what [net/url] rejects first: a string with
    an ASCII control character in it. *)
Fixpoint hasCTL (s : string) : bool :=
  match s with
  | EmptyString => false
  | String a s' => (Utf8.byte a <? 0x20) || (Utf8.byte a =? 0x7F) || hasCTL s'
  end.

Definition parseURL (rawURL : string) : result string :=
  if hasCTL rawURL
  then Err (WrapError "parse " (ErrorString "net/url: invalid control character in URL") "")
  else Ok rawURL.

(** A template engine with templates that are constant texts. *)
Definition packages : @Packages strconv :=
  {| URL := string; url_Parse := parseURL; url_String := λ u, u;
     Template := string; Execute := λ t _, Ok t |}.

End Fragment.

(** ** More of the Go library: [strings], [path/filepath], [strconv.Atoi] *)

Module Strings.

(** [strings.TrimLeftFunc(s, unicode.IsSpace)]: the runes are read from the
    left and dropped as long as they are white space.  [skip] counts the
    bytes still to drop of the rune being dropped. *)
Fixpoint trimLeft (skip : nat) (s : string) : string :=
  match s with
  | EmptyString => EmptyString
  | String a s1 =>
    match skip with
    | S k => trimLeft k s1
    | O =>
      let d := Utf8.DecodeRuneInString s in
      if Utf8.IsSpace d.1 then trimLeft (d.2 - 1) s1 else s
    end
  end.

(** The bytes, in order, are one well-formed white space rune: this is when
    [utf8.DecodeLastRuneInString] finds a white space rune at the end of a
    string that ends with them. *)
Definition endsSpace (bytes : list ascii) : bool :=
  let d := Utf8.DecodeRuneInString (string_of_list_ascii bytes) in
  Utf8.IsSpace d.1 && (d.2 =? List.length bytes)%nat.

(** [strings.TrimRightFunc(s, unicode.IsSpace)] on the bytes of [s] in
    reverse order: the runes are read from the right and dropped as long as
    they are white space, which are one to three bytes long. *)
Fixpoint trimRev (l : list ascii) : list ascii :=
  match l with
  | [] => []
  | a :: l1 =>
    if endsSpace [a] then trimRev l1
    else
      match l1 with
      | b :: l2 =>
        if endsSpace [b; a] then trimRev l2
        else
          match l2 with
          | c :: l3 => if endsSpace [c; b; a] then trimRev l3 else l
          | [] => l
          end
      | [] => l
      end
  end.

Definition trimRight (s : string) : string :=
  string_of_list_ascii (rev (trimRev (rev (list_ascii_of_string s)))).

(** [strings.TrimSpace]. *)
Definition TrimSpace (s : string) : string := trimRight (trimLeft 0 s).

(** [strings.HasSuffix] and [strings.TrimSuffix]. *)
Definition HasSuffix (s suffix : string) : bool :=
  let n := String.length s in
  let m := String.length suffix in
  (m <=? n)%nat && String.eqb (substring (n - m) m s) suffix.

Definition TrimSuffix (s suffix : string) : string :=
  if HasSuffix s suffix then substring 0 (String.length s - String.length suffix) s else s.

End Strings.

Module Filepath.

Definition isSeparator (a : ascii) : bool := Ascii.eqb a "/".

Fixpoint dropSeparators (l : list ascii) : list ascii :=
  match l with
  | a :: l' => if isSeparator a then dropSeparators l' else l
  | [] => []
  end.

Fixpoint lastElement (l : list ascii) : list ascii :=
  match l with
  | a :: l' => if isSeparator a then [] else a :: lastElement l'
  | [] => []
  end.

(** [filepath.Base] where the separator is the slash: the last element of
    the path once its trailing slashes are gone. *)
Definition Base (path : string) : string :=
  match path with
  | EmptyString => "."
  | _ =>
    match lastElement (dropSeparators (rev (list_ascii_of_string path))) with
    | [] => "/"
    | l => string_of_list_ascii (rev l)
    end
  end.

End Filepath.

Module Ints.

Definition digit (a : ascii) : option Z :=
  let b := Utf8.byte a in
  if (0x30 <=? b) && (b <=? 0x39) then Some (b - 0x30) else None.

Fixpoint digits (acc : Z) (s : string) : option Z :=
  match s with
  | EmptyString => Some acc
  | String a s' =>
    match digit a with
    | Some d => digits (acc * 10 + d) s'
    | None => None
    end
  end.

Definition syntaxError : error := ErrorString "strconv.Atoi: invalid syntax".
Definition rangeError : error := ErrorString "strconv.Atoi: value out of range".

(** [strconv.Atoi] where [int] is 64 bits wide: an optional sign and
    decimal digits.  The value is 0 with a syntax error, and the nearest
    [int] with a range error.  The texts of the errors are abridged. *)
Definition Atoi (s : string) : Z * option error :=
  match s with
  | EmptyString => (0, Some syntaxError)
  | String a rest =>
    let neg := Ascii.eqb a "-" in
    let body := if neg || Ascii.eqb a "+" then rest else s in
    match body with
    | EmptyString => (0, Some syntaxError)
    | _ =>
      match digits 0 body with
      | None => (0, Some syntaxError)
      | Some n =>
        let z := if neg then - n else n in
        if z <? - 2 ^ 63 then (- 2 ^ 63, Some rangeError)
        else if 2 ^ 63 - 1 <? z then (2 ^ 63 - 1, Some rangeError)
        else (z, None)
      end
    end
  end.

End Ints.

(** ** The HTTP layer's libraries *)

(** [SendEmailRequest] (api). *)
Record SendEmailRequest `{Strconv} := {
  req_To : string;
  req_Subject : string;
  req_TemplateName : string;
  req_Data : option (gmap string value);
}.

(** What [validate.Struct] of go-playground/validator answers: no error,
    an [InvalidValidationError], or the failed field and tag pairs. *)
Inductive validation :=
| Valid
| InvalidValidation
| FieldErrors (errs : list (string * string)).

(** [fmt.Sprintf("%v", v)], the validator and the template parser
    [template.New(name).Funcs(...).Parse(content)]. *)
Class Toolkit `{Packages} := {
  Sprint : value → string;
  validate_Struct : SendEmailRequest → validation;
  template_Parse : string → string → result Template;
}.

(** A fragment of these libraries that computes: [%v] of a scalar that is
    not a float, a validator that knows the tag [required] only, and a
    parser that takes a text as the template it is unless the text is
    empty. *)
Module FragmentWeb.

Definition sprint (v : @value Fragment.strconv) : string :=
  match v with
  | VNil => "<nil>"
  | VBool b => if b then "true" else "false"
  | VInt z | VInt64 z => pretty z
  | VFloat f => pretty f
  | VString s | VURL s => s
  | VSlice _ => "[]"
  | VMap _ => "map[]"
  end.

Definition required (req : @SendEmailRequest Fragment.strconv) : list (string * string) :=
  (if bool_decide (req_To req = "") then [("To", "required")] else [])
  ++ (if bool_decide (req_Subject req = "") then [("Subject", "required")] else [])
  ++ (if bool_decide (req_TemplateName req = "") then [("TemplateName", "required")] else [])
  ++ (match req_Data req with None => [("Data", "required")] | Some _ => [] end).

Definition validate (req : @SendEmailRequest Fragment.strconv) : validation :=
  match required req with
  | [] => Valid
  | errs => FieldErrors errs
  end.

Definition parseTemplate (name content : string) : result string :=
  if bool_decide (content = "") then Err (ErrorString "template: empty") else Ok content.

Definition toolkit : @Toolkit Fragment.strconv Fragment.packages :=
  @Build_Toolkit Fragment.strconv Fragment.packages sprint validate parseTemplate.

End FragmentWeb.

Section Model.

Context {strconv : Strconv} {packages : Packages}.

(** ** [encoding/json], at the level of documents *)

Inductive json :=
| JNull
| JBool (b : bool)
| JNumber (n : numLit)
| JString (s : string)
| JArray (l : list json)
| JObject (members : list (string * json)).

(** A byte string of the store: the text of a JSON document, or bytes the
    JSON scanner rejects. *)
Inductive wire :=
| NotJSON (bytes : string)
| Text (doc : json).

Definition FormatInt (z : Z) : numLit := LitInt (z <? 0) (Z.abs_N z).

Definition MinInt64 : Z := - 2 ^ 63.
Definition MaxInt64 : Z := 2 ^ 63 - 1.

(** [strconv.ParseInt(lit, 10, 64)]. *)
Definition ParseInt (lit : numLit) : option Z :=
  match lit with
  | LitInt neg n =>
    let z := if neg then - Z.of_N n else Z.of_N n in
    if (MinInt64 <=? z) && (z <=? MaxInt64) then Some z else None
  | LitReal _ => None
  end.

(** The encoder sorts the keys of a map as Go strings, byte by byte. *)
Definition keyLe {A} (x y : string * A) : Prop := String.leb x.1 y.1.

Definition sortKeys {A} (l : list (string * A)) : list (string * A) :=
  merge_sort keyLe l.

Definition member (kv : string * result json) : result (string * json) :=
  j ←ᵣ kv.2; Ok (Utf8.ToValidUTF8 kv.1, j).

(** How [json.Marshal] writes a value held in an [interface{}]. *)
Fixpoint encodeValue (v : value) : result json :=
  match v with
  | VNil => Ok JNull
  | VBool b => Ok (JBool b)
  | VInt z | VInt64 z => Ok (JNumber (FormatInt z))
  | VFloat f =>
    match FormatFloat f with
    | Some lit => Ok (JNumber lit)
    | None => Err (ErrorString "json: unsupported value")
    end
  | VString s | VURL s => Ok (JString (Utf8.ToValidUTF8 s))
  | VSlice l => js ←ᵣ mapR encodeValue l; Ok (JArray js)
  | VMap m =>
    ms ←ᵣ mapR member (sortKeys (map_to_list (encodeValue <$> m))); Ok (JObject ms)
  end.

Definition encodeMap (m : gmap string value) : result json :=
  ms ←ᵣ mapR member (sortKeys (map_to_list (encodeValue <$> m))); Ok (JObject ms).

(** [m[k] = v] for every member in turn: a later duplicate wins. *)
Definition assignAll {A} (m : gmap string A) (kvs : list (string * A)) : gmap string A :=
  foldl (λ acc kv, <[kv.1 := kv.2]> acc) m kvs.

(** How [json.Unmarshal] fills an [interface{}]: every number becomes a
    [float64]. *)
Fixpoint decodeValue (j : json) : result value :=
  match j with
  | JNull => Ok VNil
  | JBool b => Ok (VBool b)
  | JNumber lit =>
    match ParseFloat lit with
    | Some f => Ok (VFloat f)
    | None => Err (ErrorString "json: cannot unmarshal number into Go value of type float64")
    end
  | JString s => Ok (VString s)
  | JArray l => vs ←ᵣ mapR decodeValue l; Ok (VSlice vs)
  | JObject members =>
    kvs ←ᵣ mapR (λ kv, v ←ᵣ decodeValue kv.2; Ok (kv.1, v)) members;
    Ok (VMap (assignAll ∅ kvs))
  end.

(** ** The task and its wire encoding (redis.go) *)

Record EmailTask := {
  To : string;
  Subject : string;
  TemplateName : string;
  Data : option (gmap string value);   (* [None] is the nil map *)
  Retries : Z;
}.

Definition withRetries (task : EmailTask) (r : Z) : EmailTask :=
  {| To := To task; Subject := Subject task; TemplateName := TemplateName task;
     Data := Data task; Retries := r |}.

(** [json.Marshal(task)]: the fields in the order of the struct, under the
    names of their tags; [retries] is left out when it is zero
    ([omitempty]). *)
Definition Marshal (task : EmailTask) : result wire :=
  data ←ᵣ match Data task with
          | None => Ok JNull
          | Some m => encodeMap m
          end;
  Ok (Text (JObject (
    [ ("to", JString (Utf8.ToValidUTF8 (To task)));
      ("subject", JString (Utf8.ToValidUTF8 (Subject task)));
      ("templateName", JString (Utf8.ToValidUTF8 (TemplateName task)));
      ("data", data) ]
    ++ (if Retries task =? 0 then [] else [("retries", JNumber (FormatInt (Retries task)))])))).

(** The decoder matches a key with a field name up to case.  This is
    [foldName] of [encoding/json] on the runes that can fold to an ASCII
    letter: the ASCII letters, the long s (U+017F) and the Kelvin sign
    (U+212A). *)
Fixpoint foldName (s : string) : string :=
  match s with
  | EmptyString => EmptyString
  | String a s1 =>
    let b := Utf8.byte a in
    if (0x61 <=? b) && (b <=? 0x7A)
    then String (ascii_of_N (Z.to_N (b - 0x20))) (foldName s1)
    else
      match s1 with
      | String a1 s2 =>
        if (b =? 0xC5) && (Utf8.byte a1 =? 0xBF) then String "S" (foldName s2)
        else
          match s2 with
          | String a2 s3 =>
            if (b =? 0xE2) && (Utf8.byte a1 =? 0x84) && (Utf8.byte a2 =? 0xAA)
            then String "K" (foldName s3)
            else String a (foldName s1)
          | EmptyString => String a (foldName s1)
          end
      | EmptyString => String a EmptyString
      end
  end.

Definition isField (key name : string) : bool :=
  bool_decide (foldName key = foldName name).

Definition typeError (what field type : string) : error :=
  ErrorString ("json: cannot unmarshal " +:+ what +:+ " into Go struct field EmailTask."
               +:+ field +:+ " of type " +:+ type).

Definition kind (j : json) : string :=
  match j with
  | JNull => "null"
  | JBool _ => "bool"
  | JNumber _ => "number"
  | JString _ => "string"
  | JArray _ => "array"
  | JObject _ => "object"
  end.

Definition decodeString (field : string) (j : json) (old : string) : result string :=
  match j with
  | JNull => Ok old
  | JString s => Ok s
  | _ => Err (typeError (kind j) field "string")
  end.

Definition decodeInt (field : string) (j : json) (old : Z) : result Z :=
  match j with
  | JNull => Ok old
  | JNumber lit =>
    match ParseInt lit with
    | Some z => Ok z
    | None => Err (typeError "number" field "int")
    end
  | _ => Err (typeError (kind j) field "int")
  end.

(** A [null] sets the map to nil; an object is read into the map the field
    already holds, or into a new one. *)
Definition decodeData (field : string) (j : json) (old : option (gmap string value))
  : result (option (gmap string value)) :=
  match j with
  | JNull => Ok None
  | JObject members =>
    kvs ←ᵣ mapR (λ kv, v ←ᵣ decodeValue kv.2; Ok (kv.1, v)) members;
    Ok (Some (assignAll (default ∅ old) kvs))
  | _ => Err (typeError (kind j) field "map[string]interface {}")
  end.

(** One member of the object: the field it names is set, a key that names
    no field is skipped. *)
Definition decodeField (task : EmailTask) (kv : string * json) : result EmailTask :=
  let '(key, j) := kv in
  if isField key "to" then
    s ←ᵣ decodeString "to" j (To task);
    Ok {| To := s; Subject := Subject task; TemplateName := TemplateName task;
          Data := Data task; Retries := Retries task |}
  else if isField key "subject" then
    s ←ᵣ decodeString "subject" j (Subject task);
    Ok {| To := To task; Subject := s; TemplateName := TemplateName task;
          Data := Data task; Retries := Retries task |}
  else if isField key "templateName" then
    s ←ᵣ decodeString "templateName" j (TemplateName task);
    Ok {| To := To task; Subject := Subject task; TemplateName := s;
          Data := Data task; Retries := Retries task |}
  else if isField key "data" then
    d ←ᵣ decodeData "data" j (Data task);
    Ok {| To := To task; Subject := Subject task; TemplateName := TemplateName task;
          Data := d; Retries := Retries task |}
  else if isField key "retries" then
    r ←ᵣ decodeInt "retries" j (Retries task);
    Ok (withRetries task r)
  else Ok task.

(** The zero value of [var task EmailTask]. *)
Definition zeroTask : EmailTask :=
  {| To := ""; Subject := ""; TemplateName := ""; Data := None; Retries := 0 |}.

(** [json.Unmarshal(payload, &task)] on a zero task. *)
Definition Unmarshal (payload : wire) : result EmailTask :=
  match payload with
  | NotJSON _ => Err (ErrorString "invalid character looking for beginning of value")
  | Text JNull => Ok zeroTask
  | Text (JObject members) =>
    foldl (λ acc kv, task ←ᵣ acc; decodeField task kv) (Ok zeroTask) members
  | Text j =>
    Err (ErrorString ("json: cannot unmarshal " +:+ kind j
                      +:+ " into Go value of type queue.EmailTask"))
  end.

(** ** The template manager (emailTemplate/template.go)

    A Go map is a reference.  [RenderWithSafeURLs] reads the caller's map
    and writes a map of its own, so maps live in a heap and the function
    takes a reference. *)

Abbreviation loc := positive (only parsing).
Abbreviation heap := (gmap positive (gmap string value)) (only parsing).

(** [None] is the nil map, which reads as empty. *)
Abbreviation mapref := (option positive) (only parsing).

Definition deref (h : heap) (r : mapref) : gmap string value :=
  match r with
  | Some l => default ∅ (h !! l)
  | None => ∅
  end.

(** [make(map[string]interface{})]. *)
Definition make (h : heap) : loc * heap :=
  let l := fresh (dom h) in (l, <[l := ∅]> h).

(** [m[key] = v] on the map at [l]. *)
Definition mapassign (l : loc) (key : string) (v : value) (h : heap) : heap :=
  <[l := <[key := v]> (default ∅ (h !! l))]> h.

Record Manager := { templates : gmap string Template }.

(** [%v] of a slice of strings. *)
Definition showNames (names : list string) : string :=
  "[" +:+ String.concat " " names +:+ "]".

(** [Render]; the names in the text of the first error come in the order
    Go ranges over the map, which the model takes from [map_to_list]. *)
Definition Render (m : Manager) (name : string) (data : mapref) (h : heap)
  : string * option error :=
  match templates m !! name with
  | None =>
    ("", Some (ErrorString ("template '" +:+ name +:+ "' not found. Available templates: "
                            +:+ showNames (map_to_list (templates m)).*1)))
  | Some tmpl =>
    match Execute tmpl (deref h data) with
    | Err err => ("", Some (Errorf ("failed to render template '" +:+ name +:+ "': ") err))
    | Ok body => (body, None)
    end
  end.

Definition urlFields : list string := ["resetUrl"; "verifyUrl"; "loginUrl"; "signupUrl"].

(** The loop over [urlFields], with [safeData] already filled, up to the
    final call of [Render]. *)
Fixpoint safeURLs (m : Manager) (name : string) (data : mapref) (safeData : loc)
    (fields : list string) (h : heap) : (string * option error) * heap :=
  match fields with
  | [] => (Render m name (Some safeData) h, h)
  | field :: rest =>
    match deref h data !! field with
    | Some (VString rawURL) =>
      if bool_decide (rawURL ≠ "") then
        match url_Parse rawURL with
        | Err err => (("", Some (Errorf ("invalid " +:+ field +:+ ": ") err)), h)
        | Ok parsedURL =>
          safeURLs m name data safeData rest
            (mapassign safeData field (VURL (url_String parsedURL)) h)
        end
      else safeURLs m name data safeData rest h
    | _ => safeURLs m name data safeData rest h
    end
  end.

Definition RenderWithSafeURLs (m : Manager) (name : string) (data : mapref) (h : heap)
  : (string * option error) * heap :=
  let '(safeData, h) := make h in
  let h := map_fold (λ key v h, mapassign safeData key v h) h (deref h data) in
  safeURLs m name data safeData urlFields h.

(** ** The mail sender (senderSide) *)

Record ApplicationConfig := {
  ServerPort : string;
  CacheHost : string;
  CachePort : string;
  CachePassword : string;
  CacheDatabaseIndex : Z;
  EmailSMTPServer : string;
  EmailSMTPServerPort : Z;
  EmailSMTPUsername : string;
  EmailSMTPPassword : string;
  EmailSenderAddress : string;
  EmailSenderDisplayName : string;
}.

Record Sender := {
  config : ApplicationConfig;
  sender_templates : Manager;
}.

Definition NewSender (cfg : ApplicationConfig) (tmpl : Manager) : Sender :=
  {| config := cfg; sender_templates := tmpl |}.

Definition validateSMTPConfig (s : Sender) : option error :=
  if Utf8.blank (EmailSMTPServer (config s)) then
    Some (ErrorString "SMTP server is not configured")
  else if EmailSMTPServerPort (config s) <=? 0 then
    Some (ErrorString "invalid SMTP server port")
  else if Utf8.blank (EmailSenderAddress (config s)) then
    Some (ErrorString "sender email address is not configured")
  else if Utf8.blank (EmailSMTPUsername (config s)) then
    Some (ErrorString "SMTP username is not configured")
  else if Utf8.blank (EmailSMTPPassword (config s)) then
    Some (ErrorString "SMTP password is not configured")
  else None.

(** ** The world the worker runs in *)

Inductive level := LevelInfo | LevelWarn | LevelError.

Inductive attr :=
| AString (s : string)
| AInt (z : Z)
| AError (e : error).

(** What the program does to the outside, in order. *)
Inductive event :=
| EvLog (lvl : level) (msg : string) (attrs : list (string * attr))
| EvSleep (nanoseconds : Z)
| EvRPush (key : string) (payload : wire)
| EvBLPop (key : string)
| EvSendMail (addr username password host from : string) (to : list string) (msg : string).

Record world := {
  queue : list wire;     (* the Redis list email_queue, head first *)
  trace : list event;
}.

(** What the outside answers during one iteration of the worker. *)
Record env := {
  ctxDone : bool;              (* is [ctx.Done()] ready at the head of the loop *)
  popReply : option error;     (* the error of BLPOP, if any *)
  sendReply : option error;    (* the error of [smtp.SendMail], if any *)
  pushReply : option error;    (* the error of RPUSH, if any *)
}.

Definition M (A : Type) : Type := world → A * world.

Definition ret {A} (a : A) : M A := λ w, (a, w).

Definition bind {A B} (c : M A) (k : A → M B) : M B :=
  λ w, let '(a, w') := c w in k a w'.

Definition emit (e : event) : M unit :=
  λ w, (tt, {| queue := queue w; trace := trace w ++ [e] |}).

Notation "x ⇐ c ; k" := (bind c (λ x, k))
  (at level 20, c at level 100, k at level 200, right associativity,
   format "x  ⇐  c ;  '/' k").
Notation "c ;; k" := (bind c (λ _, k))
  (at level 100, k at level 200, right associativity, format "c ;;  '/' k").

Definition Second : Z := 1000000000.
Definition Sleep (d : Z) : M unit := emit (EvSleep d).

Definition CRLF : string := String (ascii_of_nat 13) (String (ascii_of_nat 10) EmptyString).

(** [SendEmail]; [reply] is what [smtp.SendMail] answers if it is called.
    The data of the task is the only map of the heap the renderer sees. *)
Definition SendEmail (s : Sender) (reply : option error)
    (to subject templateName : string) (data : option (gmap string value))
  : M (option error) :=
  if bool_decide (to = "") then
    ret (Some (ErrorString "recipient email address cannot be empty"))
  else if bool_decide (subject = "") then
    ret (Some (ErrorString "email subject cannot be empty"))
  else if bool_decide (templateName = "") then
    ret (Some (ErrorString "email template name cannot be empty"))
  else
    match validateSMTPConfig s with
    | Some err => ret (Some (Errorf "invalid SMTP configuration: " err))
    | None =>
      let '(ref, h) :=
        match data with
        | Some m => (Some 1%positive, {[ 1%positive := m ]})
        | None => (None, ∅)
        end in
      match (RenderWithSafeURLs (sender_templates s) templateName ref h).1 with
      | (_, Some err) => ret (Some (Errorf "failed to render email template: " err))
      | (body, None) =>
        let cfg := config s in
        let message :=
          ("From: " +:+ EmailSenderDisplayName cfg +:+ " <" +:+ EmailSenderAddress cfg +:+ ">" +:+ CRLF)
          +:+ ("To: " +:+ to +:+ CRLF)
          +:+ ("Subject: " +:+ subject +:+ CRLF)
          +:+ ("MIME-Version: 1.0" +:+ CRLF)
          +:+ ("Content-Type: text/html; charset=UTF-8" +:+ CRLF +:+ CRLF)
          +:+ body in
        let addr := EmailSMTPServer cfg +:+ ":" +:+ pretty (EmailSMTPServerPort cfg) in
        emit (EvSendMail addr (EmailSMTPUsername cfg) (EmailSMTPPassword cfg)
                (EmailSMTPServer cfg) (EmailSenderAddress cfg) [to] message);;
        ret reply
      end
    end.

(** ** The queue (redisQueue/redis.go) *)

Definition emailQueue : string := "email_queue".
Definition maxRetries : Z := 3.
Definition retryDelay : Z := 5 * Second.
Definition queueCheckInterval : Z := 1 * Second.

(** Go's [int] is 64 bits wide here; [task.Retries++] wraps around. *)
Definition wrapInt64 (z : Z) : Z := (z + 2 ^ 63) mod 2 ^ 64 - 2 ^ 63.

(** The client and the logger of the Go struct are the [world]. *)
Record RedisQueue := { sender : Sender }.

Definition validateEmailTask (task : EmailTask) : option error :=
  if bool_decide (To task = "") then
    Some (ErrorString "recipient email is required")
  else if bool_decide (Subject task = "") then
    Some (ErrorString "email subject is required")
  else if bool_decide (TemplateName task = "") then
    Some (ErrorString "email template name is required")
  else None.

(** RPUSH: the payload goes to the tail of the list unless the command
    fails. *)
Definition RPush (reply : option error) (key : string) (payload : wire) : M (option error) :=
  λ w, (reply,
        {| queue := match reply with
                    | None => queue w ++ [payload]
                    | Some _ => queue w
                    end;
           trace := trace w ++ [EvRPush key payload] |}).

Definition EnqueueEmail (q : RedisQueue) (reply : option error) (task : EmailTask)
  : M (option error) :=
  match validateEmailTask task with
  | Some err => ret (Some (Errorf "invalid email task: " err))
  | None =>
    match Marshal task with
    | Err err => ret (Some (Errorf "failed to serialize email task: " err))
    | Ok taskJSON =>
      err ⇐ RPush reply emailQueue taskJSON;
      match err with
      | Some err => ret (Some (Errorf "failed to enqueue email task: " err))
      | None =>
        emit (EvLog LevelInfo "Email task enqueued"
                [("to", AString (To task)); ("subject", AString (Subject task))]);;
        ret None
      end
    end
  end.

Definition sendEmailWithRetry (q : RedisQueue) (e : env) (task : EmailTask)
  : M (option error) :=
  err ⇐ SendEmail (sender q) (sendReply e)
          (To task) (Subject task) (TemplateName task) (Data task);
  match err with
  | None =>
    emit (EvLog LevelInfo "Email sent successfully"
            [("to", AString (To task)); ("subject", AString (Subject task))]);;
    ret None
  | Some err =>
    if Retries task <? maxRetries then
      let task := withRetries task (wrapInt64 (Retries task + 1)) in
      emit (EvLog LevelWarn "Email send failed, requeueing"
              [("to", AString (To task)); ("subject", AString (Subject task));
               ("retries", AInt (Retries task)); ("error", AError err)]);;
      Sleep retryDelay;;
      requeueErr ⇐ EnqueueEmail q (pushReply e) task;
      match requeueErr with
      | Some requeueErr =>
        ret (Some (WrapError "failed to requeue email: " requeueErr
                     (" (original error: " +:+ Error err +:+ ")")))
      | None => ret None
      end
    else
      emit (EvLog LevelError "Email send failed after max retries"
              [("to", AString (To task)); ("subject", AString (Subject task));
               ("error", AError err)]);;
      ret (Some err)
  end.

(** BLPOP with no timeout: an error, or the head of the list together with
    the name of the list; [None] when the call does not return, which is
    what happens on an empty list. *)
Definition BLPop (reply : option error) (key : string) : M (option (result (list wire))) :=
  λ w,
    let t := trace w ++ [EvBLPop key] in
    match reply with
    | Some err => (Some (Err err), {| queue := queue w; trace := t |})
    | None =>
      match queue w with
      | payload :: rest => (Some (Ok [NotJSON key; payload]), {| queue := rest; trace := t |})
      | [] => (None, {| queue := []; trace := t |})
      end
    end.

(** [processNextTask] from the answer of BLPOP on. *)
Definition processReply (q : RedisQueue) (e : env) (r : result (list wire))
  : M (option error) :=
  match r with
  | Err err =>
    match err with
    | RedisNil | ContextCanceled => ret None
    | _ => ret (Some (Errorf "queue retrieval error: " err))
    end
  | Ok (_ :: payload :: _) =>
    match Unmarshal payload with
    | Err err => ret (Some (Errorf "task deserialization error: " err))
    | Ok task => sendEmailWithRetry q e task
    end
  | Ok _ => ret (Some (ErrorString "invalid queue result"))
  end.

(** [None] when the worker stays suspended in BLPOP. *)
Definition processNextTask (q : RedisQueue) (e : env) : M (option (option error)) :=
  r ⇐ BLPop (popReply e) emailQueue;
  match r with
  | Some r => err ⇐ processReply q e r; ret (Some err)
  | None => ret None
  end.

(** Where the worker is after some of its loop has run. *)
Inductive outcome :=
| Returned (w : world)    (* [StartWorker] has returned *)
| Looping (w : world)     (* control is at the head of the loop *)
| Blocked (w : world).    (* suspended in BLPOP on an empty list *)

(** One pass through the body of the [for] of [StartWorker]. *)
Definition iteration (q : RedisQueue) (e : env) (w : world) : outcome :=
  if ctxDone e then
    Returned (emit (EvLog LevelInfo "Email queue worker stopped" []) w).2
  else
    match processNextTask q e w with
    | (None, w') => Blocked w'
    | (Some (Some err), w') =>
      Looping ((emit (EvLog LevelError "Task processing error" [("error", AError err)]);;
                Sleep queueCheckInterval) w').2
    | (Some None, w') => Looping w'
    end.

Fixpoint workerLoop (q : RedisQueue) (es : list env) (w : world) : outcome :=
  match es with
  | [] => Looping w
  | e :: es' =>
    match iteration q e w with
    | Looping w' => workerLoop q es' w'
    | o => o
    end
  end.

(** [StartWorker] against a script of answers, one per iteration. *)
Definition StartWorker (q : RedisQueue) (es : list env) (w : world) : outcome :=
  workerLoop q es (emit (EvLog LevelInfo "Starting email queue worker..." []) w).2.

(** ** Vocabulary of the properties *)

(** The world [w] after the events [evs], the list untouched. *)
Definition after (w : world) (evs : list event) : world :=
  {| queue := queue w; trace := trace w ++ evs |}.

(** The payloads of the RPUSH commands among [evs]. *)
Definition pushed (evs : list event) : list wire :=
  omap (λ ev, match ev with EvRPush _ payload => Some payload | _ => None end) evs.

(** A value of [Retries] that a Go [int] can hold. *)
Definition isInt64 (z : Z) : Prop := MinInt64 ≤ z ≤ MaxInt64.

(** A transport value is missing: this is the test of
    [validateSMTPConfig]. *)
Definition missingTransport (cfg : ApplicationConfig) : bool :=
  Utf8.blank (EmailSMTPServer cfg) || (EmailSMTPServerPort cfg <=? 0)
  || Utf8.blank (EmailSenderAddress cfg) || Utf8.blank (EmailSMTPUsername cfg)
  || Utf8.blank (EmailSMTPPassword cfg).

(** What the claim on safe URLs says a value becomes: the string under one
    of [fields], if it is not empty, is parsed and written back as a
    [template.URL]. *)
Definition safeValue (fields : list string) (key : string) (v : value) : value :=
  match v with
  | VString rawURL =>
    if bool_decide (key ∈ fields ∧ rawURL ≠ "") then
      match url_Parse rawURL with
      | Ok parsedURL => VURL (url_String parsedURL)
      | Err _ => v
      end
    else v
  | _ => v
  end.

(** What a value of the data mapping is once it has been through the
    encoding: an integer comes back as the [float64] that
    [strconv.ParseFloat] reads from its digits, every other scalar comes
    back as it was. *)
Definition reread (v : value) : value :=
  match v with
  | VInt z | VInt64 z =>
    match ParseFloat (FormatInt z) with
    | Some f => VFloat f
    | None => v
    end
  | _ => v
  end.

(** A scalar the encoding can carry: a string that is valid UTF-8, a
    boolean, a [float64] that [strconv] writes and reads back (every
    finite [float64] in Go), an integer whose digits [strconv] reads as a
    [float64] (every integer in Go). *)
Definition scalar (v : value) : Prop :=
  match v with
  | VString s => Utf8.ValidString s = true
  | VBool _ => True
  | VFloat f => ∃ lit, FormatFloat f = Some lit ∧ ParseFloat lit = Some f
  | VInt z | VInt64 z => is_Some (ParseFloat (FormatInt z))
  | _ => False
  end.

Definition isInteger (v : value) : Prop :=
  match v with
  | VInt _ | VInt64 _ => True
  | _ => False
  end.

(** A well-formed task: the three texts are not empty, every string is
    valid UTF-8, every value of the data mapping is a scalar, and [Retries]
    fits a Go [int]. *)
Definition wellFormed (task : EmailTask) : Prop :=
  (To task ≠ "" ∧ Subject task ≠ "" ∧ TemplateName task ≠ "")
  ∧ (Utf8.ValidString (To task) = true ∧ Utf8.ValidString (Subject task) = true
     ∧ Utf8.ValidString (TemplateName task) = true)
  ∧ isInt64 (Retries task)
  ∧ ∀ m, Data task = Some m →
         map_Forall (λ key v, Utf8.ValidString key = true ∧ scalar v) m.

(** The task as it is read back from its own encoding. *)
Definition rereadTask (task : EmailTask) : EmailTask :=
  {| To := To task; Subject := Subject task; TemplateName := TemplateName task;
     Data := match Data task with
             | Some m => Some (reread <$> m)
             | None => None
             end;
     Retries := Retries task |}.

(** The state of the loop of [RenderWithSafeURLs] over the fields: [data]
    reads as [d], and [safeData] is another map than [data] as soon as [d]
    has a key. *)
Definition loopInv (data : mapref) (safeData : loc) (d : gmap string value) (h : heap)
  : Prop :=
  deref h data = d ∧ (d ≠ ∅ → data ≠ Some safeData).

(** ** Vocabulary of the further properties *)

Global Instance level_eq_dec : EqDecision level.
Proof. solve_decision. Defined.

(** The number of records of level [lvl] and message [msg] among [evs]. *)
Definition logged (lvl : level) (msg : string) (evs : list event) : nat :=
  List.length (omap (λ ev, match ev with
                           | EvLog l m _ => if decide (l = lvl ∧ m = msg) then Some tt else None
                           | _ => None
                           end) evs).

(** The pauses among [evs], in nanoseconds. *)
Definition slept (evs : list event) : list Z :=
  omap (λ ev, match ev with EvSleep d => Some d | _ => None end) evs.

(** The world an outcome holds. *)
Definition worldOf (o : outcome) : world :=
  match o with
  | Returned w | Looping w | Blocked w => w
  end.

(** A task that goes through the wire unchanged: it is well formed and its
    data holds no integer. *)
Definition wireStable (task : EmailTask) : Prop :=
  wellFormed task
  ∧ ∀ m, Data task = Some m → map_Forall (λ _ v, ¬ isInteger v) m.

(** An iteration in which the context is live and Redis serves both
    commands. *)
Definition redisServes (e : env) : Prop :=
  ctxDone e = false ∧ popReply e = None ∧ pushReply e = None.

(** [ListAvailabletemplates]; the order is the one Go ranges over the map
    in, which the model takes from [map_to_list]. *)
Definition ListAvailabletemplates (m : Manager) : list string :=
  (map_to_list (templates m)).*1.

(** [SendTemplatedEmail]. *)
Definition SendTemplatedEmail (s : Sender) (reply : option error)
    (to subject templateName : string) (data : option (gmap string value))
  : M (option error) :=
  SendEmail s reply to subject templateName data.

(** [NewRedisQueue]; the client and the logger are the world. *)
Definition NewRedisQueue (s : Sender) : RedisQueue := {| sender := s |}.

(** ** Configuration (config/config.go) *)

Context {toolkit : Toolkit}.

(** The default of [EMAIL_SMTP_PASSWORD] is a credential in the source; it
    is kept out of this file and taken as a parameter. *)
Variable defaultSMTPPassword : string.

(** The environment of the process maps the variables that are set to
    their values. *)
Definition getEnvironmentVariable (environ : gmap string string) (key defaultValue : string)
  : string :=
  match environ !! key with
  | Some v => v
  | None => defaultValue
  end.

Definition LoadConfiguration (environ : gmap string string) : ApplicationConfig :=
  let cacheDatabaseIndex :=
    (Ints.Atoi (getEnvironmentVariable environ "CACHE_DB_INDEX" "0")).1 in
  let smtpServerPort :=
    (Ints.Atoi (getEnvironmentVariable environ "EMAIL_SMTP_PORT" "587")).1 in
  {| ServerPort := getEnvironmentVariable environ "SERVER_PORT" "8080";
     CacheHost := getEnvironmentVariable environ "CACHE_HOST" "localhost";
     CachePort := getEnvironmentVariable environ "CACHE_PORT" "6379";
     CachePassword := getEnvironmentVariable environ "CACHE_PASSWORD" "";
     CacheDatabaseIndex := cacheDatabaseIndex;
     EmailSMTPServer := getEnvironmentVariable environ "EMAIL_SMTP_SERVER" "smtp.gmail.com";
     EmailSMTPServerPort := smtpServerPort;
     EmailSMTPUsername :=
       getEnvironmentVariable environ "EMAIL_SMTP_USERNAME" "sarthakyeole25@gmail.com";
     EmailSMTPPassword :=
       getEnvironmentVariable environ "EMAIL_SMTP_PASSWORD" defaultSMTPPassword;
     EmailSenderAddress :=
       getEnvironmentVariable environ "EMAIL_SENDER_ADDRESS" "sarthakyeole25@gmail.com";
     EmailSenderDisplayName := getEnvironmentVariable environ "EMAIL_SENDER_NAME" "Sarthak" |}.

(** ** The Redis client (redisQueue/redis.go) *)

Definition validateRedisConfig (cfg : ApplicationConfig) : option error :=
  if bool_decide (CacheHost cfg = "") then
    Some (ErrorString "redis host cannot be empty")
  else if bool_decide (CachePort cfg = "") then
    Some (ErrorString "redis port cannot be empty")
  else None.

Definition Minute : Z := 60 * Second.

(** [redis.Options], which stands for the client built from it. *)
Record Options := {
  Addr : string;
  Password : string;
  DB : Z;
  PoolSize : Z;
  PoolTimeout : Z;
  IdleCheckFrequency : Z;
  IdleTimeout : Z;
  MaxConnAge : Z;
}.

(** [NewRedisClient]; [ping] is what the PING of the new client answers. *)
Definition NewRedisClient (cfg : ApplicationConfig) (ping : option error) : result Options :=
  match validateRedisConfig cfg with
  | Some err => Err (Errorf "invalid Redis configuration: " err)
  | None =>
    let client :=
      {| Addr := CacheHost cfg +:+ ":" +:+ CachePort cfg;
         Password := CachePassword cfg;
         DB := CacheDatabaseIndex cfg;
         PoolSize := 10;
         PoolTimeout := 30 * Second;
         IdleCheckFrequency := 5 * Minute;
         IdleTimeout := 5 * Minute;
         MaxConnAge := 30 * Minute |} in
    match ping with
    | Some err => Err (Errorf "failed to connect to Redis: " err)
    | None => Ok client
    end
  end.

(** ** Loading the templates (emailTemplate/template.go) *)

(** One call of the function [fs.WalkDir] is given: the path, whether it is
    a directory, the error of the walk if any, and what [ReadFile] answers
    for the path. *)
Record dirEntry := {
  entryPath : string;
  entryIsDir : bool;
  entryErr : option error;
  entryContent : result string;
}.

(** The function passed to [fs.WalkDir], on one entry. *)
Definition visit (templates : gmap string Template) (d : dirEntry)
  : result (gmap string Template) :=
  match entryErr d with
  | Some err => Err (Errorf "error walking template directory: " err)
  | None =>
    if entryIsDir d then Ok templates
    else if negb (Strings.HasSuffix (entryPath d) ".html") then Ok templates
    else
      let name := Strings.TrimSuffix (Filepath.Base (entryPath d)) ".html" in
      match entryContent d with
      | Err err => Err (Errorf ("failed to read template " +:+ entryPath d +:+ ": ") err)
      | Ok content =>
        match template_Parse name content with
        | Err err => Err (Errorf ("failed to parse template " +:+ entryPath d +:+ ": ") err)
        | Ok tmpl => Ok (<[name := tmpl]> templates)
        end
      end
  end.

(** The walk stops at the first error. *)
Fixpoint walk (templates : gmap string Template) (entries : list dirEntry)
  : result (gmap string Template) :=
  match entries with
  | [] => Ok templates
  | d :: rest => templates' ←ᵣ visit templates d; walk templates' rest
  end.

(** [New]; [stat] is the error of [fs.Stat] on the directory, [entries] are
    the entries of the embedded file system in the order of the walk. *)
Definition New (stat : option error) (entries : list dirEntry) : result Manager :=
  match stat with
  | Some err => Err (Errorf "html template directory not found: " err)
  | None =>
    match walk ∅ entries with
    | Err err => Err (Errorf "template loading failed: " err)
    | Ok templates =>
      if bool_decide (size templates = 0%nat)
      then Err (ErrorString "no templates found in html directory")
      else Ok {| templates := templates |}
    end
  end.

(** ** The HTTP handlers (api) *)

Definition sanitizeValue (v : value) : value :=
  match v with
  | VString val => VString (Strings.TrimSpace val)
  | VInt _ | VInt64 _ | VFloat _ | VBool _ => v
  | _ => VString (Sprint v)
  end.

(** [sanitizeTemplateData]: a new map, filled key by key. *)
Definition sanitizeTemplateData (data : option (gmap string value)) : gmap string value :=
  map_fold (λ k v sanitized, <[k := sanitizeValue v]> sanitized) ∅ (default ∅ data).

(** What [validateRequest] returns: [errors.New("invalid request
    structure")] or a [ValidationError] with its details. *)
Inductive requestError :=
| InvalidStructure
| ValidationError (Errors : gmap string string).

Definition tagMessage (tag : string) : string :=
  if String.eqb tag "required" then "this field is required"
  else if String.eqb tag "email" then "invalid email format"
  else if String.eqb tag "min" then "value is too short"
  else if String.eqb tag "max" then "value is too long"
  else "validation failed".

Definition validateRequest (req : SendEmailRequest) : option requestError :=
  match validate_Struct req with
  | Valid => None
  | InvalidValidation => Some InvalidStructure
  | FieldErrors errs =>
    Some (ValidationError (foldl (λ details e, <[e.1 := tagMessage e.2]> details) ∅ errs))
  end.

(** The JSON bodies the handlers write. *)
Inductive body :=
| ErrorResponse (error : string) (details : gmap string string)
| Queued (recipient subject : string)
| Bulk (message : string) (successEmails failedEmails : list string).

Record response := { status : Z; content : body }.

Definition StatusAccepted : Z := 202.
Definition StatusMultiStatus : Z := 207.
Definition StatusBadRequest : Z := 400.
Definition StatusInternalServerError : Z := 500.

(** The task a handler builds from a request. *)
Definition taskOf (req : SendEmailRequest) : EmailTask :=
  {| To := Strings.TrimSpace (req_To req);
     Subject := Strings.TrimSpace (req_Subject req);
     TemplateName := Strings.TrimSpace (req_TemplateName req);
     Data := Some (sanitizeTemplateData (req_Data req));
     Retries := 0 |}.

(** The handler of [POST /api/send]; [bound] is what [ShouldBindJSON]
    answers, [reply] what RPUSH answers if it is reached. *)
Definition sendEmailHandler (q : RedisQueue) (bound : result SendEmailRequest)
    (reply : option error) : M response :=
  match bound with
  | Err err =>
    ret {| status := StatusBadRequest;
           content := ErrorResponse "invalid request" {[ "message" := Error err ]} |}
  | Ok req =>
    match validateRequest req with
    | Some (ValidationError Errors) =>
      ret {| status := StatusBadRequest; content := ErrorResponse "validation failed" Errors |}
    | Some InvalidStructure =>
      ret {| status := StatusBadRequest;
             content := ErrorResponse "invalid request structure" ∅ |}
    | None =>
      let task := taskOf req in
      err ⇐ EnqueueEmail q reply task;
      match err with
      | Some err =>
        ret {| status := StatusInternalServerError;
               content := ErrorResponse "failed to queue email" {[ "reason" := Error err ]} |}
      | None => ret {| status := StatusAccepted; content := Queued (To task) (Subject task) |}
      end
    end
  end.

(** The loop of the handler of [POST /api/bulk-send] from the email number
    [i] on; [reply i] is what RPUSH answers for the email number [i]. *)
Fixpoint bulkLoop (q : RedisQueue) (reply : nat → option error) (i : nat)
    (emails : list SendEmailRequest) (failedEmails successEmails : list string)
  : M (list string * list string) :=
  match emails with
  | [] => ret (failedEmails, successEmails)
  | emailReq :: rest =>
    match validateRequest emailReq with
    | Some _ => bulkLoop q reply (S i) rest (failedEmails ++ [req_To emailReq]) successEmails
    | None =>
      let task := taskOf emailReq in
      err ⇐ EnqueueEmail q (reply i) task;
      match err with
      | Some _ => bulkLoop q reply (S i) rest (failedEmails ++ [To task]) successEmails
      | None => bulkLoop q reply (S i) rest failedEmails (successEmails ++ [To task])
      end
    end
  end.

Definition bulkEmailHandler (q : RedisQueue) (bound : result (list SendEmailRequest))
    (reply : nat → option error) : M response :=
  match bound with
  | Err err =>
    ret {| status := StatusBadRequest;
           content := ErrorResponse "invalid bulk email request" {[ "message" := Error err ]} |}
  | Ok emails =>
    lists ⇐ bulkLoop q reply 0 emails [] [];
    let '(failedEmails, successEmails) := lists in
    match failedEmails with
    | _ :: _ =>
      ret {| status := StatusMultiStatus;
             content := Bulk "partial success in queueing emails" successEmails failedEmails |}
    | [] =>
      ret {| status := StatusAccepted;
             content := Bulk "all emails successfully queued" successEmails [] |}
    end
  end.

(** ** Start of the process (main)

    The part of [main] before the worker and the server are started; an
    error is the text [log.Fatalf] exits with. *)
Definition startup (environ : gmap string string) (stat : option error)
    (entries : list dirEntry) (ping : option error) : result RedisQueue :=
  let cfg := LoadConfiguration environ in
  match New stat entries with
  | Err err => Err (ErrorString ("Error initializing templates: " +:+ Error err))
  | Ok tmpl =>
    match NewRedisClient cfg ping with
    | Err err => Err (ErrorString ("Error connecting to Redis: " +:+ Error err))
    | Ok redisClient =>
      let emailService := NewSender cfg tmpl in
      Ok (NewRedisQueue emailService)
    end
  end.

(** ** Vocabulary of the properties of [New] *)

(** The name [New] files the template of an entry under. *)
Definition nameOf (d : dirEntry) : string :=
  Strings.TrimSuffix (Filepath.Base (entryPath d)) ".html".

(** An entry [New] reads: a file whose path ends in [.html]. *)
Definition isTemplateFile (d : dirEntry) : bool :=
  negb (entryIsDir d) && Strings.HasSuffix (entryPath d) ".html".

(** The entry is read and parsed into [t]. *)
Definition loads (d : dirEntry) (t : Template) : Prop :=
  ∃ content, entryContent d = Ok content ∧ template_Parse (nameOf d) content = Ok t.

(** ** Sample data *)

Definition sampleConfig : ApplicationConfig :=
  {| ServerPort := "8080"; CacheHost := "localhost"; CachePort := "6379";
     CachePassword := ""; CacheDatabaseIndex := 0;
     EmailSMTPServer := "smtp.example.com"; EmailSMTPServerPort := 587;
     EmailSMTPUsername := "mailer"; EmailSMTPPassword := "secret";
     EmailSenderAddress := "noreply@example.com"; EmailSenderDisplayName := "Mailer" |}.

(** The same configuration without an SMTP server. *)
Definition noServerConfig : ApplicationConfig :=
  {| ServerPort := "8080"; CacheHost := "localhost"; CachePort := "6379";
     CachePassword := ""; CacheDatabaseIndex := 0;
     EmailSMTPServer := ""; EmailSMTPServerPort := 587;
     EmailSMTPUsername := "mailer"; EmailSMTPPassword := "secret";
     EmailSenderAddress := "noreply@example.com"; EmailSenderDisplayName := "Mailer" |}.

Definition sampleManager (t : Template) : Manager := {| templates := {[ "T" := t ]} |}.

Definition sampleQueue (t : Template) : RedisQueue :=
  {| sender := NewSender sampleConfig (sampleManager t) |}.

Definition sampleTask (retries : Z) : EmailTask :=
  {| To := "a@x.com"; Subject := "S"; TemplateName := "T";
     Data := Some {[ "name" := VString "Bob" ]}; Retries := retries |}.

Definition refused : error := ErrorString "dial tcp: connection refused".

(** An iteration in which the SMTP server cannot be reached. *)
Definition sendFails : env :=
  {| ctxDone := false; popReply := None; sendReply := Some refused; pushReply := None |}.

(** An iteration in which neither the SMTP server nor Redis can be reached
    once the task has been popped. *)
Definition allFails : env :=
  {| ctxDone := false; popReply := None; sendReply := Some refused;
     pushReply := Some (ErrorString "redis: connection pool timeout") |}.

(** An iteration in which everything answers. *)
Definition allWell : env :=
  {| ctxDone := false; popReply := None; sendReply := None; pushReply := None |}.

(** The iteration that finds the context done. *)
Definition cancelled : env :=
  {| ctxDone := true; popReply := None; sendReply := None; pushReply := None |}.

Definition emptyWorld : world := {| queue := []; trace := [] |}.

(** The number of calls of [smtp.SendMail] among [evs]. *)
Definition mailsSent (evs : list event) : nat :=
  List.length (omap (λ ev, match ev with
                           | EvSendMail _ _ _ _ _ _ _ => Some tt
                           | _ => None
                           end) evs).

(** A list that holds one payload that is not JSON. *)
Definition garbageWorld : world := {| queue := [NotJSON "oops"]; trace := [] |}.

(** A task whose data holds a Go [int]. *)
Definition countTask : EmailTask :=
  {| To := "a@x.com"; Subject := "S"; TemplateName := "T";
     Data := Some {[ "count" := VInt 1 ]}; Retries := 0 |}.

(** ** Basic facts *)

Arguments mapR : simpl never.
Arguments Marshal : simpl never.
Arguments Unmarshal : simpl never.
Arguments RenderWithSafeURLs : simpl never.
Arguments validateSMTPConfig : simpl never.

Ltac run := unfold bind, ret, emit, Sleep, after; simpl.

Lemma after_nil w : after w [] = w.
Proof. destruct w; unfold after; simpl. by rewrite app_nil_r. Qed.

Lemma after_after w evs evs' : after (after w evs) evs' = after w (evs ++ evs').
Proof. unfold after; simpl. by rewrite app_assoc. Qed.

Lemma pushed_app evs evs' : pushed (evs ++ evs') = pushed evs ++ pushed evs'.
Proof. unfold pushed. apply omap_app. Qed.

(** [SendEmail] leaves the list alone and issues no Redis command: all it
    does to the world is at most one call of [smtp.SendMail]. *)
Lemma SendEmail_after s reply to subject templateName data w :
  ∃ evs, (SendEmail s reply to subject templateName data w).2 = after w evs
         ∧ pushed evs = [].
Proof.
  unfold SendEmail.
  repeat case_bool_decide; try by (exists []; rewrite after_nil).
  destruct (validateSMTPConfig s); [by (exists []; rewrite after_nil)|].
  destruct data as [m|].
  all: destruct (RenderWithSafeURLs _ _ _ _).1 as [body [err|]];
    [by (exists []; rewrite after_nil)|].
  all: by eexists [_].
Qed.

Lemma SendEmail_queue s reply to subject templateName data w r w' :
  SendEmail s reply to subject templateName data w = (r, w') → queue w' = queue w.
Proof.
  intros Hs. destruct (SendEmail_after s reply to subject templateName data w) as (evs & Hw & _).
  rewrite Hs in Hw. simpl in Hw. by subst.
Qed.

Lemma wrapInt64_succ r : isInt64 r → r < maxRetries → wrapInt64 (r + 1) = r + 1.
Proof.
  unfold isInt64, MinInt64, MaxInt64, maxRetries, wrapInt64. intros [Hlo _] Hlt.
  rewrite Z.mod_small; lia.
Qed.

(** What [EnqueueEmail] does to the world: nothing, or one RPUSH of the
    encoded task, which reaches the list exactly when the call succeeds. *)
Lemma EnqueueEmail_cases q reply task w :
  (∃ err, EnqueueEmail q reply task w = (Some err, w))
  ∨ (∃ payload, Marshal task = Ok payload ∧
       ((∃ err, EnqueueEmail q reply task w = (Some err, after w [EvRPush emailQueue payload]))
        ∨ EnqueueEmail q reply task w =
            (None, {| queue := queue w ++ [payload];
                      trace := trace w ++ [EvRPush emailQueue payload;
                                           EvLog LevelInfo "Email task enqueued"
                                             [("to", AString (To task));
                                              ("subject", AString (Subject task))]] |}))).
Proof.
  unfold EnqueueEmail.
  destruct (validateEmailTask task); [left; by eexists|].
  destruct (Marshal task) as [payload|err]; [|left; by eexists].
  right. exists payload. split; [done|].
  destruct reply as [err|]; run.
  - left. by eexists.
  - right. by rewrite <- app_assoc.
Qed.

(** ** The enqueue operation *)

(** C4. A task whose recipient, subject or template name is the empty
    string is rejected by [EnqueueEmail] with a validation error, and the
    call leaves the world as it found it: nothing is appended to the list,
    no RPUSH is issued and nothing is logged. *)
Theorem enqueue_rejects_empty_field q reply task w :
  To task = "" ∨ Subject task = "" ∨ TemplateName task = "" →
  ∃ err, validateEmailTask task = Some err
         ∧ EnqueueEmail q reply task w = (Some (Errorf "invalid email task: " err), w).
Proof.
  intros Hempty. unfold EnqueueEmail, validateEmailTask.
  repeat case_bool_decide; try by eexists.
  exfalso. destruct Hempty as [|[|]]; done.
Qed.

(** ** Delivery with retry *)

(** The three ways through [sendEmailWithRetry], by the answer of
    [SendEmail] and the attempt count. *)
Lemma sent_step q e task w w1 :
  SendEmail (sender q) (sendReply e)
    (To task) (Subject task) (TemplateName task) (Data task) w = (None, w1) →
  sendEmailWithRetry q e task w =
    (None, after w1 [EvLog LevelInfo "Email sent successfully"
                       [("to", AString (To task)); ("subject", AString (Subject task))]]).
Proof. intros Hsend. unfold sendEmailWithRetry, bind at 1. by rewrite Hsend. Qed.

Lemma retry_step q e task w err w1 :
  isInt64 (Retries task) →
  Retries task < maxRetries →
  SendEmail (sender q) (sendReply e)
    (To task) (Subject task) (TemplateName task) (Data task) w = (Some err, w1) →
  let r := EnqueueEmail q (pushReply e) (withRetries task (Retries task + 1))
             (after w1 [EvLog LevelWarn "Email send failed, requeueing"
                          [("to", AString (To task)); ("subject", AString (Subject task));
                           ("retries", AInt (Retries task + 1)); ("error", AError err)];
                        EvSleep retryDelay]) in
  sendEmailWithRetry q e task w =
    (match r.1 with
     | Some requeueErr =>
       Some (WrapError "failed to requeue email: " requeueErr
               (" (original error: " +:+ Error err +:+ ")"))
     | None => None
     end, r.2).
Proof.
  intros Hint Hlt Hsend r. subst r.
  unfold sendEmailWithRetry, bind at 1. rewrite Hsend.
  rewrite (proj2 (Z.ltb_lt _ _) Hlt), wrapInt64_succ by done.
  unfold bind, Sleep, emit, ret, after. simpl. rewrite <- app_assoc. simpl.
  by destruct (EnqueueEmail _ _ _ _) as [[requeueErr|] w3].
Qed.

Lemma give_up_step q e task w err w1 :
  maxRetries ≤ Retries task →
  SendEmail (sender q) (sendReply e)
    (To task) (Subject task) (TemplateName task) (Data task) w = (Some err, w1) →
  sendEmailWithRetry q e task w =
    (Some err,
     after w1 [EvLog LevelError "Email send failed after max retries"
                 [("to", AString (To task)); ("subject", AString (Subject task));
                  ("error", AError err)]]).
Proof.
  intros Hge Hsend. unfold sendEmailWithRetry, bind at 1. rewrite Hsend.
  by rewrite (proj2 (Z.ltb_ge _ _) Hge).
Qed.

(** C1. Below the ceiling a failed delivery is followed by a warning, the
    pause of [retryDelay] and [EnqueueEmail] on the task with [Retries] one
    higher; the world of [sendEmailWithRetry] is the world that call
    leaves, and when that call returns nil so does [sendEmailWithRetry],
    with the encoded task at the tail of the list. *)
Theorem retry_requeues_incremented q e task w err w1 :
  isInt64 (Retries task) →
  Retries task < maxRetries →
  SendEmail (sender q) (sendReply e)
    (To task) (Subject task) (TemplateName task) (Data task) w = (Some err, w1) →
  let task' := withRetries task (Retries task + 1) in
  let w2 := after w1 [EvLog LevelWarn "Email send failed, requeueing"
                        [("to", AString (To task)); ("subject", AString (Subject task));
                         ("retries", AInt (Retries task + 1)); ("error", AError err)];
                      EvSleep retryDelay] in
  (sendEmailWithRetry q e task w).2 = (EnqueueEmail q (pushReply e) task' w2).2
  ∧ ((EnqueueEmail q (pushReply e) task' w2).1 = None →
     (sendEmailWithRetry q e task w).1 = None
     ∧ ∃ payload, Marshal task' = Ok payload
                  ∧ queue (sendEmailWithRetry q e task w).2 = queue w ++ [payload]).
Proof.
  intros Hint Hlt Hsend task' w2.
  pose proof (retry_step q e task w err w1 Hint Hlt Hsend) as Hrun.
  cbv zeta in Hrun. fold task' w2 in Hrun.
  rewrite Hrun. simpl. split; [done|].
  intros Hok. rewrite Hok. split; [done|].
  destruct (EnqueueEmail_cases q (pushReply e) task' w2)
    as [[err' Hq]|(payload & Hm & [[err' Hq]|Hq])];
    rewrite Hq in Hok |- *; try discriminate.
  exists payload. split; [done|]. simpl.
  by rewrite (SendEmail_queue _ _ _ _ _ _ _ _ _ Hsend).
Qed.

(** C2. At the ceiling a failed delivery is reported once at error level
    and returned to the caller; the list is not touched and no RPUSH is
    issued. *)
Theorem ceiling_drops_task q e task w err w1 :
  Retries task = maxRetries →
  SendEmail (sender q) (sendReply e)
    (To task) (Subject task) (TemplateName task) (Data task) w = (Some err, w1) →
  sendEmailWithRetry q e task w =
    (Some err,
     after w1 [EvLog LevelError "Email send failed after max retries"
                 [("to", AString (To task)); ("subject", AString (Subject task));
                  ("error", AError err)]])
  ∧ queue w1 = queue w
  ∧ ∃ evs, w1 = after w evs ∧ pushed evs = [].
Proof.
  intros Hmax Hsend. split; [|split].
  - apply give_up_step; [lia|done].
  - by eapply SendEmail_queue.
  - destruct (SendEmail_after (sender q) (sendReply e) (To task) (Subject task)
                (TemplateName task) (Data task) w) as (evs & Hw & Hp).
    rewrite Hsend in Hw. by exists evs.
Qed.

(** C6. Below the ceiling, when the delivery fails and the requeue fails
    too, [sendEmailWithRetry] returns one error: it wraps the error of the
    requeue, and its text holds the text of the requeue error and the text
    of the delivery error. *)
Theorem requeue_failure_is_compound q e task w err w1 requeueErr w3 :
  isInt64 (Retries task) →
  Retries task < maxRetries →
  SendEmail (sender q) (sendReply e)
    (To task) (Subject task) (TemplateName task) (Data task) w = (Some err, w1) →
  EnqueueEmail q (pushReply e) (withRetries task (Retries task + 1))
    (after w1 [EvLog LevelWarn "Email send failed, requeueing"
                 [("to", AString (To task)); ("subject", AString (Subject task));
                  ("retries", AInt (Retries task + 1)); ("error", AError err)];
               EvSleep retryDelay]) = (Some requeueErr, w3) →
  ∃ compound,
    sendEmailWithRetry q e task w = (Some compound, w3)
    ∧ Unwrap compound = Some requeueErr
    ∧ Error compound = "failed to requeue email: " +:+ Error requeueErr
                       +:+ " (original error: " +:+ Error err +:+ ")".
Proof.
  intros Hint Hlt Hsend Hq.
  pose proof (retry_step q e task w err w1 Hint Hlt Hsend) as Hrun.
  cbv zeta in Hrun. rewrite Hq in Hrun. simpl in Hrun.
  eexists. split; [exact Hrun|]. by split.
Qed.

(** ** The worker loop *)

Lemma iteration_returned q e w w' :
  iteration q e w = Returned w' → ctxDone e = true.
Proof.
  unfold iteration. destruct (ctxDone e); [done|].
  by destruct (processNextTask q e w) as [[[err|]|] w1].
Qed.

Lemma workerLoop_returned q es : ∀ w w',
  workerLoop q es w = Returned w' → ∃ e, e ∈ es ∧ ctxDone e = true.
Proof.
  induction es as [|e es IH]; intros w w' Hrun; simpl in Hrun; [done|].
  destruct (iteration q e w) as [w1|w1|w1] eqn:Hit.
  - exists e. split; [left|]. by eapply iteration_returned.
  - destruct (IH _ _ Hrun) as (e' & Hin & Hdone). exists e'. split; [by right|done].
  - done.
Qed.

(** C5. A popped payload that does not decode is reported at error level
    and dropped: it is off the list, no RPUSH is issued, and control is
    back at the head of the loop after the pause of [queueCheckInterval].
    The loop goes on from there: [StartWorker], whose first pass meets the
    payload, runs the rest of its passes on the list without the payload,
    and it returns at the next pass if the context is then done.  More
    generally no pass whose context is live ends the loop, whatever Redis,
    the decoder and the SMTP server answer: the loop runs its next pass on
    the world the pass left, unless it stays suspended in BLPOP on an empty
    list; and the loop returns exactly at the first pass that finds the
    context done, having logged that it stopped. *)
Theorem worker_outlives_bad_payload q e w payload rest jsonErr :
  ctxDone e = false →
  popReply e = None →
  queue w = payload :: rest →
  Unmarshal payload = Err jsonErr →
  iteration q e w =
    Looping {| queue := rest;
               trace := trace w ++
                 [EvBLPop emailQueue;
                  EvLog LevelError "Task processing error"
                    [("error", AError (Errorf "task deserialization error: " jsonErr))];
                  EvSleep queueCheckInterval] |}
  ∧ (∀ e0 w0 w', iteration q e0 w0 = Returned w' → ctxDone e0 = true)
  ∧ (∀ e0 w0, ctxDone e0 = false →
       (∃ w', iteration q e0 w0 = Looping w')
       ∨ (∃ w', iteration q e0 w0 = Blocked w' ∧ popReply e0 = None ∧ queue w0 = []))
  ∧ (∀ es w0 w', StartWorker q es w0 = Returned w' → ∃ e0, e0 ∈ es ∧ ctxDone e0 = true)
  ∧ (∀ es, workerLoop q (e :: es) w =
           workerLoop q es
             {| queue := rest;
                trace := trace w ++
                  [EvBLPop emailQueue;
                   EvLog LevelError "Task processing error"
                     [("error", AError (Errorf "task deserialization error: " jsonErr))];
                   EvSleep queueCheckInterval] |})
  ∧ (∀ es, StartWorker q (e :: es) w =
           workerLoop q es
             {| queue := rest;
                trace := trace w ++
                  [EvLog LevelInfo "Starting email queue worker..." [];
                   EvBLPop emailQueue;
                   EvLog LevelError "Task processing error"
                     [("error", AError (Errorf "task deserialization error: " jsonErr))];
                   EvSleep queueCheckInterval] |})
  ∧ (∀ e' es, ctxDone e' = true →
       StartWorker q (e :: e' :: es) w =
       Returned {| queue := rest;
                   trace := trace w ++
                     [EvLog LevelInfo "Starting email queue worker..." [];
                      EvBLPop emailQueue;
                      EvLog LevelError "Task processing error"
                        [("error", AError (Errorf "task deserialization error: " jsonErr))];
                      EvSleep queueCheckInterval;
                      EvLog LevelInfo "Email queue worker stopped" []] |})
  ∧ (∀ e0 es w0, ctxDone e0 = false →
       (∃ w', iteration q e0 w0 = Looping w'
              ∧ workerLoop q (e0 :: es) w0 = workerLoop q es w')
       ∨ (∃ w', workerLoop q (e0 :: es) w0 = Blocked w'
                ∧ popReply e0 = None ∧ queue w0 = []))
  ∧ (∀ e0 es w0, ctxDone e0 = true →
       workerLoop q (e0 :: es) w0 =
       Returned {| queue := queue w0;
                   trace := trace w0 ++ [EvLog LevelInfo "Email queue worker stopped" []] |})
  ∧ (∀ es w0, StartWorker q es w0 =
              workerLoop q es
                {| queue := queue w0;
                   trace := trace w0 ++ [EvLog LevelInfo "Starting email queue worker..." []] |}).
Proof.
  intros Hctx Hpop Hqueue Hbad.
  assert (Hdrop : ∀ w0, queue w0 = payload :: rest →
    iteration q e w0 =
      Looping {| queue := rest;
                 trace := trace w0 ++
                   [EvBLPop emailQueue;
                    EvLog LevelError "Task processing error"
                      [("error", AError (Errorf "task deserialization error: " jsonErr))];
                    EvSleep queueCheckInterval] |}).
  { intros w0 Hqueue0. unfold iteration, processNextTask, BLPop, bind at 1.
    rewrite Hctx, Hpop, Hqueue0. unfold processReply. rewrite Hbad. run.
    by rewrite <- !app_assoc. }
  assert (Hlive : ∀ e0 w0, ctxDone e0 = false →
    (∃ w', iteration q e0 w0 = Looping w')
    ∨ (∃ w', iteration q e0 w0 = Blocked w' ∧ popReply e0 = None ∧ queue w0 = [])).
  { intros e0 w0 Hctx0. unfold iteration, processNextTask, BLPop, bind, ret.
    rewrite Hctx0. destruct (popReply e0) as [popErr|] eqn:Hpop0.
    - left. destruct popErr; simpl; by eexists.
    - destruct (queue w0) as [|payload0 rest0] eqn:Hq0.
      + right. by eexists.
      + left. destruct (processReply _ _ _ _) as [[err|] w1]; by eexists. }
  assert (Hdone : ∀ e0 es w0, ctxDone e0 = true →
    workerLoop q (e0 :: es) w0 =
    Returned {| queue := queue w0;
                trace := trace w0 ++ [EvLog LevelInfo "Email queue worker stopped" []] |}).
  { intros e0 es w0 Hctx0. cbn [workerLoop]. unfold iteration. by rewrite Hctx0. }
  assert (Hstart : ∀ es w0, StartWorker q es w0 =
    workerLoop q es
      {| queue := queue w0;
         trace := trace w0 ++ [EvLog LevelInfo "Starting email queue worker..." []] |}).
  { done. }
  assert (Hgo : ∀ es w0, queue w0 = payload :: rest →
    workerLoop q (e :: es) w0 =
    workerLoop q es
      {| queue := rest;
         trace := trace w0 ++
           [EvBLPop emailQueue;
            EvLog LevelError "Task processing error"
              [("error", AError (Errorf "task deserialization error: " jsonErr))];
            EvSleep queueCheckInterval] |}).
  { intros es w0 Hqueue0. cbn [workerLoop]. by rewrite (Hdrop w0 Hqueue0). }
  split; [by apply Hdrop|]. split; [apply iteration_returned|]. split; [exact Hlive|].
  split; [intros es w0 w'; apply workerLoop_returned|].
  split.
  { intros es. by apply Hgo. }
  split.
  { intros es. rewrite Hstart, Hgo by done. cbn [trace]. by rewrite <- app_assoc. }
  split.
  { intros e' es Hctx'. rewrite Hstart, Hgo, Hdone by done.
    cbn [queue trace]. by rewrite <- !app_assoc. }
  split; [|split; [exact Hdone|exact Hstart]].
  intros e0 es w0 Hctx0. cbn [workerLoop].
  destruct (Hlive e0 w0 Hctx0) as [[w' Hloop]|(w' & Hblock & Hpop0 & Hqueue0)].
  - left. exists w'. by rewrite Hloop.
  - right. exists w'. by rewrite Hblock.
Qed.

(** ** The mail sender *)

Lemma validateSMTPConfig_missing s :
  missingTransport (config s) = true ↔ is_Some (validateSMTPConfig s).
Proof.
  unfold missingTransport, validateSMTPConfig.
  destruct (Utf8.blank (EmailSMTPServer _)); [by split; eauto|].
  destruct (EmailSMTPServerPort _ <=? 0); [by split; eauto|].
  destruct (Utf8.blank (EmailSenderAddress _)); [by split; eauto|].
  destruct (Utf8.blank (EmailSMTPUsername _)); [by split; eauto|].
  destruct (Utf8.blank (EmailSMTPPassword _)); [by split; eauto|].
  simpl. split; [done|]. by intros [? ?].
Qed.

(** C7, as the code has it. [NewSender] checks nothing: it returns a
    sender that holds the configuration it was given.  A missing transport
    value (a blank server, user name, password or sender address, a port
    that is not positive) is reported by [SendEmail], on every call with a
    recipient, a subject and a template name, before the template is
    rendered and before any mail is sent. *)
Theorem missing_transport_reported_by_send cfg tmpl :
  missingTransport cfg = true →
  config (NewSender cfg tmpl) = cfg
  ∧ ∃ err, validateSMTPConfig (NewSender cfg tmpl) = Some err
      ∧ ∀ reply to subject templateName data w,
          to ≠ "" → subject ≠ "" → templateName ≠ "" →
          SendEmail (NewSender cfg tmpl) reply to subject templateName data w =
            (Some (Errorf "invalid SMTP configuration: " err), w).
Proof.
  intros Hmiss. split; [done|].
  destruct (proj1 (validateSMTPConfig_missing (NewSender cfg tmpl)) Hmiss) as [err Herr].
  exists err. split; [done|].
  intros reply to subject templateName data w Hto Hsubject Hname.
  unfold SendEmail. rewrite !bool_decide_eq_false_2 by done. by rewrite Herr.
Qed.

(** ** The template manager *)

Lemma deref_make h data : deref (<[fresh (dom h) := ∅]> h) data = deref h data.
Proof.
  unfold deref. destruct data as [l|]; [|done].
  destruct (decide (fresh (dom h) = l)) as [<-|Hne].
  - rewrite lookup_insert_eq.
    by rewrite (not_elem_of_dom_1 h _ (is_fresh (dom h))).
  - by rewrite lookup_insert_ne.
Qed.

(** The loop [for key, value := range data { safeData[key] = value }]
    makes [safeData] a copy of [data]. *)
Lemma copy_loop l (h : heap) (d : gmap string value) :
  h !! l = Some ∅ →
  map_fold (λ key v h, mapassign l key v h) h d = <[l := d]> h.
Proof.
  intros Hl.
  apply (map_fold_weak_ind (λ r (m : gmap string value), r = <[l := m]> h)).
  - by rewrite insert_id.
  - intros key v m r _ ->. unfold mapassign.
    by rewrite lookup_insert_eq, insert_insert_eq.
Qed.

Lemma RenderWithSafeURLs_unfold m name data h :
  RenderWithSafeURLs m name data h =
  safeURLs m name data (fresh (dom h)) urlFields (<[fresh (dom h) := deref h data]> h).
Proof.
  unfold RenderWithSafeURLs, make. set (l := fresh (dom h)). cbv beta iota zeta.
  subst l. rewrite deref_make, copy_loop by apply lookup_insert_eq.
  f_equal. apply insert_insert_eq.
Qed.

(** Writing [safeData] does not change what [data] reads, provided they
    are two maps. *)
Lemma deref_mapassign l key v h data :
  data ≠ Some l → deref (mapassign l key v h) data = deref h data.
Proof.
  intros Hne. unfold deref, mapassign. destruct data as [l'|]; [|done].
  rewrite lookup_insert_ne; [done|congruence].
Qed.

(** The loop of [safeURLs] only writes the map at [safeData]. *)
Lemma safeURLs_frame m name data safeData fields : ∀ h l,
  l ≠ safeData → (safeURLs m name data safeData fields h).2 !! l = h !! l.
Proof.
  induction fields as [|field rest IH]; intros h l Hne; simpl; [done|].
  destruct (deref h data !! field) as [[]|]; try by apply IH.
  case_bool_decide; [|by apply IH].
  destruct (url_Parse s); [|done].
  rewrite IH by done. unfold mapassign. by rewrite lookup_insert_ne.
Qed.

Lemma safeValue_snoc_ne done field key v :
  key ≠ field → safeValue (done ++ [field]) key v = safeValue done key v.
Proof.
  intros Hne. destruct v; try done. simpl.
  rewrite (bool_decide_ext (key ∈ done ++ [field] ∧ s ≠ "") (key ∈ done ∧ s ≠ "")); [done|].
  rewrite elem_of_app, list_elem_of_singleton. tauto.
Qed.

Lemma safeValue_snoc_skip done field v :
  (∀ rawURL, v = VString rawURL → rawURL = "") →
  safeValue (done ++ [field]) field v = safeValue done field v.
Proof.
  intros Hempty. destruct v; try done. simpl.
  rewrite !bool_decide_eq_false_2; [done| |]; intros [_ Hne]; by apply Hne, Hempty.
Qed.

Section safeURLs.

Variables (m : Manager) (name : string) (data : mapref) (safeData : loc).
Variable d : gmap string value.

Lemma loopInv_mapassign h field v key x :
  loopInv data safeData d h → d !! field = Some x → loopInv data safeData d (mapassign safeData key v h).
Proof.
  intros [Hd Hne] Hfield. split; [|done].
  rewrite deref_mapassign; [done|]. apply Hne. intros ->. by rewrite lookup_empty in Hfield.
Qed.

(** A string under one of the fields that does not parse makes the
    loop return the error with an empty body. *)
Lemma safeURLs_error fields : ∀ h,
  loopInv data safeData d h →
  (∃ field rawURL err, field ∈ fields ∧ d !! field = Some (VString rawURL)
                       ∧ rawURL ≠ "" ∧ url_Parse rawURL = Err err) →
  ∃ err, (safeURLs m name data safeData fields h).1 = ("", Some err).
Proof.
  induction fields as [|field rest IH]; intros h Hinv (bad & rawURL & err & Hin & Hbad & Hne & Herr).
  { by apply elem_of_nil in Hin. }
  simpl. destruct Hinv as [Hd Hdiff]. rewrite Hd.
  assert (Hrest : bad ≠ field →
            ∃ field rawURL err, field ∈ rest ∧ d !! field = Some (VString rawURL)
                                ∧ rawURL ≠ "" ∧ url_Parse rawURL = Err err).
  { intros Hother. exists bad, rawURL, err. apply elem_of_cons in Hin as [->|Hin]; done. }
  destruct (decide (bad = field)) as [->|Hother].
  - rewrite Hbad, bool_decide_eq_true_2, Herr by done. by eexists.
  - specialize (Hrest Hother).
    destruct (d !! field) as [v|] eqn:Hfield; [|by apply IH].
    destruct v; try by apply IH.
    case_bool_decide; [|by apply IH].
    destruct (url_Parse s); [|by eexists].
    apply IH; [|done]. by eapply loopInv_mapassign.
Qed.

(** When every string under the fields parses, the loop ends in
    [Render] on [safeData], which by then holds the safe values of the
    fields gone through. *)
Lemma safeURLs_render fields : ∀ done h sd,
  loopInv data safeData d h →
  h !! safeData = Some sd →
  (∀ key, sd !! key = safeValue done key <$> d !! key) →
  (∀ field rawURL, field ∈ fields → d !! field = Some (VString rawURL) →
                   rawURL ≠ "" → ∃ parsedURL, url_Parse rawURL = Ok parsedURL) →
  let r := safeURLs m name data safeData fields h in
  r.1 = Render m name (Some safeData) r.2
  ∧ ∀ key, deref r.2 (Some safeData) !! key = safeValue (done ++ fields) key <$> d !! key.
Proof.
  induction fields as [|field rest IH]; intros done h sd Hinv Hsd Hlook Hparse.
  { split; [done|]. intros key. simpl. by rewrite Hsd, app_nil_r. }
  simpl. pose proof Hinv as [Hd Hdiff]. rewrite Hd.
  replace (done ++ field :: rest) with ((done ++ [field]) ++ rest)
    by by rewrite <- app_assoc.
  assert (Hparse' : ∀ field rawURL, field ∈ rest → d !! field = Some (VString rawURL) →
                      rawURL ≠ "" → ∃ parsedURL, url_Parse rawURL = Ok parsedURL).
  { intros f r Hin. apply Hparse. by right. }
  (* a field that is left alone *)
  assert (Hskip : (∀ rawURL, d !! field = Some (VString rawURL) → rawURL = "") →
            let r := safeURLs m name data safeData rest h in
            r.1 = Render m name (Some safeData) r.2
            ∧ ∀ key, deref r.2 (Some safeData) !! key
                     = safeValue ((done ++ [field]) ++ rest) key <$> d !! key).
  { intros Hempty. apply (IH _ _ sd); try done.
    intros key. rewrite Hlook. destruct (d !! key) as [v|] eqn:Hkey; [|done].
    simpl. f_equal. destruct (decide (key = field)) as [->|Hother].
    - rewrite safeValue_snoc_skip; [done|]. intros rawURL ->. by apply Hempty.
    - by rewrite safeValue_snoc_ne. }
  destruct (d !! field) as [v|] eqn:Hfield; [|by apply Hskip].
  destruct v; try by apply Hskip.
  case_bool_decide as Hne; [|apply Hskip; intros ? [= <-]; by destruct (decide (s = ""))].
  destruct (Hparse field s) as [parsedURL Hok]; [by left|done|done|]. rewrite Hok.
  apply (IH _ _ (<[field := VURL (url_String parsedURL)]> sd)).
  - by eapply loopInv_mapassign.
  - unfold mapassign. by rewrite lookup_insert_eq, Hsd.
  - intros key. destruct (decide (key = field)) as [->|Hother].
    + rewrite lookup_insert_eq, Hfield. simpl.
      rewrite bool_decide_eq_true_2, Hok; [done|].
      split; [|done]. rewrite elem_of_app, list_elem_of_singleton. by right.
    + rewrite lookup_insert_ne, Hlook by done.
      destruct (d !! key) as [v|]; [|done]. simpl. f_equal.
      by rewrite safeValue_snoc_ne.
  - done.
Qed.

End safeURLs.

Lemma loopInv_start data h :
  loopInv data (fresh (dom h)) (deref h data) (<[fresh (dom h) := deref h data]> h).
Proof.
  pose proof (not_elem_of_dom_1 h _ (is_fresh (dom h))) as Hfresh.
  split.
  - destruct data as [l|]; [|done]. simpl.
    destruct (decide (fresh (dom h) = l)) as [<-|Hne].
    + by rewrite lookup_insert_eq.
    + by rewrite lookup_insert_ne.
  - intros Hd ->. apply Hd. simpl. by rewrite Hfresh.
Qed.

(** C8. [RenderWithSafeURLs] reads the caller's map as [d].  If a string
    that is not empty under one of the URL fields does not parse, the call
    returns an error and the empty body.  If all of them parse, the call
    is [Render] on a map that holds, under each key of [d], the value of
    [d] with those strings parsed and written back as [template.URL]. *)
Theorem urls_marked_safe_before_render m name data h :
  let d := deref h data in
  let r := RenderWithSafeURLs m name data h in
  ((∃ field rawURL err, field ∈ urlFields ∧ d !! field = Some (VString rawURL)
                        ∧ rawURL ≠ "" ∧ url_Parse rawURL = Err err) →
   ∃ err, r.1 = ("", Some err))
  ∧ ((∀ field rawURL, field ∈ urlFields → d !! field = Some (VString rawURL) →
                      rawURL ≠ "" → ∃ parsedURL, url_Parse rawURL = Ok parsedURL) →
     ∃ safeData, r.1 = Render m name (Some safeData) r.2
                 ∧ ∀ key, deref r.2 (Some safeData) !! key = safeValue urlFields key <$> d !! key).
Proof.
  intros d r. subst r. rewrite RenderWithSafeURLs_unfold. split.
  - intros Hbad. eapply safeURLs_error; [apply loopInv_start|done].
  - intros Hparse. exists (fresh (dom h)).
    apply (safeURLs_render m name data (fresh (dom h)) d urlFields [] _ d).
    + apply loopInv_start.
    + apply lookup_insert_eq.
    + intros key. destruct (d !! key) as [v|] eqn:Hkey; [|done]. simpl. f_equal.
      by destruct v.
    + done.
Qed.

(** C10. [RenderWithSafeURLs] leaves every map of the caller as it was:
    the map behind [data] reads the same after the call, and so does every
    other map that was live before it, whether the call returns a body or
    an error. *)
Theorem render_keeps_caller_map m name data h :
  let h' := (RenderWithSafeURLs m name data h).2 in
  deref h' data = deref h data
  ∧ ∀ l, l ∈ dom h → h' !! l = h !! l.
Proof.
  intros h'. subst h'. rewrite RenderWithSafeURLs_unfold.
  pose proof (is_fresh (dom h)) as Hfresh.
  assert (Hframe : ∀ l, l ≠ fresh (dom h) →
            (safeURLs m name data (fresh (dom h)) urlFields
               (<[fresh (dom h) := deref h data]> h)).2 !! l = h !! l).
  { intros l Hne. rewrite safeURLs_frame by done. by rewrite lookup_insert_ne. }
  split.
  - destruct data as [l|]; [|done].
    destruct (decide (l = fresh (dom h))) as [->|Hne].
    + assert (Hd : deref h (Some (fresh (dom h))) = ∅).
      { simpl. by rewrite (not_elem_of_dom_1 h _ Hfresh). }
      pose proof (loopInv_start (Some (fresh (dom h))) h) as Hinv.
      rewrite Hd in Hinv |- *.
      destruct (safeURLs_render m name (Some (fresh (dom h))) (fresh (dom h)) ∅ urlFields []
                  (<[fresh (dom h) := ∅]> h) ∅ Hinv)
        as [_ Hlook].
      * by rewrite lookup_insert_eq.
      * intros key. by rewrite !lookup_empty.
      * intros field rawURL _ Hfield. by rewrite lookup_empty in Hfield.
      * apply map_eq. intros key. by rewrite Hlook, !lookup_empty.
    + unfold deref. by rewrite Hframe.
  - intros l Hl. apply Hframe. intros ->. done.
Qed.

(** ** The wire encoding *)

Lemma coerce_valid s : ∀ skip, Utf8.valid skip s = true → Utf8.coerce skip s = s.
Proof.
  induction s as [|a s IH]; intros skip Hvalid; simpl in *; [done|].
  destruct skip as [|k].
  - destruct (Utf8.malformed _); [done|]. by rewrite IH.
  - by rewrite IH.
Qed.

Lemma ToValidUTF8_valid s : Utf8.ValidString s = true → Utf8.ToValidUTF8 s = s.
Proof. apply coerce_valid. Qed.

Lemma ParseInt_FormatInt z : isInt64 z → ParseInt (FormatInt z) = Some z.
Proof.
  unfold isInt64, ParseInt, FormatInt. intros [Hlo Hhi].
  rewrite N2Z.inj_abs_N.
  assert ((if z <? 0 then - Z.abs z else Z.abs z) = z) as ->.
  { destruct (Z.ltb_spec z 0); lia. }
  rewrite (proj2 (Z.leb_le _ _) Hlo), (proj2 (Z.leb_le _ _) Hhi). done.
Qed.

Lemma mapR_cons {A B} (f : A → result B) x l :
  mapR f (x :: l) = (y ←ᵣ f x; ys ←ᵣ mapR f l; Ok (y :: ys)).
Proof. done. Qed.

(** A scalar goes through the encoding as [reread] says. *)
Lemma value_roundtrip v :
  scalar v → ∃ j, encodeValue v = Ok j ∧ decodeValue j = Ok (reread v).
Proof.
  destruct v; simpl; try done.
  - intros _. by eexists.
  - intros [f Hf]. eexists. split; [done|]. simpl. by rewrite Hf.
  - intros [f Hf]. eexists. split; [done|]. simpl. by rewrite Hf.
  - intros (lit & Hformat & Hparse). rewrite Hformat. eexists. split; [done|].
    simpl. by rewrite Hparse.
  - intros Hvalid. rewrite ToValidUTF8_valid by done. by eexists.
Qed.

(** The members of an encoded map decode to the re-read entries, in the
    order they were written. *)
Lemma members_roundtrip (l : list (string * value)) :
  Forall (λ kv, Utf8.ValidString kv.1 = true ∧ scalar kv.2) l →
  ∃ ms, mapR member (prod_map id encodeValue <$> l) = Ok ms
        ∧ mapR (λ kv, v ←ᵣ decodeValue kv.2; Ok (kv.1, v)) ms
          = Ok (prod_map id reread <$> l).
Proof.
  induction 1 as [|[key v] l [Hkey Hv] _ (ms & Henc & Hdec)].
  { by exists []. }
  destruct (value_roundtrip v Hv) as (j & Hj & Hback). simpl in Hkey.
  exists ((key, j) :: ms). rewrite !fmap_cons, !mapR_cons.
  unfold member at 1. simpl. rewrite Hj. simpl. rewrite Henc. simpl.
  rewrite ToValidUTF8_valid by done.
  split; [done|]. rewrite Hback. simpl. by rewrite Hdec.
Qed.

(** Assigning entries with distinct keys one after the other builds the
    map of the entries. *)
Lemma assignAll_union {A} (l : list (string * A)) : ∀ m0,
  NoDup l.*1 → assignAll m0 l = list_to_map l ∪ m0.
Proof.
  unfold assignAll.
  induction l as [|[key v] l IH]; intros m0 Hnodup.
  { simpl. by rewrite (left_id_L ∅ (∪)). }
  rewrite fmap_cons in Hnodup. apply NoDup_cons in Hnodup as [Hnotin Hnodup].
  simpl. rewrite IH by done.
  rewrite <- insert_union_l. symmetry. apply insert_union_r.
  by apply not_elem_of_list_to_map_1.
Qed.

Lemma assignAll_list_to_map {A} (l : list (string * A)) :
  NoDup l.*1 → assignAll ∅ l = list_to_map l.
Proof. intros Hnodup. by rewrite assignAll_union, (right_id_L ∅ (∪)). Qed.

(** A map of scalars with valid keys is encoded as an object that decodes
    to the map of the re-read values. *)
Lemma map_roundtrip (m : gmap string value) :
  map_Forall (λ key v, Utf8.ValidString key = true ∧ scalar v) m →
  ∃ ms, encodeMap m = Ok (JObject ms)
        ∧ decodeData "data" (JObject ms) None = Ok (Some (reread <$> m)).
Proof.
  intros Hm. unfold encodeMap, sortKeys.
  assert (Hperm : merge_sort keyLe (map_to_list (encodeValue <$> m))
                  ≡ₚ prod_map id encodeValue <$> map_to_list m).
  { by rewrite merge_sort_Permutation, map_to_list_fmap. }
  apply Permutation_map_inv in Hperm as (l & -> & Hl).
  assert (Hall : Forall (λ kv, Utf8.ValidString kv.1 = true ∧ scalar kv.2) l).
  { rewrite <- Hl. apply map_Forall_to_list in Hm.
    eapply Forall_impl; [exact Hm|]. by intros [key v]. }
  destruct (members_roundtrip l Hall) as (ms & Henc & Hdec).
  exists ms. change (map ?f l) with (f <$> l). rewrite Henc. split; [done|].
  simpl. rewrite Hdec. simpl. do 2 f_equal.
  assert (Hnodup : NoDup l.*1).
  { rewrite <- Hl. apply NoDup_fst_map_to_list. }
  rewrite assignAll_list_to_map.
  - rewrite list_to_map_fmap. f_equal.
    rewrite <- (list_to_map_to_list m). symmetry.
    apply list_to_map_proper; [apply NoDup_fst_map_to_list|done].
  - rewrite <- list_fmap_compose, (list_fmap_ext _ fst l); [done|].
    by intros i [key v].
Qed.

Arguments decodeField : simpl never.
Arguments decodeData : simpl never.

Lemma decodeField_to task j :
  decodeField task ("to", j) =
  (s ←ᵣ decodeString "to" j (To task);
   Ok {| To := s; Subject := Subject task; TemplateName := TemplateName task;
         Data := Data task; Retries := Retries task |}).
Proof. done. Qed.

Lemma decodeField_subject task j :
  decodeField task ("subject", j) =
  (s ←ᵣ decodeString "subject" j (Subject task);
   Ok {| To := To task; Subject := s; TemplateName := TemplateName task;
         Data := Data task; Retries := Retries task |}).
Proof. done. Qed.

Lemma decodeField_templateName task j :
  decodeField task ("templateName", j) =
  (s ←ᵣ decodeString "templateName" j (TemplateName task);
   Ok {| To := To task; Subject := Subject task; TemplateName := s;
         Data := Data task; Retries := Retries task |}).
Proof. done. Qed.

Lemma decodeField_data task j :
  decodeField task ("data", j) =
  (d ←ᵣ decodeData "data" j (Data task);
   Ok {| To := To task; Subject := Subject task; TemplateName := TemplateName task;
         Data := d; Retries := Retries task |}).
Proof. done. Qed.

Lemma decodeField_retries task j :
  decodeField task ("retries", j) =
  (r ←ᵣ decodeInt "retries" j (Retries task); Ok (withRetries task r)).
Proof. done. Qed.

(** The encoded data of a well-formed task decodes to the re-read data. *)
Lemma data_roundtrip (data : option (gmap string value)) :
  (∀ m, data = Some m →
        map_Forall (λ key v, Utf8.ValidString key = true ∧ scalar v) m) →
  ∃ j, match data with
       | None => Ok JNull
       | Some m => encodeMap m
       end = Ok j
       ∧ decodeData "data" j None
         = Ok match data with
              | Some m => Some (reread <$> m)
              | None => None
              end.
Proof.
  intros Hdata. destruct data as [m|].
  - destruct (map_roundtrip m (Hdata m eq_refl)) as (ms & Henc & Hdec). by eexists.
  - by eexists.
Qed.

(** A well-formed task is encoded, and its encoding decodes to the task
    with its data re-read. *)
Lemma Unmarshal_Marshal task :
  wellFormed task →
  ∃ payload, Marshal task = Ok payload ∧ Unmarshal payload = Ok (rereadTask task).
Proof.
  intros (_ & (Hto & Hsubject & Hname) & Hint & Hdata).
  destruct task as [to subject name data retries]. simpl in *.
  destruct (data_roundtrip data Hdata) as (j & Henc & Hdec).
  unfold Marshal. simpl. rewrite Henc. simpl.
  rewrite !ToValidUTF8_valid by done.
  eexists. split; [done|]. unfold Unmarshal, rereadTask.
  cbn [foldl app rbind].
  rewrite decodeField_to. cbn [rbind decodeString].
  rewrite decodeField_subject. cbn [rbind decodeString].
  rewrite decodeField_templateName. cbn [rbind decodeString].
  rewrite decodeField_data. unfold zeroTask. cbn [Data]. rewrite Hdec. cbn [rbind].
  cbn [To Subject TemplateName Data Retries].
  destruct (Z.eqb_spec retries 0) as [->|Hne]; cbn [foldl rbind]; [done|].
  rewrite decodeField_retries. cbn [decodeInt].
  by rewrite ParseInt_FormatInt.
Qed.

(** Whatever the data, the attempt count written by [Marshal] is the one
    [Unmarshal] reads. *)
Lemma Marshal_retries task payload task' :
  isInt64 (Retries task) →
  Marshal task = Ok payload →
  Unmarshal payload = Ok task' →
  Retries task' = Retries task.
Proof.
  intros Hint. destruct task as [to subject name data retries]. unfold Marshal.
  cbn [To Subject TemplateName Data Retries] in *.
  destruct (match data with Some m => encodeMap m | None => Ok JNull end) as [j|err];
    cbn [rbind]; [|done].
  intros [= <-]. unfold Unmarshal. cbn [foldl app rbind].
  rewrite decodeField_to. cbn [rbind decodeString].
  rewrite decodeField_subject. cbn [rbind decodeString].
  rewrite decodeField_templateName. cbn [rbind decodeString].
  rewrite decodeField_data.
  destruct (decodeData "data" j _) as [d|err]; cbn [rbind].
  - destruct (Z.eqb_spec retries 0) as [->|Hne]; cbn [foldl rbind].
    + by intros [= <-].
    + rewrite decodeField_retries. cbn [decodeInt Retries zeroTask].
      rewrite ParseInt_FormatInt by done. cbn [rbind]. by intros [= <-].
  - by destruct (retries =? 0).
Qed.

(** C9. Whatever the attempt count a task arrives with, at or above the
    ceiling [sendEmailWithRetry] issues no RPUSH and leaves the list as it
    was; every payload it pushes is the encoding of the task with an
    attempt count one higher that is at most the ceiling, which is also
    what a worker reads from that payload; and what it appends to the list
    is a payload it pushed. *)
Theorem requeue_only_below_ceiling q e task w :
  isInt64 (Retries task) →
  let w' := (sendEmailWithRetry q e task w).2 in
  ∃ evs,
    trace w' = trace w ++ evs
    ∧ (maxRetries ≤ Retries task → pushed evs = [] ∧ queue w' = queue w)
    ∧ (∀ payload, payload ∈ pushed evs →
         Retries task < maxRetries
         ∧ Marshal (withRetries task (Retries task + 1)) = Ok payload
         ∧ ∀ task', Unmarshal payload = Ok task' →
                    Retries task' = Retries task + 1 ∧ Retries task' ≤ maxRetries)
    ∧ (queue w' = queue w
       ∨ ∃ payload, payload ∈ pushed evs ∧ queue w' = queue w ++ [payload]).
Proof.
  intros Hint w'. subst w'.
  destruct (SendEmail (sender q) (sendReply e) (To task) (Subject task)
              (TemplateName task) (Data task) w) as [[err|] w1] eqn:Hsend.
  all: destruct (SendEmail_after (sender q) (sendReply e) (To task) (Subject task)
                   (TemplateName task) (Data task) w) as (evs0 & Hw1 & Hp0).
  all: rewrite Hsend in Hw1; simpl in Hw1; subst w1.
  2: { rewrite (sent_step _ _ _ _ _ Hsend), after_after.
       eexists. split; [done|]. rewrite pushed_app, Hp0. simpl.
       split; [done|]. split; [|by left]. intros payload Hin. by apply elem_of_nil in Hin. }
  destruct (Z.lt_ge_cases (Retries task) maxRetries) as [Hlt|Hge].
  2: { rewrite (give_up_step _ _ _ _ _ _ Hge Hsend), after_after.
       eexists. split; [done|]. rewrite pushed_app, Hp0. simpl.
       split; [done|]. split; [|by left]. intros payload Hin. by apply elem_of_nil in Hin. }
  rewrite (retry_step _ _ _ _ _ _ Hint Hlt Hsend). cbv zeta.
  rewrite after_after. cbn [snd].
  set (task' := withRetries task (Retries task + 1)).
  assert (Hpushed : ∀ payload, Marshal task' = Ok payload →
            Retries task < maxRetries
            ∧ Marshal task' = Ok payload
            ∧ ∀ task'', Unmarshal payload = Ok task'' →
                        Retries task'' = Retries task + 1 ∧ Retries task'' ≤ maxRetries).
  { intros payload Hm. split; [done|]. split; [done|]. intros task'' Hdec.
    assert (Hint' : isInt64 (Retries task')).
    { unfold isInt64, MinInt64, MaxInt64, maxRetries in *. simpl. lia. }
    rewrite (Marshal_retries task' payload task'' Hint' Hm Hdec). simpl.
    unfold maxRetries in *. lia. }
  match goal with |- context [EnqueueEmail q ?r task' ?w0] =>
    destruct (EnqueueEmail_cases q r task' w0)
      as [[err' Hq]|(payload & Hm & [[err' Hq]|Hq])]; rewrite Hq
  end.
  - eexists. split; [done|]. rewrite pushed_app, Hp0. simpl.
    split; [done|]. split; [|by left]. intros payload Hin. by apply elem_of_nil in Hin.
  - rewrite after_after. eexists. split; [done|]. rewrite !pushed_app, Hp0. simpl.
    split; [intros; lia|]. split; [|by left].
    intros payload' Hin. apply list_elem_of_singleton in Hin as ->. by apply Hpushed.
  - exists (evs0 ++ [EvLog LevelWarn "Email send failed, requeueing"
                      [("to", AString (To task)); ("subject", AString (Subject task));
                       ("retries", AInt (Retries task + 1)); ("error", AError err)];
                    EvSleep retryDelay;
                    EvRPush emailQueue payload;
                    EvLog LevelInfo "Email task enqueued"
                      [("to", AString (To task')); ("subject", AString (Subject task'))]]).
    simpl. rewrite <- !app_assoc. split; [done|]. rewrite !pushed_app, Hp0. simpl.
    split; [intros; lia|]. split.
    + intros payload' Hin. apply list_elem_of_singleton in Hin as ->. by apply Hpushed.
    + right. exists payload. split; [by apply list_elem_of_singleton|done].
Qed.

Lemma reread_not_integer v : ¬ isInteger v → reread v = v.
Proof. destruct v; simpl; tauto. Qed.

(** C3, as the code has it.  The encoding of a well-formed task decodes to
    a task with the same recipient, subject, template name and attempt
    count, and with the same data up to its integers: a string, a boolean
    and a [float64] come back as they were, an integer comes back as the
    [float64] read from its digits.  A task without integers in its data
    comes back equal in every field. *)
Theorem wire_roundtrip_up_to_integers task :
  wellFormed task →
  ∃ payload,
    Marshal task = Ok payload
    ∧ Unmarshal payload = Ok (rereadTask task)
    ∧ ((∀ m, Data task = Some m → map_Forall (λ _ v, ¬ isInteger v) m) →
       Unmarshal payload = Ok task).
Proof.
  intros Hwf. destruct (Unmarshal_Marshal task Hwf) as (payload & Henc & Hdec).
  exists payload. split; [done|]. split; [done|].
  intros Hnoint. rewrite Hdec. f_equal.
  destruct task as [to subject name data retries]. unfold rereadTask. simpl in *.
  f_equal. destruct data as [m|]; [|done]. f_equal.
  apply map_eq. intros key. rewrite lookup_fmap.
  destruct (m !! key) as [v|] eqn:Hkey; [|done]. simpl. f_equal.
  apply reread_not_integer. by apply (Hnoint m eq_refl key).
Qed.

(** ** Further properties of the sender *)

Lemma mailsSent_app evs evs' : mailsSent (evs ++ evs') = (mailsSent evs + mailsSent evs')%nat.
Proof. unfold mailsSent. by rewrite omap_app, length_app. Qed.

Lemma logged_app lvl msg evs evs' :
  logged lvl msg (evs ++ evs') = (logged lvl msg evs + logged lvl msg evs')%nat.
Proof. unfold logged. by rewrite omap_app, length_app. Qed.

Lemma slept_app evs evs' : slept (evs ++ evs') = slept evs ++ slept evs'.
Proof. unfold slept. apply omap_app. Qed.

(** What [SendEmail] answers and does is the same in every world: it
    appends its events, a call of [smtp.SendMail] or nothing. *)
Lemma SendEmail_uniform s reply to subject templateName data :
  ∃ r evs,
    (∀ w, SendEmail s reply to subject templateName data w = (r, after w evs))
    ∧ pushed evs = [] ∧ slept evs = []
    ∧ (∀ lvl msg, logged lvl msg evs = 0%nat)
    ∧ ((evs = [] ∧ is_Some r) ∨ (∃ mail, evs = [mail] ∧ mailsSent [mail] = 1%nat ∧ r = reply)).
Proof.
  unfold SendEmail.
  repeat case_bool_decide;
    try by (eexists _, []; split; [intros w; by rewrite after_nil|]; eauto 10).
  destruct (validateSMTPConfig s);
    [by (eexists _, []; split; [intros w; by rewrite after_nil|]; eauto 10)|].
  destruct data as [m|].
  all: destruct (RenderWithSafeURLs _ _ _ _).1 as [body [err|]];
    [by (eexists _, []; split; [intros w; by rewrite after_nil|]; eauto 10)|].
  all: eexists _, [_]; split; [by intros w|]; eauto 10.
Qed.

(** X1. [SendEmail] returns nil only when [smtp.SendMail] was called and
    answered nil, with a recipient, a subject, a template name and a
    complete transport configuration; when the call is made its answer is
    returned as it is; and without a recipient, a subject, a template name
    or a complete configuration nothing is sent.  Whatever happens,
    [SendEmail] issues no Redis command, logs nothing and never pauses. *)
Theorem send_succeeds_only_through_smtp s reply to subject templateName data w :
  let r := SendEmail s reply to subject templateName data w in
  ∃ evs,
    r.2 = after w evs
    ∧ pushed evs = [] ∧ slept evs = [] ∧ (∀ lvl msg, logged lvl msg evs = 0%nat)
    ∧ (mailsSent evs ≤ 1)%nat
    ∧ (r.1 = None →
       reply = None ∧ mailsSent evs = 1%nat
       ∧ to ≠ "" ∧ subject ≠ "" ∧ templateName ≠ "" ∧ validateSMTPConfig s = None)
    ∧ (mailsSent evs = 1%nat → r.1 = reply)
    ∧ (to = "" ∨ subject = "" ∨ templateName = "" ∨ is_Some (validateSMTPConfig s) →
       evs = [] ∧ is_Some r.1).
Proof.
  intros r. subst r.
  destruct (SendEmail_uniform s reply to subject templateName data)
    as (r & evs & Hrun & Hpushed & Hslept & Hlogged & Hcases).
  exists evs. rewrite Hrun. simpl.
  split; [done|]. split; [done|]. split; [done|]. split; [done|].
  assert (Hguard : to = "" ∨ subject = "" ∨ templateName = "" ∨ is_Some (validateSMTPConfig s) →
                   evs = [] ∧ is_Some r).
  { intros Hbad. specialize (Hrun w). unfold SendEmail in Hrun.
    repeat case_bool_decide.
    1-3: injection Hrun as <- Hw; split; [|by eexists];
      apply (f_equal trace) in Hw; simpl in Hw;
      by apply (inj (app (trace w))); rewrite app_nil_r.
    destruct (validateSMTPConfig s) as [err|].
    - injection Hrun as <- Hw. split; [|by eexists].
      apply (f_equal trace) in Hw. simpl in Hw.
      by apply (inj (app (trace w))); rewrite app_nil_r.
    - destruct Hbad as [?|[?|[?|[? ?]]]]; done. }
  destruct Hcases as [[-> [err ->]]|(mail & -> & Hone & ->)].
  - change (mailsSent []) with 0%nat.
    split; [lia|]. split; [done|]. split; [done|]. done.
  - split; [lia|]. split; [|done].
    intros ->. split; [done|]. split; [done|].
    destruct (decide (to = "")) as [->|?];
      [destruct Hguard as [[=] _]; by left|].
    destruct (decide (subject = "")) as [->|?];
      [destruct Hguard as [[=] _]; by right; left|].
    destruct (decide (templateName = "")) as [->|?];
      [destruct Hguard as [[=] _]; by right; right; left|].
    destruct (validateSMTPConfig s) as [err|] eqn:Hcfg; [|done].
    destruct Hguard as [[=] _]. right; right; right. by eexists.
Qed.

Lemma safeURLs_missing_template m name data safeData fields : ∀ h,
  templates m !! name = None →
  is_Some (safeURLs m name data safeData fields h).1.2.
Proof.
  induction fields as [|field rest IH]; intros h Hnone; simpl.
  { unfold Render. rewrite Hnone. by eexists. }
  destruct (deref h data !! field) as [[]|]; try by apply IH.
  case_bool_decide; [|by apply IH].
  destruct (url_Parse s); [by apply IH|by eexists].
Qed.

(** X2. A template name the manager does not hold makes
    [RenderWithSafeURLs] fail, and [SendEmail] with it: no mail is sent, and
    with a recipient, a subject and a complete configuration the error is
    the rendering error. *)
Theorem unknown_template_sends_nothing s reply to subject templateName data w :
  templates (sender_templates s) !! templateName = None →
  (∀ ref h, is_Some (RenderWithSafeURLs (sender_templates s) templateName ref h).1.2)
  ∧ ∃ err, SendEmail s reply to subject templateName data w = (Some err, w)
           ∧ (to ≠ "" → subject ≠ "" → templateName ≠ "" → validateSMTPConfig s = None →
              ∃ cause, err = Errorf "failed to render email template: " cause).
Proof.
  intros Hnone.
  assert (Hrender : ∀ ref h,
            is_Some (RenderWithSafeURLs (sender_templates s) templateName ref h).1.2).
  { intros ref h. rewrite RenderWithSafeURLs_unfold. by apply safeURLs_missing_template. }
  split; [done|].
  unfold SendEmail. repeat case_bool_decide; try by eexists.
  destruct (validateSMTPConfig s); [by eexists|].
  destruct data as [m|].
  - destruct (Hrender (Some 1%positive) {[ 1%positive := m ]}) as [cause Hcause].
    destruct (RenderWithSafeURLs _ _ _ _).1 as [body r]. simpl in Hcause. subst r.
    eexists. split; [done|]. intros. by eexists.
  - destruct (Hrender None ∅) as [cause Hcause].
    destruct (RenderWithSafeURLs _ _ _ _).1 as [body r]. simpl in Hcause. subst r.
    eexists. split; [done|]. intros. by eexists.
Qed.

(** X3. [Render] reports "not found" exactly for the names
    [ListAvailabletemplates] does not list, and the error names the listed
    templates; the list has no duplicates and one entry per template. *)
Theorem render_finds_exactly_listed_templates m name data h :
  NoDup (ListAvailabletemplates m)
  ∧ List.length (ListAvailabletemplates m) = size (templates m)
  ∧ (name ∉ ListAvailabletemplates m ↔
     Render m name data h =
       ("", Some (ErrorString ("template '" +:+ name +:+ "' not found. Available templates: "
                               +:+ showNames (ListAvailabletemplates m)))))
  ∧ (name ∈ ListAvailabletemplates m ↔
     ∃ tmpl, templates m !! name = Some tmpl
             ∧ Render m name data h =
               match Execute tmpl (deref h data) with
               | Ok body => (body, None)
               | Err err =>
                 ("", Some (Errorf ("failed to render template '" +:+ name +:+ "': ") err))
               end).
Proof.
  unfold ListAvailabletemplates.
  assert (Hin : name ∈ (map_to_list (templates m)).*1 ↔ is_Some (templates m !! name)).
  { rewrite <- elem_of_dom, dom_alt. by rewrite elem_of_list_to_set. }
  split; [apply NoDup_fst_map_to_list|].
  split; [by rewrite length_fmap, length_map_to_list|].
  split.
  - rewrite Hin. unfold Render. destruct (templates m !! name) as [tmpl|] eqn:Hname.
    + split; [intros Hno; destruct Hno; by eexists|].
      by destruct (Execute tmpl (deref h data)).
    + split; [done|]. intros _ [? ?]. done.
  - rewrite Hin. unfold Render. destruct (templates m !! name) as [tmpl|] eqn:Hname.
    + split; [|by eexists]. intros _. exists tmpl. split; [done|].
      by destruct (Execute tmpl (deref h data)).
    + split; [by intros [? ?]|]. by intros (tmpl & ? & _).
Qed.

(** ** Further properties of the enqueue operation *)

(** X4. [EnqueueEmail] returns nil exactly when the task has a recipient,
    a subject and a template name, its encoding succeeds and RPUSH answers
    nil; then the encoded task is at the tail of the list and one record is
    logged.  An error wraps its cause; a task that is refused or cannot be
    encoded leaves the world as it was, without any RPUSH. *)
Theorem enqueue_succeeds_exactly_when q reply task w :
  let r := EnqueueEmail q reply task w in
  (r.1 = None ↔ validateEmailTask task = None ∧ (∃ payload, Marshal task = Ok payload)
                ∧ reply = None)
  ∧ (r.1 = None →
     ∃ payload, Marshal task = Ok payload
                ∧ r.2 = {| queue := queue w ++ [payload];
                           trace := trace w ++
                             [EvRPush emailQueue payload;
                              EvLog LevelInfo "Email task enqueued"
                                [("to", AString (To task));
                                 ("subject", AString (Subject task))]] |})
  ∧ (∀ err, r.1 = Some err →
       ∃ cause, Unwrap err = Some cause
                ∧ (validateEmailTask task = Some cause
                   ∨ Marshal task = Err cause
                   ∨ reply = Some cause))
  ∧ (is_Some (validateEmailTask task) ∨ (∃ err, Marshal task = Err err) → r.2 = w).
Proof.
  intros r. subst r. unfold EnqueueEmail.
  destruct (validateEmailTask task) as [verr|] eqn:Hval.
  { simpl. split; [split; [done|by intros [? _]]|]. split; [done|].
    split; [intros err [= <-]; eauto|done]. }
  destruct (Marshal task) as [payload|merr] eqn:Hm.
  2: { simpl. split; [split; [done|by intros (_ & [? ?] & _)]|]. split; [done|].
       split; [intros err [= <-]; eauto|done]. }
  destruct reply as [rerr|]; unfold bind, RPush, emit, ret; simpl.
  - split; [split; [done|by intros (_ & _ & ?)]|]. split; [done|].
    split; [intros err [= <-]; eauto|].
    intros [[? ?]|[? ?]]; done.
  - split; [split; [by eauto|done]|].
    split; [intros _; exists payload; by rewrite <- app_assoc|].
    split; [done|]. intros [[? ?]|[? ?]]; done.
Qed.

(** ** Further properties of the worker *)

(** An iteration that pops a payload which decodes is
    [sendEmailWithRetry] on the decoded task, followed by the report and the
    pause of the loop if it returns an error. *)
Lemma iteration_pop q e w payload rest task :
  ctxDone e = false →
  popReply e = None →
  queue w = payload :: rest →
  Unmarshal payload = Ok task →
  iteration q e w =
    let r := sendEmailWithRetry q e task
               {| queue := rest; trace := trace w ++ [EvBLPop emailQueue] |} in
    match r.1 with
    | None => Looping r.2
    | Some err =>
      Looping (after r.2 [EvLog LevelError "Task processing error" [("error", AError err)];
                          EvSleep queueCheckInterval])
    end.
Proof.
  intros Hctx Hpop Hqueue Hdec.
  unfold iteration, processNextTask, BLPop, bind at 1.
  rewrite Hctx, Hpop, Hqueue. unfold processReply. rewrite Hdec.
  unfold bind, ret. cbv zeta.
  destruct (sendEmailWithRetry q e task _) as [[err|] w']; [|done].
  unfold emit, Sleep, emit, after. simpl. by rewrite <- app_assoc.
Qed.

(** The attempt count [Unmarshal] reads fits a Go [int]. *)
Lemma decodeField_int64 task kv task' :
  isInt64 (Retries task) → decodeField task kv = Ok task' → isInt64 (Retries task').
Proof.
  intros Hint. destruct kv as [key j]. unfold decodeField.
  repeat (destruct (isField key _));
    try (destruct (decodeString _ _ _); simpl; by intros [= <-]);
    try (destruct (decodeData _ _ _); simpl; by intros [= <-]);
    [|by intros [= <-]].
  unfold decodeInt. destruct j; simpl; try done; try by intros [= <-].
  destruct (ParseInt n) as [z|] eqn:Hparse; simpl; [|done].
  intros [= <-]. simpl. unfold ParseInt in Hparse. destruct n as [neg digits|]; [|done].
  destruct (_ && _) eqn:Hrange; [|done]. injection Hparse as <-.
  apply andb_true_iff in Hrange as [Hlo Hhi]. split; lia.
Qed.

Lemma foldl_decodeField_int64 members : ∀ acc task',
  (∀ task, acc = Ok task → isInt64 (Retries task)) →
  foldl (λ acc kv, task ←ᵣ acc; decodeField task kv) acc members = Ok task' →
  isInt64 (Retries task').
Proof.
  induction members as [|kv members IH]; intros acc task' Hacc; simpl.
  { intros ->. by apply Hacc. }
  apply IH. intros task Hstep. destruct acc as [task0|err]; [|done].
  simpl in Hstep. eapply decodeField_int64; [by apply Hacc|done].
Qed.

Lemma Unmarshal_int64 payload task : Unmarshal payload = Ok task → isInt64 (Retries task).
Proof.
  assert (Hzero : isInt64 0) by (unfold isInt64, MinInt64, MaxInt64; lia).
  unfold Unmarshal. destruct payload as [bytes|[| | | | |members]]; try done.
  - by intros [= <-].
  - apply foldl_decodeField_int64. by intros task0 [= <-].
Qed.

(** What [sendEmailWithRetry] does to the world: it appends events, among
    them at most one mail and at most one RPUSH, and puts at most one
    payload at the tail of the list, a payload it pushed. *)
Lemma sendEmailWithRetry_world q e task w :
  ∃ evs tail,
    (sendEmailWithRetry q e task w).2 = {| queue := queue w ++ tail; trace := trace w ++ evs |}
    ∧ (mailsSent evs ≤ 1)%nat
    ∧ (tail = [] ∨ pushed evs = tail ∧ List.length tail = 1%nat)
    ∧ (List.length (pushed evs) ≤ 1)%nat.
Proof.
  destruct (SendEmail_uniform (sender q) (sendReply e) (To task) (Subject task)
              (TemplateName task) (Data task))
    as (r & evs0 & Hrun & Hp0 & _ & _ & Hcases).
  assert (Hmail : (mailsSent evs0 ≤ 1)%nat).
  { destruct Hcases as [[-> _]|(mail & -> & -> & _)]; [|done].
    change (mailsSent []) with 0%nat. lia. }
  unfold sendEmailWithRetry, bind at 1. rewrite Hrun.
  destruct r as [err|].
  2: { unfold bind, emit, ret, after. simpl. rewrite <- app_assoc.
       eexists _, []. rewrite app_nil_r. split; [done|].
       rewrite mailsSent_app, pushed_app, Hp0. change (mailsSent [_]) with 0%nat.
       split; [lia|]. split; [by left|]. simpl. lia. }
  destruct (Retries task <? maxRetries).
  2: { unfold bind, emit, ret, after. simpl. rewrite <- app_assoc.
       eexists _, []. rewrite app_nil_r. split; [done|].
       rewrite mailsSent_app, pushed_app, Hp0. change (mailsSent [_]) with 0%nat.
       split; [lia|]. split; [by left|]. simpl. lia. }
  unfold bind, Sleep, emit, ret, after. simpl. rewrite <- !app_assoc. simpl.
  match goal with |- context [EnqueueEmail q ?r ?t ?w0] =>
    destruct (EnqueueEmail_cases q r t w0)
      as [[err' Hq]|(payload & Hm & [[err' Hq]|Hq])]; rewrite Hq
  end; unfold after; simpl; rewrite <- ?app_assoc; simpl.
  - eexists _, []. rewrite app_nil_r. split; [done|].
    rewrite mailsSent_app, pushed_app, Hp0. change (mailsSent [_; _]) with 0%nat.
    split; [lia|]. split; [by left|]. simpl. lia.
  - eexists _, []. rewrite app_nil_r. split; [done|].
    rewrite mailsSent_app, pushed_app, Hp0. change (mailsSent [_; _; _]) with 0%nat.
    split; [lia|]. split; [by left|]. simpl. lia.
  - eexists _, [payload]. split; [done|].
    rewrite mailsSent_app, pushed_app, Hp0. change (mailsSent [_; _; _; _]) with 0%nat.
    split; [lia|]. split; [by right|]. simpl. lia.
Qed.

Lemma SendEmail_guard s reply to subject templateName data :
  to = "" ∨ subject = "" ∨ templateName = "" ∨ is_Some (validateSMTPConfig s) →
  ∃ err, ∀ w, SendEmail s reply to subject templateName data w = (Some err, w).
Proof.
  intros Hbad. unfold SendEmail. repeat case_bool_decide; try by eexists.
  destruct (validateSMTPConfig s) as [err|]; [by eexists|].
  destruct Hbad as [?|[?|[?|[? ?]]]]; done.
Qed.

Lemma validateEmailTask_withRetries task r :
  validateEmailTask (withRetries task r) = validateEmailTask task.
Proof. done. Qed.

(** One pass through the loop appends events, among them at most one mail
    and at most one RPUSH, and does not make the list longer. *)
Lemma iteration_world q e w :
  ∃ evs,
    trace (worldOf (iteration q e w)) = trace w ++ evs
    ∧ (List.length (queue (worldOf (iteration q e w))) ≤ List.length (queue w))%nat
    ∧ (mailsSent evs ≤ 1)%nat
    ∧ (List.length (pushed evs) ≤ 1)%nat.
Proof.
  remember (iteration q e w) as o eqn:Ho.
  destruct (ctxDone e) eqn:Hctx.
  { unfold iteration in Ho. rewrite Hctx in Ho. subst o. simpl.
    eexists. split; [done|]. split; [done|]. split; [|simpl; lia].
    change (mailsSent [_]) with 0%nat. lia. }
  destruct (popReply e) as [popErr|] eqn:Hpop.
  { unfold iteration, processNextTask, BLPop, bind, ret in Ho. rewrite Hctx, Hpop in Ho.
    destruct popErr; simpl in Ho; subst o; simpl; rewrite <- ?app_assoc;
      eexists; (split; [done|]); (split; [done|]); (split; [|simpl; lia]).
    all: unfold mailsSent; simpl; lia. }
  destruct (queue w) as [|payload rest] eqn:Hqueue.
  { unfold iteration, processNextTask, BLPop, bind, ret in Ho.
    rewrite Hctx, Hpop, Hqueue in Ho. subst o. simpl.
    eexists. split; [done|]. split; [done|]. split; [|simpl; lia].
    change (mailsSent [_]) with 0%nat. lia. }
  destruct (Unmarshal payload) as [task|jsonErr] eqn:Hdec.
  2: { unfold iteration, processNextTask, BLPop, bind at 1 in Ho.
       rewrite Hctx, Hpop, Hqueue in Ho. unfold processReply in Ho. rewrite Hdec in Ho.
       unfold bind, ret, emit, Sleep, emit in Ho. simpl in Ho. subst o. simpl.
       rewrite <- !app_assoc.
       eexists. split; [done|]. split; [simpl; lia|]. split; [|simpl; lia].
       unfold mailsSent; simpl; lia. }
  rewrite (iteration_pop q e w payload rest task Hctx Hpop Hqueue Hdec) in Ho.
  cbv zeta in Ho.
  destruct (sendEmailWithRetry_world q e task
              {| queue := rest; trace := trace w ++ [EvBLPop emailQueue] |})
    as (evs & tail & Hw & Hmail & Htail & Hpush).
  assert (Hlen : (List.length (rest ++ tail) ≤ S (List.length rest))%nat).
  { rewrite length_app. destruct Htail as [->|[_ ->]]; simpl; lia. }
  destruct (sendEmailWithRetry q e task _) as [[err|] w']; simpl in Hw, Ho; subst w' o; simpl.
  - rewrite <- !app_assoc. eexists. split; [done|]. split; [done|].
    rewrite mailsSent_app, !pushed_app, mailsSent_app, length_app, length_app.
    change (mailsSent [EvBLPop emailQueue]) with 0%nat.
    change (mailsSent [_; _]) with 0%nat. simpl. lia.
  - rewrite <- !app_assoc. eexists. split; [done|]. split; [done|].
    rewrite mailsSent_app, !pushed_app, length_app.
    change (mailsSent [EvBLPop emailQueue]) with 0%nat. simpl. lia.
Qed.

(** X5. Whatever the wire holds, the attempt count of a decoded task fits
    a Go [int], so the increment before a requeue is exact: it never wraps
    around. *)
Theorem decoded_retries_never_wrap payload task :
  Unmarshal payload = Ok task →
  isInt64 (Retries task)
  ∧ (Retries task < maxRetries → wrapInt64 (Retries task + 1) = Retries task + 1).
Proof.
  intros Hdec. pose proof (Unmarshal_int64 payload task Hdec) as Hint.
  split; [done|]. intros Hlt. by apply wrapInt64_succ.
Qed.

(** X6. However long the worker runs and whatever Redis and the SMTP
    server answer, the worker never makes the list longer; it only appends
    to the trace; and it sends at most one mail and issues at most one RPUSH
    per iteration. *)
Theorem worker_never_grows_the_list q es : ∀ w,
  ∃ evs,
    trace (worldOf (workerLoop q es w)) = trace w ++ evs
    ∧ (List.length (queue (worldOf (workerLoop q es w))) ≤ List.length (queue w))%nat
    ∧ (mailsSent evs ≤ List.length es)%nat
    ∧ (List.length (pushed evs) ≤ List.length es)%nat.
Proof.
  induction es as [|e es IH]; intros w; simpl.
  { exists []. rewrite app_nil_r. split; [done|]. split; [done|].
    change (mailsSent []) with 0%nat. simpl. lia. }
  destruct (iteration_world q e w) as (evs1 & Htrace & Hlen & Hmail & Hpush).
  destruct (iteration q e w) as [w1|w1|w1]; simpl in *.
  2: { destruct (IH w1) as (evs2 & Htrace2 & Hlen2 & Hmail2 & Hpush2).
       exists (evs1 ++ evs2). rewrite Htrace2, Htrace, <- app_assoc.
       rewrite mailsSent_app, pushed_app, length_app. split; [done|]. lia. }
  all: exists evs1; split; [done|]; lia.
Qed.

(** X7. When BLPOP fails the list is left as it was and nothing is sent.
    For [redis.Nil] and [context.Canceled] the iteration ends at once,
    without a record and without a pause; for any other error it logs one
    record and pauses [queueCheckInterval]. *)
Theorem pop_error_keeps_the_list q e w err :
  ctxDone e = false →
  popReply e = Some err →
  ∃ evs,
    iteration q e w = Looping (after w (EvBLPop emailQueue :: evs))
    ∧ mailsSent evs = 0%nat ∧ pushed evs = []
    ∧ (err = RedisNil ∨ err = ContextCanceled → evs = [])
    ∧ (err ≠ RedisNil → err ≠ ContextCanceled →
       evs = [EvLog LevelError "Task processing error"
                [("error", AError (Errorf "queue retrieval error: " err))];
              EvSleep queueCheckInterval]).
Proof.
  intros Hctx Hpop. unfold iteration, processNextTask, BLPop, bind, ret.
  rewrite Hctx, Hpop.
  destruct err; simpl; unfold after; simpl; rewrite <- ?app_assoc; simpl.
  1-2: exists []; split; [done|]; split; [done|]; split; [done|]; split; [done|];
    by intros.
  all: eexists; split; [done|]; split; [done|]; split; [done|];
    split; [by intros [|]|done].
Qed.

(** X8. A popped task whose delivery succeeds is gone from the list: one
    mail is sent, one success record is logged, nothing is pushed, and the
    iteration ends at the head of the loop without a pause. *)
Theorem delivered_task_leaves_the_list q e w payload rest task :
  ctxDone e = false →
  popReply e = None →
  queue w = payload :: rest →
  Unmarshal payload = Ok task →
  (SendEmail (sender q) (sendReply e)
     (To task) (Subject task) (TemplateName task) (Data task) w).1 = None →
  ∃ mail,
    iteration q e w =
      Looping {| queue := rest;
                 trace := trace w ++
                   [EvBLPop emailQueue; mail;
                    EvLog LevelInfo "Email sent successfully"
                      [("to", AString (To task)); ("subject", AString (Subject task))]] |}
    ∧ mailsSent [mail] = 1%nat.
Proof.
  intros Hctx Hpop Hqueue Hdec Hsend.
  rewrite (iteration_pop q e w payload rest task Hctx Hpop Hqueue Hdec). cbv zeta.
  destruct (SendEmail_uniform (sender q) (sendReply e) (To task) (Subject task)
              (TemplateName task) (Data task))
    as (r & evs & Hrun & _ & _ & _ & Hcases).
  rewrite Hrun in Hsend. simpl in Hsend. subst r.
  destruct Hcases as [[_ [? ?]]|(mail & -> & Hone & _)]; [done|].
  rewrite (sent_step q e task _ _ (Hrun _)). simpl.
  exists mail. split; [|done]. unfold after. simpl. by rewrite <- !app_assoc.
Qed.

(** X9. A popped task whose delivery fails below the ceiling, and whose
    requeue goes through, is put behind the tasks that were waiting: the
    worker pauses [retryDelay] once and sees no error. *)
Theorem retried_task_goes_to_the_tail q e w payload rest task err payload' :
  redisServes e →
  queue w = payload :: rest →
  Unmarshal payload = Ok task →
  Retries task < maxRetries →
  (SendEmail (sender q) (sendReply e)
     (To task) (Subject task) (TemplateName task) (Data task) w).1 = Some err →
  validateEmailTask task = None →
  Marshal (withRetries task (Retries task + 1)) = Ok payload' →
  ∃ evs,
    iteration q e w = Looping {| queue := rest ++ [payload']; trace := trace w ++ evs |}
    ∧ pushed evs = [payload']
    ∧ slept evs = [retryDelay]
    ∧ logged LevelError "Task processing error" evs = 0%nat.
Proof.
  intros (Hctx & Hpop & Hpush) Hqueue Hdec Hlt Hsend Hval Hm.
  pose proof (Unmarshal_int64 payload task Hdec) as Hint.
  rewrite (iteration_pop q e w payload rest task Hctx Hpop Hqueue Hdec). cbv zeta.
  destruct (SendEmail_uniform (sender q) (sendReply e) (To task) (Subject task)
              (TemplateName task) (Data task))
    as (r & evs0 & Hrun & Hp0 & Hs0 & Hl0 & _).
  rewrite Hrun in Hsend. simpl in Hsend. subst r.
  rewrite (retry_step q e task _ err _ Hint Hlt (Hrun _)). cbv zeta.
  unfold EnqueueEmail. rewrite validateEmailTask_withRetries, Hval, Hm, Hpush.
  unfold bind, RPush, emit, ret, after. simpl. rewrite <- !app_assoc. simpl.
  eexists. split; [done|].
  change (?x :: evs0 ++ ?l) with ([x] ++ evs0 ++ l).
  rewrite !pushed_app, !slept_app, !logged_app, Hp0, Hs0, Hl0. done.
Qed.

(** X10. A task without a recipient, a subject or a template name is
    never delivered and never requeued, whatever its attempt count:
    [SendEmail] and [EnqueueEmail] both refuse it.  Below the ceiling the
    worker still pauses [retryDelay] before the requeue is refused, and the
    error it gets wraps the validation error. *)
Theorem task_without_required_field_is_lost q e task w :
  To task = "" ∨ Subject task = "" ∨ TemplateName task = "" →
  isInt64 (Retries task) →
  ∃ err evs,
    sendEmailWithRetry q e task w = (Some err, after w evs)
    ∧ mailsSent evs = 0%nat
    ∧ pushed evs = []
    ∧ (Retries task < maxRetries →
       slept evs = [retryDelay]
       ∧ ∃ cause, validateEmailTask task = Some cause
                  ∧ Unwrap err = Some (Errorf "invalid email task: " cause))
    ∧ (maxRetries ≤ Retries task → slept evs = []).
Proof.
  intros Hempty Hint.
  destruct (SendEmail_guard (sender q) (sendReply e) (To task) (Subject task)
              (TemplateName task) (Data task)) as [err Hsend].
  { destruct Hempty as [?|[?|?]]; auto. }
  destruct (Z.lt_ge_cases (Retries task) maxRetries) as [Hlt|Hge].
  - rewrite (retry_step q e task w err w Hint Hlt (Hsend w)). cbv zeta.
    assert (Hval : is_Some (validateEmailTask task)).
    { unfold validateEmailTask. repeat case_bool_decide; try by eexists.
      destruct Hempty as [?|[?|?]]; done. }
    destruct Hval as [cause Hval].
    unfold EnqueueEmail. rewrite validateEmailTask_withRetries, Hval. simpl.
    eexists _, _. split; [done|]. split; [done|]. split; [done|].
    split; [|intros; lia]. intros _. split; [done|]. by exists cause.
  - rewrite (give_up_step q e task w err w Hge (Hsend w)).
    eexists _, _. split; [done|]. split; [done|]. split; [done|].
    split; [intros; lia|done].
Qed.

(** ** The life of a task *)

Lemma rereadTask_stable task :
  (∀ m, Data task = Some m → map_Forall (λ _ v, ¬ isInteger v) m) →
  rereadTask task = task.
Proof.
  intros Hnoint. destruct task as [to subject name data retries].
  unfold rereadTask. simpl in *. f_equal. destruct data as [m|]; [|done]. f_equal.
  apply map_eq. intros key. rewrite lookup_fmap.
  destruct (m !! key) as [v|] eqn:Hkey; [|done]. simpl. f_equal.
  apply reread_not_integer. by apply (Hnoint m eq_refl key).
Qed.

Lemma wireStable_roundtrip task :
  wireStable task → ∃ payload, Marshal task = Ok payload ∧ Unmarshal payload = Ok task.
Proof.
  intros [Hwf Hnoint]. destruct (Unmarshal_Marshal task Hwf) as (payload & Henc & Hdec).
  exists payload. split; [done|]. by rewrite Hdec, rereadTask_stable.
Qed.

Lemma wireStable_withRetries task r :
  wireStable task → isInt64 r → wireStable (withRetries task r).
Proof.
  intros [(Hne & Hutf & _ & Hdata) Hnoint] Hint.
  split; [|exact Hnoint]. split; [exact Hne|]. split; [exact Hutf|].
  split; [exact Hint|exact Hdata].
Qed.

Lemma wireStable_validate task : wireStable task → validateEmailTask task = None.
Proof.
  intros [((? & ? & ?) & _) _]. unfold validateEmailTask.
  by rewrite !bool_decide_eq_false_2.
Qed.

(** One failed attempt of a task that is alone on the list, below the
    ceiling: the list holds the task with an attempt count one higher. *)
Lemma retry_cycle q e task payload rest w err :
  redisServes e →
  wireStable task →
  Retries task < maxRetries →
  queue w = payload :: rest →
  Unmarshal payload = Ok task →
  (SendEmail (sender q) (sendReply e)
     (To task) (Subject task) (TemplateName task) (Data task) w).1 = Some err →
  ∃ payload' evs,
    Marshal (withRetries task (Retries task + 1)) = Ok payload'
    ∧ Unmarshal payload' = Ok (withRetries task (Retries task + 1))
    ∧ iteration q e w = Looping {| queue := rest ++ [payload']; trace := trace w ++ evs |}
    ∧ pushed evs = [payload']
    ∧ slept evs = [retryDelay]
    ∧ (mailsSent evs ≤ 1)%nat
    ∧ logged LevelWarn "Email send failed, requeueing" evs = 1%nat
    ∧ logged LevelError "Email send failed after max retries" evs = 0%nat
    ∧ logged LevelError "Task processing error" evs = 0%nat
    ∧ logged LevelInfo "Email sent successfully" evs = 0%nat.
Proof.
  intros (Hctx & Hpop & Hpush) Hstable Hlt Hqueue Hdec Hsend.
  pose proof (Unmarshal_int64 payload task Hdec) as Hint.
  assert (Hint' : isInt64 (Retries task + 1)).
  { unfold isInt64, MinInt64, MaxInt64, maxRetries in *. lia. }
  destruct (wireStable_roundtrip (withRetries task (Retries task + 1)))
    as (payload' & Hm & Hback); [by apply wireStable_withRetries|].
  exists payload'.
  rewrite (iteration_pop q e w payload rest task Hctx Hpop Hqueue Hdec). cbv zeta.
  destruct (SendEmail_uniform (sender q) (sendReply e) (To task) (Subject task)
              (TemplateName task) (Data task))
    as (r & evs0 & Hrun & Hp0 & Hs0 & Hl0 & Hcases).
  rewrite Hrun in Hsend. simpl in Hsend. subst r.
  assert (Hmail : (mailsSent evs0 ≤ 1)%nat).
  { destruct Hcases as [[-> _]|(mail & -> & -> & _)]; [|done].
    change (mailsSent []) with 0%nat. lia. }
  rewrite (retry_step q e task _ err _ Hint Hlt (Hrun _)). cbv zeta.
  unfold EnqueueEmail.
  rewrite validateEmailTask_withRetries, (wireStable_validate task Hstable), Hm, Hpush.
  unfold bind, RPush, emit, ret, after. simpl. rewrite <- !app_assoc. simpl.
  eexists. split; [done|]. split; [done|]. split; [done|].
  change (?x :: evs0 ++ ?l) with ([x] ++ evs0 ++ l).
  rewrite !pushed_app, !slept_app, !logged_app, !mailsSent_app, Hp0, Hs0, !Hl0.
  split; [done|]. split; [done|].
  split; [unfold mailsSent at 1 3; simpl; lia|]. done.
Qed.

(** The attempts of a task whose delivery always fails, by the number [n]
    of retries it has left. *)
Lemma failing_task_cycles q e err : ∀ n task payload w,
  redisServes e →
  wireStable task →
  Retries task = maxRetries - Z.of_nat n →
  Marshal task = Ok payload →
  Unmarshal payload = Ok task →
  queue w = [payload] →
  (SendEmail (sender q) (sendReply e)
     (To task) (Subject task) (TemplateName task) (Data task) w).1 = Some err →
  ∃ evs,
    workerLoop q (replicate (S n) e) w = Looping {| queue := []; trace := trace w ++ evs |}
    ∧ List.length (pushed evs) = n
    ∧ slept evs = replicate n retryDelay ++ [queueCheckInterval]
    ∧ (mailsSent evs ≤ S n)%nat
    ∧ logged LevelWarn "Email send failed, requeueing" evs = n
    ∧ logged LevelError "Email send failed after max retries" evs = 1%nat
    ∧ logged LevelInfo "Email sent successfully" evs = 0%nat.
Proof.
  induction n as [|n IH]; intros task payload w Hserves Hstable Hretries Hm Hdec Hqueue Hsend.
  - destruct Hserves as (Hctx & Hpop & Hpush). simpl.
    rewrite (iteration_pop q e w payload [] task Hctx Hpop Hqueue Hdec). cbv zeta.
    destruct (SendEmail_uniform (sender q) (sendReply e) (To task) (Subject task)
                (TemplateName task) (Data task))
      as (r & evs0 & Hrun & Hp0 & Hs0 & Hl0 & Hcases).
    rewrite Hrun in Hsend. simpl in Hsend. subst r.
    assert (Hmail : (mailsSent evs0 ≤ 1)%nat).
    { destruct Hcases as [[-> _]|(mail & -> & -> & _)]; [|done].
      change (mailsSent []) with 0%nat. lia. }
    rewrite (give_up_step q e task _ err _ ltac:(simpl in Hretries; lia) (Hrun _)).
    unfold after. simpl. rewrite <- !app_assoc. simpl.
    eexists. split; [done|].
    change (?x :: evs0 ++ ?l) with ([x] ++ evs0 ++ l).
    rewrite !pushed_app, !slept_app, !logged_app, !mailsSent_app, Hp0, Hs0, !Hl0.
    split; [done|]. split; [done|].
    split; [unfold mailsSent at 1 3; simpl; lia|]. done.
  - assert (Hlt : Retries task < maxRetries) by lia.
    destruct (retry_cycle q e task payload [] w err Hserves Hstable Hlt Hqueue Hdec Hsend)
      as (payload' & evs1 & Hm' & Hdec' & Hit & Hp1 & Hs1 & Hmail1 & Hw1 & Ht1 & _ & Hi1).
    change (replicate (S (S n)) e) with (e :: replicate (S n) e).
    cbn [workerLoop]. rewrite Hit.
    pose proof (Unmarshal_int64 payload task Hdec) as Hint.
    destruct (IH (withRetries task (Retries task + 1)) payload'
                {| queue := [] ++ [payload']; trace := trace w ++ evs1 |})
      as (evs2 & Hrun & Hp2 & Hs2 & Hmail2 & Hw2 & Ht2 & Hi2); try done.
    + apply wireStable_withRetries; [done|].
      unfold isInt64, MinInt64, MaxInt64, maxRetries in *. lia.
    + simpl. lia.
    + destruct (SendEmail_uniform (sender q) (sendReply e) (To task) (Subject task)
                  (TemplateName task) (Data task)) as (r & evs0 & Huni & _).
      simpl. rewrite Huni in Hsend |- *. done.
    + exists (evs1 ++ evs2). rewrite Hrun. simpl. rewrite <- app_assoc.
      rewrite !pushed_app, !slept_app, !logged_app, !mailsSent_app, length_app.
      rewrite Hp1, Hs1, Hs2, Hp2, Hw1, Hw2, Ht1, Ht2, Hi1, Hi2. simpl.
      split; [done|]. split; [done|]. split; [done|]. split; [lia|]. done.
Qed.

(** X11. A task whose delivery always fails is tried once per attempt
    count up to the ceiling and then dropped.  Alone on the list with an
    attempt count [r] between 0 and 3, it takes [4 - r] iterations: the
    first [3 - r] requeue it with a warning and a pause of [retryDelay], the
    last one reports the terminal failure once and pauses
    [queueCheckInterval], and the list is empty. *)
Theorem failing_task_is_dropped_after_ceiling q e err task payload w :
  redisServes e →
  wireStable task →
  0 ≤ Retries task ≤ maxRetries →
  Marshal task = Ok payload →
  queue w = [payload] →
  (SendEmail (sender q) (sendReply e)
     (To task) (Subject task) (TemplateName task) (Data task) w).1 = Some err →
  let n := Z.to_nat (maxRetries - Retries task) in
  ∃ evs,
    workerLoop q (replicate (S n) e) w = Looping {| queue := []; trace := trace w ++ evs |}
    ∧ List.length (pushed evs) = n
    ∧ slept evs = replicate n retryDelay ++ [queueCheckInterval]
    ∧ (mailsSent evs ≤ S n)%nat
    ∧ logged LevelWarn "Email send failed, requeueing" evs = n
    ∧ logged LevelError "Email send failed after max retries" evs = 1%nat
    ∧ logged LevelInfo "Email sent successfully" evs = 0%nat.
Proof.
  intros Hserves Hstable Hrange Hm Hqueue Hsend n.
  destruct (wireStable_roundtrip task Hstable) as (payload0 & Hm0 & Hdec).
  rewrite Hm in Hm0. injection Hm0 as <-.
  apply (failing_task_cycles q e err n task payload w); try done.
  subst n. lia.
Qed.

(** The attempts of a task whose delivery fails [k] times and then
    succeeds. *)
Lemma recovering_task_cycles q eFail eOk err : ∀ k task payload w,
  redisServes eFail →
  redisServes eOk →
  wireStable task →
  Retries task + Z.of_nat k ≤ maxRetries →
  Unmarshal payload = Ok task →
  queue w = [payload] →
  (SendEmail (sender q) (sendReply eFail)
     (To task) (Subject task) (TemplateName task) (Data task) w).1 = Some err →
  (SendEmail (sender q) (sendReply eOk)
     (To task) (Subject task) (TemplateName task) (Data task) w).1 = None →
  ∃ evs,
    workerLoop q (replicate k eFail ++ [eOk]) w
      = Looping {| queue := []; trace := trace w ++ evs |}
    ∧ List.length (pushed evs) = k
    ∧ slept evs = replicate k retryDelay
    ∧ logged LevelWarn "Email send failed, requeueing" evs = k
    ∧ logged LevelInfo "Email sent successfully" evs = 1%nat
    ∧ logged LevelError "Email send failed after max retries" evs = 0%nat
    ∧ logged LevelError "Task processing error" evs = 0%nat.
Proof.
  induction k as [|k IH];
    intros task payload w HsFail HsOk Hstable Hbound Hdec Hqueue Hfail Hok.
  - destruct HsOk as (Hctx & Hpop & Hpush). simpl.
    rewrite (iteration_pop q eOk w payload [] task Hctx Hpop Hqueue Hdec). cbv zeta.
    destruct (SendEmail_uniform (sender q) (sendReply eOk) (To task) (Subject task)
                (TemplateName task) (Data task))
      as (r & evs0 & Hrun & Hp0 & Hs0 & Hl0 & _).
    rewrite Hrun in Hok. simpl in Hok. subst r.
    rewrite (sent_step q eOk task _ _ (Hrun _)). unfold after. simpl.
    rewrite <- !app_assoc. simpl. eexists. split; [done|].
    change (?x :: evs0 ++ ?l) with ([x] ++ evs0 ++ l).
    rewrite !pushed_app, !slept_app, !logged_app, Hp0, Hs0, !Hl0. done.
  - assert (Hlt : Retries task < maxRetries) by lia.
    destruct (retry_cycle q eFail task payload [] w err HsFail Hstable Hlt Hqueue Hdec Hfail)
      as (payload' & evs1 & Hm' & Hdec' & Hit & Hp1 & Hs1 & _ & Hw1 & Ht1 & He1 & Hi1).
    change (replicate (S k) eFail ++ [eOk]) with (eFail :: replicate k eFail ++ [eOk]).
    cbn [workerLoop]. rewrite Hit.
    pose proof (Unmarshal_int64 payload task Hdec) as Hint.
    destruct (IH (withRetries task (Retries task + 1)) payload'
                {| queue := [] ++ [payload']; trace := trace w ++ evs1 |})
      as (evs2 & Hrun & Hp2 & Hs2 & Hw2 & Hi2 & Ht2 & He2); try done.
    + apply wireStable_withRetries; [done|].
      unfold isInt64, MinInt64, MaxInt64, maxRetries in *. lia.
    + simpl. lia.
    + destruct (SendEmail_uniform (sender q) (sendReply eFail) (To task) (Subject task)
                  (TemplateName task) (Data task)) as (r & evs0 & Huni & _).
      simpl. rewrite Huni in Hfail |- *. done.
    + destruct (SendEmail_uniform (sender q) (sendReply eOk) (To task) (Subject task)
                  (TemplateName task) (Data task)) as (r & evs0 & Huni & _).
      simpl. rewrite Huni in Hok |- *. done.
    + exists (evs1 ++ evs2). rewrite Hrun. simpl. rewrite <- app_assoc.
      rewrite !pushed_app, !slept_app, !logged_app, length_app.
      rewrite Hp1, Hs1, Hs2, Hp2, Hw1, Hw2, Ht1, Ht2, Hi1, Hi2, He1, He2. done.
Qed.

(** X12. A task whose delivery fails [k] times and then succeeds, with
    [k] retries left under the ceiling, is delivered at the iteration
    [k + 1]: alone on the list, it is requeued [k] times, each time with a
    warning and a pause of [retryDelay]; then one success record is logged
    and the list is empty.  The worker sees no error and no terminal failure
    is reported. *)
Theorem task_is_delivered_after_transient_failures q eFail eOk err k task payload w :
  redisServes eFail →
  redisServes eOk →
  wireStable task →
  Retries task + Z.of_nat k ≤ maxRetries →
  Marshal task = Ok payload →
  queue w = [payload] →
  (SendEmail (sender q) (sendReply eFail)
     (To task) (Subject task) (TemplateName task) (Data task) w).1 = Some err →
  (SendEmail (sender q) (sendReply eOk)
     (To task) (Subject task) (TemplateName task) (Data task) w).1 = None →
  ∃ evs,
    workerLoop q (replicate k eFail ++ [eOk]) w
      = Looping {| queue := []; trace := trace w ++ evs |}
    ∧ List.length (pushed evs) = k
    ∧ slept evs = replicate k retryDelay
    ∧ logged LevelWarn "Email send failed, requeueing" evs = k
    ∧ logged LevelInfo "Email sent successfully" evs = 1%nat
    ∧ logged LevelError "Email send failed after max retries" evs = 0%nat
    ∧ logged LevelError "Task processing error" evs = 0%nat.
Proof.
  intros HsFail HsOk Hstable Hbound Hm Hqueue Hfail Hok.
  destruct (wireStable_roundtrip task Hstable) as (payload0 & Hm0 & Hdec).
  rewrite Hm in Hm0. injection Hm0 as <-.
  by apply (recovering_task_cycles q eFail eOk err k task payload w).
Qed.

(** X13. Tasks are handled in the order they were enqueued, and what the
    worker delivers is what was enqueued.  After two successful calls of
    [EnqueueEmail] on an empty list, the next iteration of the worker is
    [sendEmailWithRetry] on the first task as it is read back from the wire,
    with the second task still on the list. *)
Theorem tasks_are_handled_in_enqueue_order q e task1 task2 w w1 w2 :
  wellFormed task1 →
  queue w = [] →
  EnqueueEmail q None task1 w = (None, w1) →
  EnqueueEmail q None task2 w1 = (None, w2) →
  ctxDone e = false →
  popReply e = None →
  ∃ payload2,
    Marshal task2 = Ok payload2
    ∧ iteration q e w2 =
      let r := sendEmailWithRetry q e (rereadTask task1)
                 {| queue := [payload2]; trace := trace w2 ++ [EvBLPop emailQueue] |} in
      match r.1 with
      | None => Looping r.2
      | Some err =>
        Looping (after r.2 [EvLog LevelError "Task processing error" [("error", AError err)];
                            EvSleep queueCheckInterval])
      end.
Proof.
  intros Hwf Hqueue Henq1 Henq2 Hctx Hpop.
  destruct (Unmarshal_Marshal task1 Hwf) as (payload1 & Hm1 & Hdec1).
  destruct (EnqueueEmail_cases q None task1 w)
    as [[err Hq]|(p1 & Hp1 & [[err Hq]|Hq])]; rewrite Hq in Henq1; try done.
  injection Henq1 as <-. rewrite Hm1 in Hp1. injection Hp1 as <-.
  destruct (EnqueueEmail_cases q None task2
              {| queue := queue w ++ [payload1];
                 trace := trace w ++
                   [EvRPush emailQueue payload1;
                    EvLog LevelInfo "Email task enqueued"
                      [("to", AString (To task1)); ("subject", AString (Subject task1))]] |})
    as [[err Hq2]|(payload2 & Hm2 & [[err Hq2]|Hq2])]; rewrite Hq2 in Henq2; try done.
  injection Henq2 as <-. exists payload2. split; [done|].
  apply (iteration_pop q e _ payload1 [payload2]); try done.
  simpl. by rewrite Hqueue.
Qed.

(** ** The configuration *)

Lemma Atoi_syntax s : (Ints.Atoi s).2 = Some Ints.syntaxError → (Ints.Atoi s).1 = 0.
Proof.
  unfold Ints.Atoi. destruct s as [|a rest]; [done|]. cbv zeta.
  destruct (Ascii.eqb a "-"), (Ascii.eqb a "+"); cbn [orb];
    try (destruct rest as [|b body]; [done|]);
    (destruct (Ints.digits 0 _) as [n|]; [|done]);
    repeat case_match; simpl; try done; by intros [=].
Qed.

Lemma LoadConfiguration_missing environ :
  Utf8.blank defaultSMTPPassword = false →
  missingTransport (LoadConfiguration environ) = false ↔
    (∀ key v, key ∈ ["EMAIL_SMTP_SERVER"; "EMAIL_SMTP_USERNAME"; "EMAIL_SMTP_PASSWORD";
                     "EMAIL_SENDER_ADDRESS"] →
              environ !! key = Some v → Utf8.blank v = false)
    ∧ (∀ v, environ !! "EMAIL_SMTP_PORT" = Some v → 0 < (Ints.Atoi v).1).
Proof.
  intros Hpw. unfold missingTransport, LoadConfiguration, getEnvironmentVariable.
  cbn [EmailSMTPServer EmailSMTPServerPort EmailSenderAddress EmailSMTPUsername
       EmailSMTPPassword].
  rewrite !orb_false_iff, Z.leb_gt. split.
  - intros ((((Hs & Hp) & Ha) & Hu) & Hw). split.
    + intros key v Hin Hlook.
      rewrite !elem_of_cons, elem_of_nil in Hin.
      destruct Hin as [->|[->|[->|[->|[]]]]]; by rewrite Hlook in *.
    + intros v Hlook. by rewrite Hlook in Hp.
  - intros [Hkeys Hport]. repeat split.
    + destruct (environ !! "EMAIL_SMTP_SERVER") as [v|] eqn:E; [|done].
      apply (Hkeys "EMAIL_SMTP_SERVER"); [set_solver|done].
    + destruct (environ !! "EMAIL_SMTP_PORT") as [v|] eqn:E; [by apply Hport|done].
    + destruct (environ !! "EMAIL_SENDER_ADDRESS") as [v|] eqn:E; [|done].
      apply (Hkeys "EMAIL_SENDER_ADDRESS"); [set_solver|done].
    + destruct (environ !! "EMAIL_SMTP_USERNAME") as [v|] eqn:E; [|done].
      apply (Hkeys "EMAIL_SMTP_USERNAME"); [set_solver|done].
    + destruct (environ !! "EMAIL_SMTP_PASSWORD") as [v|] eqn:E; [|done].
      apply (Hkeys "EMAIL_SMTP_PASSWORD"); [set_solver|done].
Qed.

(** X14.  The configuration read from the environment passes the check
    of the sender exactly when none of the four text variables of the mail
    transport is set to a blank value and the port variable, if it is set,
    reads as a positive number: a variable that is set replaces its default
    even when it is blank, and the defaults pass.  The default password is
    the one value the file does not spell out; it is not blank. *)
Theorem configuration_passes_exactly_when environ tmpl :
  Utf8.blank defaultSMTPPassword = false →
  validateSMTPConfig (NewSender (LoadConfiguration environ) tmpl) = None ↔
    (∀ key v, key ∈ ["EMAIL_SMTP_SERVER"; "EMAIL_SMTP_USERNAME"; "EMAIL_SMTP_PASSWORD";
                     "EMAIL_SENDER_ADDRESS"] →
              environ !! key = Some v → Utf8.blank v = false)
    ∧ (∀ v, environ !! "EMAIL_SMTP_PORT" = Some v → 0 < (Ints.Atoi v).1).
Proof.
  intros Hpw. rewrite <- (LoadConfiguration_missing environ Hpw).
  pose proof (validateSMTPConfig_missing (NewSender (LoadConfiguration environ) tmpl)) as Hiff.
  cbn [config NewSender] in Hiff.
  destruct (missingTransport (LoadConfiguration environ)).
  - destruct (proj1 Hiff eq_refl) as [err ->]. by split.
  - split; [done|]. intros _.
    destruct (validateSMTPConfig _) as [err|] eqn:Herr; [|done].
    discriminate (proj2 Hiff (mk_is_Some _ _ eq_refl)).
Qed.

(** X15.  A port variable that is not a decimal number is read as 0
    without a report, since the error of [strconv.Atoi] is dropped; every
    send of a sender built over this configuration then fails at the check
    of the configuration, before any mail is sent. *)
Theorem unreadable_port_disables_sending environ tmpl v :
  environ !! "EMAIL_SMTP_PORT" = Some v →
  (Ints.Atoi v).2 = Some Ints.syntaxError →
  EmailSMTPServerPort (LoadConfiguration environ) = 0
  ∧ ∃ err, ∀ reply to subject templateName data w,
      to ≠ "" → subject ≠ "" → templateName ≠ "" →
      SendEmail (NewSender (LoadConfiguration environ) tmpl) reply to subject templateName data w
      = (Some (Errorf "invalid SMTP configuration: " err), w).
Proof.
  intros Hlook Hsyntax.
  assert (Hport : EmailSMTPServerPort (LoadConfiguration environ) = 0).
  { unfold LoadConfiguration, getEnvironmentVariable. cbn [EmailSMTPServerPort].
    rewrite Hlook. by apply Atoi_syntax. }
  split; [done|].
  destruct (proj1 (validateSMTPConfig_missing (NewSender (LoadConfiguration environ) tmpl)))
    as [err Herr].
  { unfold missingTransport. cbn [config NewSender]. rewrite Hport.
    by rewrite orb_true_r. }
  exists err. intros reply to subject templateName data w Hto Hsubject Hname.
  unfold SendEmail. rewrite !bool_decide_eq_false_2 by done. by rewrite Herr.
Qed.

(** X16.  [NewRedisClient] gives a client exactly when the host and the
    port are not empty and the PING is answered; the client then addresses
    [host:port].  An error wraps its cause, and the configuration is checked
    before the server is contacted: with an empty host or port the answer of
    the PING plays no part. *)
Theorem redis_client_exactly_when cfg ping :
  ((∃ client, NewRedisClient cfg ping = Ok client)
   ↔ CacheHost cfg ≠ "" ∧ CachePort cfg ≠ "" ∧ ping = None)
  ∧ (∀ client, NewRedisClient cfg ping = Ok client →
       Addr client = CacheHost cfg +:+ ":" +:+ CachePort cfg
       ∧ Password client = CachePassword cfg ∧ DB client = CacheDatabaseIndex cfg)
  ∧ (∀ err, NewRedisClient cfg ping = Err err →
       ∃ cause, Unwrap err = Some cause
                ∧ (validateRedisConfig cfg = Some cause
                   ∨ validateRedisConfig cfg = None ∧ ping = Some cause))
  ∧ (CacheHost cfg = "" ∨ CachePort cfg = "" →
     ∀ ping', NewRedisClient cfg ping' = NewRedisClient cfg ping).
Proof.
  unfold NewRedisClient, validateRedisConfig.
  destruct (bool_decide (CacheHost cfg = "")) eqn:Hhost;
    [apply bool_decide_eq_true in Hhost|apply bool_decide_eq_false in Hhost].
  { split; [|split; [|split]]; [| done | | done].
    - split; [by intros [? ?]|by intros (? & _)].
    - intros err [= <-]. eauto. }
  destruct (bool_decide (CachePort cfg = "")) eqn:Hport;
    [apply bool_decide_eq_true in Hport|apply bool_decide_eq_false in Hport].
  { split; [|split; [|split]]; [| done | | done].
    - split; [by intros [? ?]|by intros (_ & ? & _)].
    - intros err [= <-]. eauto. }
  destruct ping as [cause|].
  - split; [|split; [|split]]; [| done | |].
    + split; [by intros [? ?]|by intros (_ & _ & ?)].
    + intros err [= <-]. eauto.
    + by intros [?|?].
  - split; [|split; [|split]].
    + split; [done|eauto].
    + by intros client [= <-].
    + done.
    + by intros [?|?].
Qed.

(** ** Loading the templates *)

Lemma visit_Ok templates d templates' :
  visit templates d = Ok templates' ↔
  entryErr d = None
  ∧ (isTemplateFile d = false ∧ templates' = templates
     ∨ isTemplateFile d = true ∧ ∃ t, loads d t ∧ templates' = <[nameOf d := t]> templates).
Proof.
  unfold visit, isTemplateFile, loads, nameOf.
  destruct (entryErr d) as [err|].
  { split; [done|]. by intros [? _]. }
  destruct (entryIsDir d); cbn [negb andb].
  { split.
    - intros [= <-]. split; [done|]. by left.
    - intros [_ [[_ ->]|[? _]]]; done. }
  destruct (Strings.HasSuffix (entryPath d) ".html"); cbn [negb].
  2:{ split.
      - intros [= <-]. split; [done|]. by left.
      - intros [_ [[_ ->]|[? _]]]; done. }
  destruct (entryContent d) as [content|err].
  2:{ split; [done|]. intros [_ [[? _]|[_ (t & (content & ? & _) & _)]]]; done. }
  destruct (template_Parse _ content) as [t|err] eqn:Hparse.
  - split.
    + intros [= <-]. split; [done|]. right. split; [done|]. exists t. split; [|done].
      by exists content.
    + intros [_ [[? _]|[_ (t' & (content' & [= <-] & Hparse') & ->)]]]; [done|].
      rewrite Hparse in Hparse'. by injection Hparse' as ->.
  - split; [done|].
    intros [_ [[? _]|[_ (t' & (content' & [= <-] & Hparse') & ->)]]]; [done|].
    by rewrite Hparse in Hparse'.
Qed.

Lemma walk_cons templates d entries :
  walk templates (d :: entries) = (templates' ←ᵣ visit templates d; walk templates' entries).
Proof. done. Qed.

Lemma walk_app entries1 : ∀ templates entries2,
  walk templates (entries1 ++ entries2)
  = (templates' ←ᵣ walk templates entries1; walk templates' entries2).
Proof.
  induction entries1 as [|d entries1 IH]; intros templates entries2; [done|].
  cbn [app]. rewrite !walk_cons. destruct (visit templates d) as [templates1|err]; [|done].
  cbn [rbind]. apply IH.
Qed.

(** A walk that leaves the name alone leaves its template alone. *)
Lemma walk_frame name entries : ∀ templates templates',
  walk templates entries = Ok templates' →
  (∀ d, d ∈ entries → isTemplateFile d = true → nameOf d ≠ name) →
  templates' !! name = templates !! name.
Proof.
  induction entries as [|d entries IH]; intros templates templates' Hwalk Hother.
  { by injection Hwalk as <-. }
  rewrite walk_cons in Hwalk.
  destruct (visit templates d) as [templates1|err] eqn:Hvisit; [|done]. cbn [rbind] in Hwalk.
  rewrite (IH _ _ Hwalk) by (intros d' Hin; apply Hother; by right).
  apply visit_Ok in Hvisit as [_ [[_ ->]|[Hfile (t & _ & ->)]]]; [done|].
  apply lookup_insert_ne, Hother; [by left|done].
Qed.

(** What a walk that succeeds has done. *)
Lemma walk_Ok entries : ∀ templates templates',
  walk templates entries = Ok templates' →
  (∀ d, d ∈ entries →
        entryErr d = None
        ∧ (isTemplateFile d = true →
           (∃ t, loads d t) ∧ is_Some (templates' !! nameOf d)))
  ∧ (∀ name, templates' !! name = templates !! name
             ∨ ∃ d t, d ∈ entries ∧ isTemplateFile d = true ∧ nameOf d = name
                      ∧ loads d t ∧ templates' !! name = Some t)
  ∧ (∀ name, is_Some (templates !! name) → is_Some (templates' !! name)).
Proof.
  induction entries as [|d entries IH]; intros templates templates' Hwalk.
  { injection Hwalk as <-. split; [|split]; [|by left|done].
    intros d Hin. by apply elem_of_nil in Hin. }
  rewrite walk_cons in Hwalk.
  destruct (visit templates d) as [templates1|err] eqn:Hvisit; [|done]. cbn [rbind] in Hwalk.
  destruct (IH _ _ Hwalk) as (Hentries & Hnames & Hkept).
  apply visit_Ok in Hvisit as [Herr Hvisit].
  split; [|split].
  - intros d' [->|Hin]%elem_of_cons; [|by apply Hentries].
    split; [done|]. intros Hfile.
    destruct Hvisit as [[Hno _]|[_ (t & Hloads & ->)]]; [by rewrite Hfile in Hno|].
    split; [by exists t|]. apply Hkept. rewrite lookup_insert_eq. by eexists.
  - intros name. destruct (Hnames name) as [Hsame|(d' & t & Hin & Hfile & Hname & Hloads & Hlook)].
    2:{ right. exists d', t. split; [by right|done]. }
    destruct Hvisit as [[_ ->]|[Hfile (t & Hloads & ->)]]; [by left|].
    destruct (decide (nameOf d = name)) as [Heq|Hne].
    + right. exists d, t. split; [by left|]. split; [done|]. split; [done|]. split; [done|].
      by rewrite Hsame, <- Heq, lookup_insert_eq.
    + left. by rewrite Hsame, lookup_insert_ne.
  - intros name Hsome. apply Hkept.
    destruct Hvisit as [[_ ->]|[_ (t & _ & ->)]]; [done|].
    destruct (decide (nameOf d = name)) as [<-|Hne].
    + rewrite lookup_insert_eq. by eexists.
    + by rewrite lookup_insert_ne.
Qed.

(** A walk over entries that are all in order succeeds. *)
Lemma walk_total entries : ∀ templates,
  (∀ d, d ∈ entries → entryErr d = None ∧ (isTemplateFile d = true → ∃ t, loads d t)) →
  ∃ templates', walk templates entries = Ok templates'.
Proof.
  induction entries as [|d entries IH]; intros templates Hgood; [by eexists|].
  rewrite walk_cons.
  destruct (Hgood d) as [Herr Hloads]; [by left|].
  assert (∃ templates1, visit templates d = Ok templates1) as [templates1 ->].
  { destruct (isTemplateFile d) eqn:Hfile.
    - destruct (Hloads eq_refl) as [t Ht]. exists (<[nameOf d := t]> templates).
      apply visit_Ok. split; [done|]. right. split; [done|]. by exists t.
    - exists templates. apply visit_Ok. split; [done|]. by left. }
  cbn [rbind]. apply IH. intros d' Hin. apply Hgood. by right.
Qed.

Lemma New_Ok stat entries m :
  New stat entries = Ok m ↔
  stat = None ∧ walk ∅ entries = Ok (templates m) ∧ templates m ≠ ∅.
Proof.
  unfold New. destruct stat as [err|].
  { split; [done|]. by intros [? _]. }
  destruct (walk ∅ entries) as [loaded|err].
  2:{ split; [done|]. by intros (_ & ? & _). }
  destruct (bool_decide (size loaded = 0%nat)) eqn:Hsize;
    [apply bool_decide_eq_true in Hsize|apply bool_decide_eq_false in Hsize].
  - apply map_size_empty_iff in Hsize as ->. split; [done|].
    intros (_ & [= Heq] & Hne). by rewrite Heq in Hne.
  - split.
    + intros [= <-]. cbn [templates]. split; [done|]. split; [done|].
      intros ->. by apply Hsize.
    + intros (_ & [= ->] & _). by destruct m.
Qed.

(** X17.  [New] gives a manager exactly when the directory is there,
    no entry of the walk comes with an error, every file whose path ends in
    [.html] is read and parsed, and there is at least one such file: one
    bad file fails the whole loading. *)
Theorem templates_load_exactly_when stat entries :
  (∃ m, New stat entries = Ok m) ↔
  stat = None
  ∧ (∀ d, d ∈ entries → entryErr d = None ∧ (isTemplateFile d = true → ∃ t, loads d t))
  ∧ (∃ d, d ∈ entries ∧ isTemplateFile d = true).
Proof.
  split.
  - intros [m (Hstat & Hwalk & Hne)%New_Ok].
    destruct (walk_Ok _ _ _ Hwalk) as (Hentries & Hnames & _).
    split; [done|]. split.
    + intros d Hin. destruct (Hentries d Hin) as [Herr Hfile].
      split; [done|]. intros H. by destruct (Hfile H).
    + apply map_choose in Hne as (name & t & Hlook).
      destruct (Hnames name) as [Hsame|(d & _ & Hin & Hfile & _)]; [|by exists d].
      by rewrite Hlook, lookup_empty in Hsame.
  - intros (-> & Hgood & d & Hin & Hfile).
    destruct (walk_total entries ∅ Hgood) as [loaded Hwalk].
    exists {| templates := loaded |}. apply New_Ok. cbn [templates].
    split; [done|]. split; [done|]. intros ->.
    destruct (walk_Ok _ _ _ Hwalk) as (Hentries & _).
    destruct (Hentries d Hin) as [_ Hsome]. destruct (Hsome Hfile) as [_ [t Ht]].
    by rewrite lookup_empty in Ht.
Qed.

(** X18.  The manager [New] returns holds, under each of its names,
    the parsed content of a file of the walk whose path ends in [.html] and
    whose base name without the suffix is that name; every such file has its
    name listed, and the list of names is not empty. *)
Theorem loaded_templates_come_from_html_files stat entries m :
  New stat entries = Ok m →
  (∀ name t, templates m !! name = Some t →
     ∃ d, d ∈ entries ∧ isTemplateFile d = true ∧ nameOf d = name ∧ loads d t)
  ∧ (∀ d, d ∈ entries → isTemplateFile d = true → nameOf d ∈ ListAvailabletemplates m)
  ∧ ListAvailabletemplates m ≠ [].
Proof.
  intros (Hstat & Hwalk & Hne)%New_Ok.
  destruct (walk_Ok _ _ _ Hwalk) as (Hentries & Hnames & _).
  split; [|split].
  - intros name t Hlook.
    destruct (Hnames name) as [Hsame|(d & t' & Hin & Hfile & Hname & Hloads & Hlook')].
    { by rewrite Hlook, lookup_empty in Hsame. }
    exists d. rewrite Hlook in Hlook'. by injection Hlook' as <-.
  - intros d Hin Hfile. destruct (Hentries d Hin) as [_ Hsome].
    destruct (Hsome Hfile) as [_ [t Ht]].
    unfold ListAvailabletemplates. apply list_elem_of_fmap.
    exists (nameOf d, t). split; [done|]. by apply elem_of_map_to_list.
  - unfold ListAvailabletemplates. intros Hnil.
    apply fmap_nil_inv, map_to_list_empty_iff in Hnil. done.
Qed.

(** X19.  Templates are filed under the base name of their file, so of
    two files with the same base name in different directories the one the
    walk meets last is the one the manager keeps. *)
Theorem later_file_of_same_name_wins stat before d afterwards m :
  New stat (before ++ d :: afterwards) = Ok m →
  isTemplateFile d = true →
  (∀ d', d' ∈ afterwards → isTemplateFile d' = true → nameOf d' ≠ nameOf d) →
  ∃ t, loads d t ∧ templates m !! nameOf d = Some t.
Proof.
  intros (Hstat & Hwalk & Hne)%New_Ok Hfile Hlast.
  rewrite walk_app in Hwalk.
  destruct (walk ∅ before) as [loaded|err]; [|done]. cbn [rbind] in Hwalk.
  rewrite walk_cons in Hwalk.
  destruct (visit loaded d) as [loaded1|err] eqn:Hvisit; [|done]. cbn [rbind] in Hwalk.
  apply visit_Ok in Hvisit as [_ [[Hno _]|[_ (t & Hloads & ->)]]].
  { by rewrite Hfile in Hno. }
  exists t. split; [done|].
  rewrite (walk_frame (nameOf d) _ _ _ Hwalk Hlast). apply lookup_insert_eq.
Qed.

(** ** The start of the process *)

Lemma NewRedisClient_Ok cfg ping :
  (∃ client, NewRedisClient cfg ping = Ok client)
  ↔ CacheHost cfg ≠ "" ∧ CachePort cfg ≠ "" ∧ ping = None.
Proof.
  unfold NewRedisClient, validateRedisConfig.
  destruct (bool_decide (CacheHost cfg = "")) eqn:Hhost;
    [apply bool_decide_eq_true in Hhost|apply bool_decide_eq_false in Hhost].
  { split; [by intros [? ?]|by intros (? & _)]. }
  destruct (bool_decide (CachePort cfg = "")) eqn:Hport;
    [apply bool_decide_eq_true in Hport|apply bool_decide_eq_false in Hport].
  { split; [by intros [? ?]|by intros (_ & ? & _)]. }
  destruct ping as [cause|].
  - split; [by intros [? ?]|by intros (_ & _ & ?)].
  - split; [done|eauto].
Qed.

Lemma getEnvironmentVariable_empty environ key defaultValue :
  defaultValue ≠ "" →
  getEnvironmentVariable environ key defaultValue ≠ "" ↔ environ !! key ≠ Some "".
Proof.
  intros Hdefault. unfold getEnvironmentVariable.
  destruct (environ !! key) as [v|]; [|done].
  split; [by intros ? [= ->]|]. intros Hne ->. by apply Hne.
Qed.

(** X20.  The process gets past its start exactly when the templates
    load, the variables of the Redis host and port are not set to the empty
    text, and Redis answers the PING.  The variables of the mail transport
    play no part: the queue is then built over whatever configuration the
    environment gives.  The templates are loaded first, so their error is
    the one reported whatever Redis answers. *)
Theorem startup_checks_redis_not_smtp environ stat entries ping :
  ((∃ q, startup environ stat entries ping = Ok q) ↔
   (∃ m, New stat entries = Ok m)
   ∧ environ !! "CACHE_HOST" ≠ Some "" ∧ environ !! "CACHE_PORT" ≠ Some "" ∧ ping = None)
  ∧ (∀ q, startup environ stat entries ping = Ok q →
       config (sender q) = LoadConfiguration environ
       ∧ New stat entries = Ok (sender_templates (sender q)))
  ∧ (∀ err, New stat entries = Err err →
       startup environ stat entries ping
       = Err (ErrorString ("Error initializing templates: " +:+ Error err))).
Proof.
  pose proof (NewRedisClient_Ok (LoadConfiguration environ) ping) as Hclient.
  unfold LoadConfiguration at 2 3 in Hclient. cbn [CacheHost CachePort] in Hclient.
  rewrite !getEnvironmentVariable_empty in Hclient by done.
  unfold startup. destruct (New stat entries) as [m|err].
  2:{ split; [|split]; [|done|by intros ? [= <-]].
      split; [by intros [? ?]|by intros [[? ?] _]]. }
  destruct (NewRedisClient (LoadConfiguration environ) ping) as [client|err].
  - split; [|split]; [| |done].
    + split; [|by eauto]. intros _. split; [by eauto|]. apply Hclient. by eauto.
    + by intros q [= <-].
  - split; [|split]; [|done|done].
    split; [by intros [? ?]|]. intros [_ Hok]. by destruct (proj2 Hclient Hok).
Qed.

(** ** Trimming and blank texts *)

Lemma trimLeft_allSpace s : ∀ skip,
  Utf8.allSpace skip s = true → Strings.trimLeft skip s = "".
Proof.
  induction s as [|a s1 IH]; intros skip Hall; [done|].
  destruct skip as [|k]; cbn [Utf8.allSpace Strings.trimLeft] in *; [|by apply IH].
  apply andb_true_iff in Hall as [-> Hall]. by apply IH.
Qed.

Lemma trimLeft_not_allSpace s : ∀ skip,
  Utf8.allSpace skip s = false →
  ∃ a s', Strings.trimLeft skip s = String a s'
          ∧ Utf8.IsSpace (Utf8.DecodeRuneInString (String a s')).1 = false.
Proof.
  induction s as [|a s1 IH]; intros skip Hall; [done|].
  destruct skip as [|k]; cbn [Utf8.allSpace Strings.trimLeft] in *; [|by apply IH].
  destruct (Utf8.IsSpace (Utf8.DecodeRuneInString (String a s1)).1) eqn:Hspace.
  - by apply IH.
  - by exists a, s1.
Qed.

(** A white space rune at the head of a text is read whatever follows. *)
Lemma DecodeRune_space_app l t :
  Utf8.IsSpace (Utf8.DecodeRuneInString (string_of_list_ascii l)).1 = true →
  Utf8.DecodeRuneInString (string_of_list_ascii (l ++ t))
  = Utf8.DecodeRuneInString (string_of_list_ascii l).
Proof.
  assert (Hrune : Utf8.IsSpace Utf8.RuneError = false) by done.
  destruct l as [|a0 [|a1 [|a2 [|a3 l4]]]]; cbn [app string_of_list_ascii];
    unfold Utf8.DecodeRuneInString; intros Hspace;
    repeat (case_match; cbn [fst] in Hspace; try (rewrite Hrune in Hspace); try done).
Qed.

Lemma endsSpace_step chunk l :
  Strings.endsSpace chunk = true →
  (l ≠ [] → Utf8.IsSpace (Utf8.DecodeRuneInString (string_of_list_ascii (rev l))).1 = true) →
  Utf8.IsSpace (Utf8.DecodeRuneInString (string_of_list_ascii (rev l ++ chunk))).1 = true.
Proof.
  unfold Strings.endsSpace. cbv zeta. intros [Hspace _]%andb_true_iff Hrest.
  destruct l as [|x l]; [exact Hspace|].
  assert (Hhead := Hrest ltac:(done)). by rewrite DecodeRune_space_app.
Qed.

(** If trimming from the right leaves nothing, the text starts with a white
    space rune. *)
Lemma trimRev_nil n : ∀ l,
  (List.length l ≤ n)%nat → l ≠ [] → Strings.trimRev l = [] →
  Utf8.IsSpace (Utf8.DecodeRuneInString (string_of_list_ascii (rev l))).1 = true.
Proof.
  induction n as [|n IH]; intros l Hlen Hne Htrim.
  { destruct l; [done|cbn [List.length] in Hlen; lia]. }
  destruct l as [|a l1]; [done|]. cbn [Strings.trimRev] in Htrim.
  destruct (Strings.endsSpace [a]) eqn:H1.
  { cbn [rev]. apply endsSpace_step; [done|]. intros Hne1.
    apply IH; [cbn [List.length] in Hlen; lia|done|done]. }
  destruct l1 as [|b l2]; [done|].
  destruct (Strings.endsSpace [b; a]) eqn:H2.
  { cbn [rev]. rewrite <- app_assoc. apply endsSpace_step; [done|]. intros Hne2.
    apply IH; [cbn [List.length] in Hlen; lia|done|done]. }
  destruct l2 as [|c l3]; [done|].
  destruct (Strings.endsSpace [c; b; a]) eqn:H3; [|done].
  cbn [rev]. rewrite <- !app_assoc. apply endsSpace_step; [done|]. intros Hne3.
  apply IH; [cbn [List.length] in Hlen; lia|done|done].
Qed.

Lemma TrimSpace_blank s : Strings.TrimSpace s = "" ↔ Utf8.blank s = true.
Proof.
  unfold Strings.TrimSpace, Utf8.blank. split.
  - intros Htrim. destruct (Utf8.allSpace 0 s) eqn:Hall; [done|].
    destruct (trimLeft_not_allSpace s 0 Hall) as (a & s' & Hleft & Hspace).
    rewrite Hleft in Htrim. unfold Strings.trimRight in Htrim.
    apply (f_equal list_ascii_of_string) in Htrim.
    rewrite list_ascii_of_string_of_list_ascii in Htrim. cbn [list_ascii_of_string] in Htrim.
    apply (f_equal (@rev ascii)) in Htrim. rewrite rev_involutive in Htrim.
    apply (trimRev_nil (List.length (rev (a :: list_ascii_of_string s')))) in Htrim;
      [|done|].
    + rewrite rev_involutive in Htrim.
      change (a :: list_ascii_of_string s') with (list_ascii_of_string (String a s')) in Htrim.
      rewrite string_of_list_ascii_of_string in Htrim. by rewrite Htrim in Hspace.
    + cbn [rev]. by destruct (rev (list_ascii_of_string s')).
  - intros Hall. by rewrite (trimLeft_allSpace s 0 Hall).
Qed.

(** X21.  The test [strings.TrimSpace(x) == ""] that the sender makes
    on each text of its configuration holds exactly when every rune of [x]
    is white space, a byte that starts no well-formed rune counting as a
    rune that is not: trimming from both ends leaves nothing only if
    trimming from the left does. *)
Theorem trimming_leaves_nothing_exactly_of_blank s :
  (Strings.TrimSpace s = "" ↔ Utf8.blank s = true)
  ∧ (Strings.TrimSpace s = "" ↔ Strings.trimLeft 0 s = "").
Proof.
  split; [apply TrimSpace_blank|].
  rewrite TrimSpace_blank. unfold Utf8.blank. split.
  - apply trimLeft_allSpace.
  - intros Hleft. destruct (Utf8.allSpace 0 s) eqn:Hall; [done|].
    destruct (trimLeft_not_allSpace s 0 Hall) as (a & s' & Hleft' & _).
    by rewrite Hleft in Hleft'.
Qed.

(** ** The HTTP handlers *)

Lemma sanitizeTemplateData_fmap data :
  sanitizeTemplateData data = sanitizeValue <$> default ∅ data.
Proof.
  unfold sanitizeTemplateData.
  apply (map_fold_weak_ind (λ r (m : gmap string value), r = sanitizeValue <$> m)).
  - by rewrite fmap_empty.
  - intros k v m r _ ->. by rewrite fmap_insert.
Qed.

(** X22.  [sanitizeTemplateData] treats each key on its own: the map
    it returns has the keys of the data it was given (none, for no data) and
    under each key a string, a number or a boolean.  Numbers and booleans
    are kept as they are, a string is trimmed, and any other value (null, a
    list, a nested object) is replaced by its [%v] text. *)
Theorem sanitize_keeps_keys_and_flattens_values data :
  let sanitized := sanitizeTemplateData data in
  dom sanitized = dom (default ∅ data)
  ∧ (∀ k v, sanitized !! k = Some v →
       match v with
       | VString _ | VInt _ | VInt64 _ | VFloat _ | VBool _ => True
       | _ => False
       end)
  ∧ (∀ k v, default ∅ data !! k = Some v →
       sanitized !! k =
       Some match v with
            | VString val => VString (Strings.TrimSpace val)
            | VInt _ | VInt64 _ | VFloat _ | VBool _ => v
            | _ => VString (Sprint v)
            end).
Proof.
  intros sanitized. subst sanitized. rewrite sanitizeTemplateData_fmap.
  split; [by rewrite dom_fmap_L|]. split.
  - intros k v. rewrite lookup_fmap. destruct (default ∅ data !! k) as [v0|]; [|done].
    intros [= <-]. by destruct v0.
  - intros k v Hlook. rewrite lookup_fmap, Hlook. by destruct v.
Qed.

Lemma sendEmailHandler_valid q req reply w :
  validateRequest req = None →
  sendEmailHandler q (Ok req) reply w =
    let r := EnqueueEmail q reply (taskOf req) w in
    (match r.1 with
     | Some err =>
       {| status := StatusInternalServerError;
          content := ErrorResponse "failed to queue email" {[ "reason" := Error err ]} |}
     | None =>
       {| status := StatusAccepted;
          content := Queued (To (taskOf req)) (Subject (taskOf req)) |}
     end, r.2).
Proof.
  intros Hvalid. unfold sendEmailHandler. rewrite Hvalid. unfold bind. cbv zeta.
  destruct (EnqueueEmail q reply (taskOf req) w) as [[err|] w']; done.
Qed.

Lemma sendEmailHandler_invalid q bound reply w :
  (∃ err, bound = Err err) ∨ (∃ req err, bound = Ok req ∧ validateRequest req = Some err) →
  ∃ body, sendEmailHandler q bound reply w = ({| status := StatusBadRequest; content := body |}, w).
Proof.
  intros [[err ->]|(req & err & -> & Hinvalid)]; unfold sendEmailHandler.
  - by eexists.
  - rewrite Hinvalid. destruct err; by eexists.
Qed.

Lemma queue_grows (l : list wire) payload : l ≠ l ++ [payload].
Proof.
  intros Heq. apply (f_equal List.length) in Heq. rewrite length_app in Heq.
  cbn [List.length] in Heq. lia.
Qed.

(** X23.  The handler of [POST /api/send] answers 202, 400 or 500.
    It answers 400 exactly when the body does not bind or the request does
    not pass the validator, and it has then sent no command to Redis.  It
    answers 202 exactly when the list has grown by the encoding of the task
    built from the request; with 500 the list is as it was.  The recipient
    and the subject reported with 202 are those of the request, trimmed. *)
Theorem send_handler_accepts_exactly_when_queued q bound reply w :
  let r := sendEmailHandler q bound reply w in
  (status r.1 = StatusAccepted ∨ status r.1 = StatusBadRequest
   ∨ status r.1 = StatusInternalServerError)
  ∧ (status r.1 = StatusBadRequest ↔
     (∃ err, bound = Err err)
     ∨ (∃ req err, bound = Ok req ∧ validateRequest req = Some err))
  ∧ (status r.1 = StatusBadRequest → r.2 = w)
  ∧ (status r.1 = StatusInternalServerError → queue r.2 = queue w)
  ∧ (status r.1 = StatusAccepted ↔
     ∃ req payload, bound = Ok req ∧ Marshal (taskOf req) = Ok payload
                    ∧ queue r.2 = queue w ++ [payload])
  ∧ (status r.1 = StatusAccepted →
     ∃ req, bound = Ok req
            ∧ content r.1 = Queued (Strings.TrimSpace (req_To req))
                                   (Strings.TrimSpace (req_Subject req))).
Proof.
  intros r. subst r.
  assert (Hcodes : StatusBadRequest ≠ StatusAccepted
                   ∧ StatusBadRequest ≠ StatusInternalServerError
                   ∧ StatusInternalServerError ≠ StatusAccepted) by done.
  destruct Hcodes as (Hba & Hbs & Hsa).
  destruct bound as [req|bindErr].
  2:{ destruct (sendEmailHandler_invalid q (Err bindErr) reply w) as [body ->]; [by eauto|].
      cbn [fst snd status]. split; [by eauto|]. split; [split; by eauto|].
      split; [done|]. split; [done|]. split; [|done].
      split; [done|]. by intros (? & ? & ? & _). }
  destruct (validateRequest req) as [err|] eqn:Hvalid.
  { destruct (sendEmailHandler_invalid q (Ok req) reply w) as [body ->]; [by eauto 6|].
    cbn [fst snd status]. split; [by eauto|]. split; [split; by eauto 6|].
    split; [done|]. split; [done|]. split; [|done].
    split; [done|]. intros (? & payload & _ & _ & Hgrow). by apply queue_grows in Hgrow. }
  rewrite (sendEmailHandler_valid q req reply w Hvalid). cbv zeta.
  destruct (EnqueueEmail_cases q reply (taskOf req) w)
    as [[err Hrun]|(payload & Henc & [[err Hrun]|Hrun])]; rewrite Hrun;
    cbn [fst snd status content queue after].
  - split; [by eauto|]. split.
    { split; [done|]. intros [[? ?]|(? & ? & [= <-] & Hinvalid)]; [done|].
      by rewrite Hvalid in Hinvalid. }
    split; [done|]. split; [done|]. split; [|done].
    split; [done|]. intros (? & payload & _ & _ & Hgrow). by apply queue_grows in Hgrow.
  - split; [by eauto|]. split.
    { split; [done|]. intros [[? ?]|(? & ? & [= <-] & Hinvalid)]; [done|].
      by rewrite Hvalid in Hinvalid. }
    split; [done|]. split; [done|]. split; [|done].
    split; [done|]. intros (? & payload' & _ & _ & Hgrow). by apply queue_grows in Hgrow.
  - split; [by eauto|]. split.
    { split; [done|]. intros [[? ?]|(? & ? & [= <-] & Hinvalid)]; [done|].
      by rewrite Hvalid in Hinvalid. }
    split; [done|]. split; [done|]. split.
    + split; [|done]. intros _. by exists req, payload.
    + intros _. by exists req.
Qed.

(** X24.  A request that passes the validator while its recipient,
    its subject or its template name is white space only is answered 500,
    not 400: the handler trims the three texts, the queue refuses the task
    for its empty field, and no command is sent to Redis. *)
Theorem blank_field_is_a_server_error q req reply w :
  validateRequest req = None →
  Utf8.blank (req_To req) = true ∨ Utf8.blank (req_Subject req) = true
  ∨ Utf8.blank (req_TemplateName req) = true →
  ∃ err,
    validateEmailTask (taskOf req) = Some err
    ∧ sendEmailHandler q (Ok req) reply w =
        ({| status := StatusInternalServerError;
            content := ErrorResponse "failed to queue email"
                         {[ "reason" := Error (Errorf "invalid email task: " err) ]} |}, w).
Proof.
  intros Hvalid Hblank.
  assert (To (taskOf req) = "" ∨ Subject (taskOf req) = "" ∨ TemplateName (taskOf req) = "")
    as Hempty.
  { cbn [taskOf To Subject TemplateName]. rewrite !TrimSpace_blank. exact Hblank. }
  assert (∃ err, validateEmailTask (taskOf req) = Some err) as [err Herr].
  { unfold validateEmailTask. destruct Hempty as [Hempty | [Hempty | Hempty]]; rewrite Hempty;
      repeat case_bool_decide; by eauto. }
  exists err. split; [done|].
  rewrite (sendEmailHandler_valid q req reply w Hvalid). cbv zeta.
  unfold EnqueueEmail. by rewrite Herr.
Qed.

(** What the loop of the bulk handler does from any state. *)
Lemma bulkLoop_spec q reply emails : ∀ i failedEmails successEmails w,
  ∃ newFailed newSuccess payloads,
    (bulkLoop q reply i emails failedEmails successEmails w).1
    = (failedEmails ++ newFailed, successEmails ++ newSuccess)
    ∧ queue (bulkLoop q reply i emails failedEmails successEmails w).2 = queue w ++ payloads
    ∧ (List.length newFailed + List.length newSuccess = List.length emails)%nat
    ∧ Forall2 (λ payload to, ∃ req, req ∈ emails ∧ validateRequest req = None
                                    ∧ Marshal (taskOf req) = Ok payload
                                    ∧ to = Strings.TrimSpace (req_To req))
        payloads newSuccess
    ∧ Forall (λ to, ∃ req, req ∈ emails
                           ∧ (to = req_To req ∨ to = Strings.TrimSpace (req_To req)))
        newFailed.
Proof.
  induction emails as [|req rest IH]; intros i failedEmails successEmails w.
  { exists [], [], []. cbn [bulkLoop ret fst snd]. by rewrite !app_nil_r. }
  assert (Hweaken1 : ∀ payloads newSuccess,
    Forall2 (λ payload to, ∃ req', req' ∈ rest ∧ validateRequest req' = None
                                   ∧ Marshal (taskOf req') = Ok payload
                                   ∧ to = Strings.TrimSpace (req_To req'))
      payloads newSuccess →
    Forall2 (λ payload to, ∃ req', req' ∈ req :: rest ∧ validateRequest req' = None
                                   ∧ Marshal (taskOf req') = Ok payload
                                   ∧ to = Strings.TrimSpace (req_To req'))
      payloads newSuccess).
  { intros payloads newSuccess Hall. eapply Forall2_impl; [exact Hall|]. cbv beta.
    intros payload to (req' & Hin & Hrest). exists req'. split; [by right|done]. }
  assert (Hweaken2 : ∀ newFailed,
    Forall (λ to, ∃ req', req' ∈ rest
                          ∧ (to = req_To req' ∨ to = Strings.TrimSpace (req_To req')))
      newFailed →
    Forall (λ to, ∃ req', req' ∈ req :: rest
                          ∧ (to = req_To req' ∨ to = Strings.TrimSpace (req_To req')))
      newFailed).
  { intros newFailed Hall. eapply Forall_impl; [exact Hall|]. cbv beta.
    intros to (req' & Hin & Hrest). exists req'. split; [by right|done]. }
  cbn [bulkLoop]. destruct (validateRequest req) as [err|] eqn:Hvalid.
  { destruct (IH (S i) (failedEmails ++ [req_To req]) successEmails w)
      as (newFailed & newSuccess & payloads & Hres & Hqueue & Hlen & Hok & Hbad).
    exists (req_To req :: newFailed), newSuccess, payloads.
    rewrite Hres, Hqueue, <- app_assoc. cbn [app List.length].
    split; [done|]. split; [done|]. split; [lia|]. split; [by apply Hweaken1|].
    constructor; [|by apply Hweaken2]. exists req. split; [by left|by left]. }
  unfold bind.
  destruct (EnqueueEmail_cases q (reply i) (taskOf req) w)
    as [[err Hrun]|(payload & Henc & [[err Hrun]|Hrun])]; rewrite Hrun.
  - destruct (IH (S i) (failedEmails ++ [To (taskOf req)]) successEmails w)
      as (newFailed & newSuccess & payloads & Hres & Hqueue & Hlen & Hok & Hbad).
    exists (To (taskOf req) :: newFailed), newSuccess, payloads.
    rewrite Hres, Hqueue, <- app_assoc. cbn [app List.length].
    split; [done|]. split; [done|]. split; [lia|]. split; [by apply Hweaken1|].
    constructor; [|by apply Hweaken2]. exists req. split; [by left|by right].
  - destruct (IH (S i) (failedEmails ++ [To (taskOf req)]) successEmails
                (after w [EvRPush emailQueue payload]))
      as (newFailed & newSuccess & payloads & Hres & Hqueue & Hlen & Hok & Hbad).
    exists (To (taskOf req) :: newFailed), newSuccess, payloads.
    rewrite Hres, Hqueue, <- app_assoc. cbn [app List.length after queue].
    split; [done|]. split; [done|]. split; [lia|]. split; [by apply Hweaken1|].
    constructor; [|by apply Hweaken2]. exists req. split; [by left|by right].
  - match goal with
    | |- context [bulkLoop q reply (S i) rest failedEmails ?s ?w'] =>
      destruct (IH (S i) failedEmails s w')
        as (newFailed & newSuccess & payloads & Hres & Hqueue & Hlen & Hok & Hbad)
    end.
    exists newFailed, (To (taskOf req) :: newSuccess), (payload :: payloads).
    rewrite Hres, Hqueue. cbn [queue]. rewrite <- !app_assoc. cbn [app List.length].
    split; [done|]. split; [done|]. split; [lia|]. split; [|by apply Hweaken2].
    constructor; [|by apply Hweaken1]. exists req. split; [by left|done].
Qed.

(** X25.  The handler of [POST /api/bulk-send], once the body binds,
    files every email of the request under exactly one of its two lists.
    The list has then grown by one payload per email reported as queued, in
    the order of the report: the encoding of the task of a request that
    passed the validator, reported under its trimmed recipient.  The answer
    is 202 when no email failed and 207 otherwise, also when none was
    queued. *)
Theorem bulk_handler_reports_what_it_queued q emails reply w :
  let r := bulkEmailHandler q (Ok emails) reply w in
  ∃ message successEmails failedEmails payloads,
    content r.1 = Bulk message successEmails failedEmails
    ∧ (List.length successEmails + List.length failedEmails = List.length emails)%nat
    ∧ queue r.2 = queue w ++ payloads
    ∧ Forall2 (λ payload to, ∃ req, req ∈ emails ∧ validateRequest req = None
                                    ∧ Marshal (taskOf req) = Ok payload
                                    ∧ to = Strings.TrimSpace (req_To req))
        payloads successEmails
    ∧ Forall (λ to, ∃ req, req ∈ emails
                           ∧ (to = req_To req ∨ to = Strings.TrimSpace (req_To req)))
        failedEmails
    ∧ (failedEmails = [] ∧ status r.1 = StatusAccepted
       ∨ failedEmails ≠ [] ∧ status r.1 = StatusMultiStatus).
Proof.
  intros r. subst r. unfold bulkEmailHandler, bind.
  destruct (bulkLoop_spec q reply emails 0 [] [] w)
    as (newFailed & newSuccess & payloads & Hres & Hqueue & Hlen & Hok & Hbad).
  destruct (bulkLoop q reply 0 emails [] [] w) as [[failedEmails successEmails] w'].
  cbn [fst snd app] in Hres, Hqueue. injection Hres as -> ->.
  destruct newFailed as [|to newFailed]; cbn [ret fst snd content status].
  - eexists _, newSuccess, [], payloads. split; [done|].
    cbn [List.length] in *. split; [lia|]. split; [done|]. split; [done|].
    split; [done|]. by left.
  - eexists _, newSuccess, (to :: newFailed), payloads. split; [done|].
    cbn [List.length] in *. split; [lia|]. split; [done|]. split; [done|].
    split; [done|]. by right.
Qed.

(** ** From the handler to the mail *)

Lemma SendEmail_sent s reply to subject templateName data w :
  (SendEmail s reply to subject templateName data w).1 = None →
  ∃ msg, ∀ w',
    SendEmail s reply to subject templateName data w' =
      (None,
       after w' [EvSendMail
                   (EmailSMTPServer (config s) +:+ ":" +:+ pretty (EmailSMTPServerPort (config s)))
                   (EmailSMTPUsername (config s)) (EmailSMTPPassword (config s))
                   (EmailSMTPServer (config s)) (EmailSenderAddress (config s)) [to] msg]).
Proof.
  unfold SendEmail. repeat case_bool_decide; try done.
  destruct (validateSMTPConfig s); [done|].
  destruct data as [m|].
  all: destruct (RenderWithSafeURLs _ _ _ _).1 as [body [err|]]; [done|].
  all: run; intros ->; by eexists.
Qed.

(** X26.  A request that passes the validator and whose task goes
    through the wire unchanged is answered 202 when Redis takes the command;
    the next pass of the worker over the list, which held nothing else,
    reads the task back and, if the mail goes out, has called
    [smtp.SendMail] once, for the trimmed recipient of the request and with
    the transport of the configuration, and leaves the list empty. *)
Theorem accepted_request_is_mailed q e req w :
  validateRequest req = None →
  wireStable (taskOf req) →
  ctxDone e = false →
  popReply e = None →
  queue w = [] →
  (SendEmail (sender q) (sendReply e) (To (taskOf req)) (Subject (taskOf req))
     (TemplateName (taskOf req)) (Data (taskOf req)) w).1 = None →
  let r := sendEmailHandler q (Ok req) None w in
  let cfg := config (sender q) in
  status r.1 = StatusAccepted
  ∧ ∃ msg,
      iteration q e r.2 =
        Looping {| queue := [];
                   trace := trace r.2 ++
                     [EvBLPop emailQueue;
                      EvSendMail (EmailSMTPServer cfg +:+ ":" +:+ pretty (EmailSMTPServerPort cfg))
                        (EmailSMTPUsername cfg) (EmailSMTPPassword cfg)
                        (EmailSMTPServer cfg) (EmailSenderAddress cfg)
                        [Strings.TrimSpace (req_To req)] msg;
                      EvLog LevelInfo "Email sent successfully"
                        [("to", AString (Strings.TrimSpace (req_To req)));
                         ("subject", AString (Strings.TrimSpace (req_Subject req)))]] |}.
Proof.
  intros Hvalid Hstable Hctx Hpop Hqueue Hsend r cfg. subst r cfg.
  destruct (wireStable_roundtrip _ Hstable) as (payload & Henc & Hdec).
  rewrite (sendEmailHandler_valid q req None w Hvalid). cbv zeta.
  unfold EnqueueEmail. rewrite (wireStable_validate _ Hstable), Henc. run.
  split; [done|].
  destruct (SendEmail_sent _ _ _ _ _ _ _ Hsend) as [msg Hrun].
  exists msg. rewrite Hqueue. cbn [app].
  erewrite iteration_pop; [|done|done|done|exact Hdec]. cbv zeta. cbn [queue trace].
  rewrite (sent_step q e (taskOf req) _ _ (Hrun _)). cbn [fst snd].
  unfold after. cbn [queue trace taskOf To Subject]. by rewrite <- !app_assoc.
Qed.

End Model.

(** * The program on concrete inputs

    The lemmas below run the model on the fragment of the libraries that
    computes. *)

#[local] Existing Instance Fragment.strconv.
#[local] Existing Instance Fragment.packages.

(** The first delivery of the sample task fails: it is requeued with an
    attempt count of 1 and the worker sees no error. *)
Lemma retry_requeues_incremented_witness :
  let q := sampleQueue "<p>hi</p>" in
  let r := sendEmailWithRetry q sendFails (sampleTask 0) emptyWorld in
  isInt64 (Retries (sampleTask 0))
  ∧ Retries (sampleTask 0) < maxRetries
  ∧ r.1 = None
  ∧ ∃ payload, Marshal (sampleTask 1) = Ok payload ∧ queue r.2 = [payload].
Proof.
  intros q r.
  assert (Hint : isInt64 (Retries (sampleTask 0))) by (by vm_compute).
  assert (Hlt : Retries (sampleTask 0) < maxRetries) by (by vm_compute).
  split; [done|]. split; [done|].
  destruct (retry_requeues_incremented q sendFails (sampleTask 0) emptyWorld refused
              (SendEmail (sender q) (sendReply sendFails) "a@x.com" "S" "T"
                 (Data (sampleTask 0)) emptyWorld).2 Hint Hlt)
    as [_ Hok]; [by vm_compute|].
  apply Hok. by vm_compute.
Defined.

(** The fourth delivery of the sample task fails: the error goes back to the
    worker and the list stays empty. *)
Lemma ceiling_drops_task_witness :
  let q := sampleQueue "<p>hi</p>" in
  let r := sendEmailWithRetry q sendFails (sampleTask 3) emptyWorld in
  Retries (sampleTask 3) = maxRetries
  ∧ r.1 = Some refused
  ∧ queue r.2 = []
  ∧ pushed (trace r.2) = [].
Proof.
  intros q r.
  assert (Hmax : Retries (sampleTask 3) = maxRetries) by done.
  split; [done|].
  destruct (ceiling_drops_task q sendFails (sampleTask 3) emptyWorld refused
              (SendEmail (sender q) (sendReply sendFails) "a@x.com" "S" "T"
                 (Data (sampleTask 3)) emptyWorld).2 Hmax)
    as (Hrun & _ & _); [by vm_compute|].
  subst r. rewrite Hrun. clear. vm_compute. repeat split.
Defined.

(** C3 fails on the code: a Go [int] in the data of a well-formed task
    comes back from the encoding as a [float64], so the task read is not the
    task written. *)
Lemma integer_comes_back_as_float64 :
  Marshal countTask =
    Ok (Text (JObject [("to", JString "a@x.com"); ("subject", JString "S");
                       ("templateName", JString "T");
                       ("data", JObject [("count", JNumber (LitInt false 1))])]))
  ∧ Unmarshal (Text (JObject [("to", JString "a@x.com"); ("subject", JString "S");
                              ("templateName", JString "T");
                              ("data", JObject [("count", JNumber (LitInt false 1))])]))
    = Ok {| To := "a@x.com"; Subject := "S"; TemplateName := "T";
            Data := Some {[ "count" := VFloat (1 : Z) ]}; Retries := 0 |}
  ∧ {| To := "a@x.com"; Subject := "S"; TemplateName := "T";
       Data := Some {[ "count" := VFloat (1 : Z) ]}; Retries := 0 |} ≠ countTask.
Proof.
  split; [by vm_compute|]. split; [by vm_compute|].
  intros Heq.
  apply (f_equal (λ task, match Data task with
                          | Some m => m !! "count"
                          | None => None
                          end)) in Heq.
  vm_compute in Heq. discriminate Heq.
Defined.

(** The sample task, which holds no integer, comes back as it was. *)
Lemma wire_roundtrip_up_to_integers_witness :
  wellFormed (sampleTask 2)
  ∧ ∃ payload, Marshal (sampleTask 2) = Ok payload ∧ Unmarshal payload = Ok (sampleTask 2).
Proof.
  assert (Hwf : wellFormed (sampleTask 2)).
  { split; [by vm_compute|]. split; [by vm_compute|]. split; [by vm_compute|].
    intros m [= <-]. apply map_Forall_singleton. by vm_compute. }
  split; [done|].
  destruct (wire_roundtrip_up_to_integers (sampleTask 2) Hwf) as (payload & Henc & _ & Hsame).
  exists payload. split; [done|]. apply Hsame.
  intros m [= <-]. apply map_Forall_singleton. simpl. tauto.
Defined.

(** A task without a recipient is turned away and the world stays as it
    was. *)
Lemma enqueue_rejects_empty_field_witness :
  let q := sampleQueue "<p>hi</p>" in
  let task := withRetries zeroTask 0 in
  (To task = "" ∨ Subject task = "" ∨ TemplateName task = "")
  ∧ EnqueueEmail q None task garbageWorld =
      (Some (Errorf "invalid email task: " (ErrorString "recipient email is required")),
       garbageWorld).
Proof.
  intros q task.
  assert (Hempty : To task = "" ∨ Subject task = "" ∨ TemplateName task = "") by (by left).
  split; [done|].
  destruct (enqueue_rejects_empty_field q None task garbageWorld Hempty)
    as (err & Hval & Hrun).
  rewrite Hrun. vm_compute in Hval. by injection Hval as <-.
Defined.

(** A payload that is not JSON waits before the sample task: it is
    reported and dropped, the worker is back at the head of its loop, and
    its next pass mails the sample task; the pass after that finds the
    context done and the worker returns. *)
Lemma worker_outlives_bad_payload_witness :
  let q := sampleQueue "<p>hi</p>" in
  let good := Text (JObject [("to", JString "a@x.com"); ("subject", JString "S");
                             ("templateName", JString "T");
                             ("data", JObject [("name", JString "Bob")])]) in
  let w := {| queue := [NotJSON "oops"; good]; trace := [] |} in
  ctxDone allWell = false
  ∧ popReply allWell = None
  ∧ Unmarshal (NotJSON "oops") = Err (ErrorString "invalid character looking for beginning of value")
  ∧ iteration q allWell w =
      Looping {| queue := [good];
                 trace := [EvBLPop emailQueue;
                           EvLog LevelError "Task processing error"
                             [("error", AError (Errorf "task deserialization error: "
                                 (ErrorString "invalid character looking for beginning of value")))];
                           EvSleep queueCheckInterval] |}
  ∧ ∃ w', StartWorker q [allWell; allWell; cancelled] w = Returned w'
          ∧ queue w' = []
          ∧ mailsSent (trace w') = 1%nat
          ∧ pushed (trace w') = []
          ∧ logged LevelInfo "Email queue worker stopped" (trace w') = 1%nat.
Proof.
  intros q good w. split; [done|]. split; [done|]. split; [done|].
  destruct (worker_outlives_bad_payload q allWell w (NotJSON "oops") [good]
              (ErrorString "invalid character looking for beginning of value")
              eq_refl eq_refl eq_refl eq_refl)
    as (Hiter & _ & _ & _ & _ & Hstart & _).
  split; [exact Hiter|].
  rewrite Hstart. eexists. split; [by vm_compute|]. by vm_compute.
Defined.

(** With the SMTP server and Redis both out of reach the worker gets one
    error that names both failures. *)
Lemma requeue_failure_is_compound_witness :
  let q := sampleQueue "<p>hi</p>" in
  let r := sendEmailWithRetry q allFails (sampleTask 0) emptyWorld in
  isInt64 (Retries (sampleTask 0))
  ∧ Retries (sampleTask 0) < maxRetries
  ∧ ∃ compound,
      r.1 = Some compound
      ∧ Error compound =
          "failed to requeue email: failed to enqueue email task: redis: connection pool timeout (original error: dial tcp: connection refused)".
Proof.
  intros q r.
  assert (Hint : isInt64 (Retries (sampleTask 0))) by (by vm_compute).
  assert (Hlt : Retries (sampleTask 0) < maxRetries) by (by vm_compute).
  split; [done|]. split; [done|].
  destruct (requeue_failure_is_compound q allFails (sampleTask 0) emptyWorld refused
              (SendEmail (sender q) (sendReply allFails) "a@x.com" "S" "T"
                 (Data (sampleTask 0)) emptyWorld).2
              (Errorf "failed to enqueue email task: " (ErrorString "redis: connection pool timeout"))
              r.2 Hint Hlt)
    as (compound & Hrun & _ & Htext); [by vm_compute|by vm_compute|].
  exists compound. subst r. rewrite Hrun. split; [reflexivity|]. rewrite Htext.
  clear. vm_compute. reflexivity.
Defined.

(** C7 fails on the code: a sender is built from a configuration without an
    SMTP server, and it is each call of [SendEmail] that reports it. *)
Lemma missing_server_reported_on_each_send :
  let s := NewSender noServerConfig (sampleManager "<p>hi</p>") in
  missingTransport noServerConfig = true
  ∧ config s = noServerConfig
  ∧ SendEmail s None "a@x.com" "S" "T" None emptyWorld =
      (Some (Errorf "invalid SMTP configuration: " (ErrorString "SMTP server is not configured")),
       emptyWorld)
  ∧ SendEmail s None "b@x.com" "S" "T" None garbageWorld =
      (Some (Errorf "invalid SMTP configuration: " (ErrorString "SMTP server is not configured")),
       garbageWorld).
Proof. intros s. repeat split; by vm_compute. Defined.

Lemma missing_transport_reported_by_send_witness :
  let tmpl := sampleManager "<p>hi</p>" in
  missingTransport noServerConfig = true
  ∧ ∃ err, ∀ to, to ≠ "" →
      SendEmail (NewSender noServerConfig tmpl) None to "S" "T" None emptyWorld
      = (Some (Errorf "invalid SMTP configuration: " err), emptyWorld).
Proof.
  intros tmpl.
  assert (Hmiss : missingTransport noServerConfig = true) by (by vm_compute).
  split; [done|].
  destruct (missing_transport_reported_by_send noServerConfig tmpl Hmiss)
    as (_ & err & _ & Hsend).
  exists err. intros to Hto. by apply Hsend.
Defined.

(** A task that arrives with an attempt count of 5 is not requeued. *)
Lemma requeue_only_below_ceiling_witness :
  let q := sampleQueue "<p>hi</p>" in
  let w' := (sendEmailWithRetry q sendFails (sampleTask 5) emptyWorld).2 in
  isInt64 (Retries (sampleTask 5))
  ∧ pushed (trace w') = []
  ∧ queue w' = [].
Proof.
  intros q w'.
  assert (Hint : isInt64 (Retries (sampleTask 5))) by (by vm_compute).
  split; [done|].
  destruct (requeue_only_below_ceiling q sendFails (sampleTask 5) emptyWorld Hint)
    as (evs & Htrace & Hge & _).
  destruct Hge as [Hpushed Hqueue]; [by vm_compute|].
  fold w' in Htrace, Hqueue. rewrite Htrace, Hqueue. by split.
Defined.

(** A reset link is marked safe before the template runs; a login link with
    a line break in it makes the call fail with an empty body. *)
Lemma urls_marked_safe_before_render_witness :
  let m := sampleManager "<p>hi</p>" in
  let good : gmap positive (gmap string value) :=
    {[ 1%positive := {[ "resetUrl" := VString "http://x/y" ]} ]} in
  let bad : gmap positive (gmap string value) :=
    {[ 1%positive := {[ "loginUrl" := VString CRLF ]} ]} in
  (∃ err, (RenderWithSafeURLs m "T" (Some 1%positive) bad).1 = ("", Some err))
  ∧ ∃ safeData,
      deref (RenderWithSafeURLs m "T" (Some 1%positive) good).2 (Some safeData) !! "resetUrl"
      = Some (VURL "http://x/y").
Proof.
  intros m good bad. split.
  - apply (proj1 (urls_marked_safe_before_render m "T" (Some 1%positive) bad)).
    exists "loginUrl", CRLF.
    eexists. split; [by repeat constructor|]. split; [by vm_compute|].
    split; [done|]. by vm_compute.
  - destruct (proj2 (urls_marked_safe_before_render m "T" (Some 1%positive) good))
      as (safeData & _ & Hlook).
    + intros field rawURL Hin Hfield _.
      repeat (apply elem_of_cons in Hin as [->|Hin]);
        try (by apply elem_of_nil in Hin);
        vm_compute in Hfield; try discriminate Hfield.
      injection Hfield as <-. eexists. by vm_compute.
    + exists safeData. rewrite Hlook. by vm_compute.
Defined.

(** The scenario of the specification: the sample task is popped, its first
    delivery fails and it is requeued with an attempt count of 1; it is
    popped again, delivered, and nothing is left on the list. *)
Example retry_then_success :
  let q := sampleQueue "<p>hi</p>" in
  let w := {| queue := [Text (JObject [("to", JString "a@x.com"); ("subject", JString "S");
                                      ("templateName", JString "T");
                                      ("data", JObject [("name", JString "Bob")])])];
              trace := [] |} in
  ∃ w', StartWorker q [sendFails; allWell; cancelled] w = Returned w'
        ∧ queue w' = []
        ∧ mailsSent (trace w') = 2%nat
        ∧ pushed (trace w') =
            [Text (JObject [("to", JString "a@x.com"); ("subject", JString "S");
                            ("templateName", JString "T");
                            ("data", JObject [("name", JString "Bob")]);
                            ("retries", JNumber (LitInt false 1))])].
Proof. intros q w. eexists. split; [by vm_compute|]. by vm_compute. Qed.

(** A recipient that is not valid UTF-8 does not come back as it was: the
    encoder writes U+FFFD for the byte 0xFF. *)
Example invalid_utf8_is_replaced :
  let task := {| To := String (ascii_of_nat 255) EmptyString; Subject := "S";
                 TemplateName := "T"; Data := None; Retries := 0 |} in
  ∃ payload task', Marshal task = Ok payload
                   ∧ Unmarshal payload = Ok task'
                   ∧ To task' = Utf8.replacement
                   ∧ To task' ≠ To task.
Proof.
  intros task. do 2 eexists. split; [by vm_compute|]. split; [by vm_compute|].
  split; [by vm_compute|]. by vm_compute.
Qed.

(** The retries field of the wire is unconstrained: a payload may carry an
    attempt count of 5, and the worker reads it as it is. *)
Example wire_retries_unconstrained :
  Unmarshal (Text (JObject [("to", JString "a@x.com"); ("subject", JString "S");
                            ("templateName", JString "T");
                            ("data", JObject [("name", JString "Bob")]);
                            ("retries", JNumber (LitInt false 5))]))
  = Ok (sampleTask 5).
Proof. by vm_compute. Qed.

#[local] Existing Instance FragmentWeb.toolkit.

(** The sample task is mailed: the one event is the call of the SMTP
    server. *)
Lemma send_succeeds_only_through_smtp_witness :
  let s := sender (sampleQueue "<p>hi</p>") in
  let r := SendEmail s None "a@x.com" "S" "T" None emptyWorld in
  r.1 = None ∧ mailsSent (trace r.2) = 1%nat ∧ pushed (trace r.2) = [].
Proof.
  intros s r.
  assert (Hnone : r.1 = None) by (by vm_compute).
  split; [done|].
  destruct (send_succeeds_only_through_smtp s None "a@x.com" "S" "T" None emptyWorld)
    as (evs & Hworld & Hpushed & _ & _ & _ & Hsent & _).
  destruct (Hsent Hnone) as (_ & Hone & _).
  fold r in Hworld. rewrite Hworld. unfold after, emptyWorld. cbn [trace app]. by split.
Defined.

(** The sample manager holds no template of the name [missing]. *)
Lemma unknown_template_sends_nothing_witness :
  let s := sender (sampleQueue "<p>hi</p>") in
  templates (sender_templates s) !! "missing" = None
  ∧ ∃ err, SendEmail s None "a@x.com" "S" "missing" None emptyWorld = (Some err, emptyWorld).
Proof.
  intros s.
  assert (Hnone : templates (sender_templates s) !! "missing" = None) by (by vm_compute).
  split; [done|].
  destruct (unknown_template_sends_nothing s None "a@x.com" "S" "missing" None emptyWorld Hnone)
    as (_ & err & Hrun & _).
  by exists err.
Defined.

(** The sample manager lists one name, and [Render] finds it. *)
Lemma render_finds_exactly_listed_templates_witness :
  let m := sampleManager "<p>hi</p>" in
  List.length (ListAvailabletemplates m) = 1%nat
  ∧ ∃ tmpl, templates m !! "T" = Some tmpl.
Proof.
  intros m.
  destruct (render_finds_exactly_listed_templates m "T" None ∅) as (_ & Hlen & _ & Hin).
  split; [rewrite Hlen; by vm_compute|].
  destruct (proj1 Hin) as (tmpl & Hlook & _); [|by exists tmpl].
  unfold ListAvailabletemplates. apply list_elem_of_fmap. exists ("T", "<p>hi</p>").
  split; [done|]. apply elem_of_map_to_list. by vm_compute.
Defined.

(** The sample task is put on the empty list. *)
Lemma enqueue_succeeds_exactly_when_witness :
  let q := sampleQueue "<p>hi</p>" in
  let r := EnqueueEmail q None (sampleTask 0) emptyWorld in
  r.1 = None ∧ ∃ payload, Marshal (sampleTask 0) = Ok payload ∧ queue r.2 = [payload].
Proof.
  intros q r.
  assert (Hnone : r.1 = None) by (by vm_compute).
  split; [done|].
  destruct (enqueue_succeeds_exactly_when q None (sampleTask 0) emptyWorld)
    as (_ & Hgrown & _).
  destruct (Hgrown Hnone) as (payload & Henc & Hworld).
  exists payload. split; [done|]. fold r in Hworld. by rewrite Hworld.
Defined.

(** An attempt count of 2 read from the wire is incremented to 3. *)
Lemma decoded_retries_never_wrap_witness :
  let payload := Text (JObject [("to", JString "a@x.com"); ("subject", JString "S");
                                ("templateName", JString "T");
                                ("data", JObject [("name", JString "Bob")]);
                                ("retries", JNumber (LitInt false 2))]) in
  Unmarshal payload = Ok (sampleTask 2)
  ∧ wrapInt64 (Retries (sampleTask 2) + 1) = Retries (sampleTask 2) + 1.
Proof.
  intros payload.
  assert (Hdec : Unmarshal payload = Ok (sampleTask 2)) by (by vm_compute).
  split; [done|].
  apply (decoded_retries_never_wrap payload (sampleTask 2) Hdec). by vm_compute.
Defined.

(** Three passes of the worker over a list of one payload that is not JSON
    leave at most one payload and send at most three mails. *)
Lemma worker_never_grows_the_list_witness :
  let q := sampleQueue "<p>hi</p>" in
  let w := worldOf (workerLoop q [sendFails; sendFails; allWell] garbageWorld) in
  (List.length (queue w) ≤ 1)%nat
  ∧ ∃ evs, trace w = evs ∧ (mailsSent evs ≤ 3)%nat.
Proof.
  intros q w.
  destruct (worker_never_grows_the_list q [sendFails; sendFails; allWell] garbageWorld)
    as (evs & Htrace & Hqueue & Hmails & _).
  fold w in Htrace, Hqueue. split; [exact Hqueue|].
  exists evs. split; [by rewrite Htrace|exact Hmails].
Defined.

(** BLPOP answers [redis.Nil]: the iteration ends at once. *)
Lemma pop_error_keeps_the_list_witness :
  let q := sampleQueue "<p>hi</p>" in
  let e := {| ctxDone := false; popReply := Some RedisNil; sendReply := None;
              pushReply := None |} in
  ctxDone e = false
  ∧ popReply e = Some RedisNil
  ∧ iteration q e garbageWorld = Looping (after garbageWorld [EvBLPop emailQueue]).
Proof.
  intros q e. split; [done|]. split; [done|].
  destruct (pop_error_keeps_the_list q e garbageWorld RedisNil eq_refl eq_refl)
    as (evs & Hrun & _ & _ & Hnil & _).
  rewrite Hrun, Hnil; [done|by left].
Defined.

(** The sample task is popped and mailed, and the list is empty. *)
Lemma delivered_task_leaves_the_list_witness :
  let q := sampleQueue "<p>hi</p>" in
  let payload := Text (JObject [("to", JString "a@x.com"); ("subject", JString "S");
                                ("templateName", JString "T");
                                ("data", JObject [("name", JString "Bob")])]) in
  let w := {| queue := [payload]; trace := [] |} in
  Unmarshal payload = Ok (sampleTask 0)
  ∧ ∃ w', iteration q allWell w = Looping w' ∧ queue w' = [].
Proof.
  intros q payload w.
  assert (Hdec : Unmarshal payload = Ok (sampleTask 0)) by (by vm_compute).
  split; [done|].
  destruct (delivered_task_leaves_the_list q allWell w payload [] (sampleTask 0)
              eq_refl eq_refl eq_refl Hdec)
    as (mail & Hrun & _); [by vm_compute|].
  eexists. split; [exact Hrun|done].
Defined.

(** The sample task fails once behind it waits a payload that is not JSON:
    the task goes behind that payload. *)
Lemma retried_task_goes_to_the_tail_witness :
  let q := sampleQueue "<p>hi</p>" in
  let payload := Text (JObject [("to", JString "a@x.com"); ("subject", JString "S");
                                ("templateName", JString "T");
                                ("data", JObject [("name", JString "Bob")])]) in
  let payload' := Text (JObject [("to", JString "a@x.com"); ("subject", JString "S");
                                 ("templateName", JString "T");
                                 ("data", JObject [("name", JString "Bob")]);
                                 ("retries", JNumber (LitInt false 1))]) in
  let w := {| queue := [payload; NotJSON "oops"]; trace := [] |} in
  redisServes sendFails
  ∧ Unmarshal payload = Ok (sampleTask 0)
  ∧ Marshal (sampleTask 1) = Ok payload'
  ∧ ∃ w', iteration q sendFails w = Looping w' ∧ queue w' = [NotJSON "oops"; payload'].
Proof.
  intros q payload payload' w.
  assert (Hserves : redisServes sendFails) by (by repeat split).
  assert (Hdec : Unmarshal payload = Ok (sampleTask 0)) by (by vm_compute).
  assert (Henc : Marshal (sampleTask 1) = Ok payload') by (by vm_compute).
  split; [done|]. split; [done|]. split; [done|].
  destruct (retried_task_goes_to_the_tail q sendFails w payload [NotJSON "oops"]
              (sampleTask 0) refused payload' Hserves eq_refl Hdec)
    as (evs & Hrun & _); [by vm_compute|by vm_compute|by vm_compute|exact Henc|].
  eexists. split; [exact Hrun|done].
Defined.

(** A task without a recipient is neither mailed nor requeued. *)
Lemma task_without_required_field_is_lost_witness :
  let q := sampleQueue "<p>hi</p>" in
  let task := withRetries zeroTask 0 in
  (To task = "" ∨ Subject task = "" ∨ TemplateName task = "")
  ∧ isInt64 (Retries task)
  ∧ ∃ err w', sendEmailWithRetry q allWell task emptyWorld = (Some err, w')
              ∧ queue w' = [] ∧ mailsSent (trace w') = 0%nat.
Proof.
  intros q task.
  assert (Hempty : To task = "" ∨ Subject task = "" ∨ TemplateName task = "") by (by left).
  assert (Hint : isInt64 (Retries task)) by (by vm_compute).
  split; [done|]. split; [done|].
  destruct (task_without_required_field_is_lost q allWell task emptyWorld Hempty Hint)
    as (err & evs & Hrun & Hmails & _).
  exists err, (after emptyWorld evs). split; [exact Hrun|]. split; [done|exact Hmails].
Defined.

(** The sample task fails twice and is then mailed. *)
Lemma task_is_delivered_after_transient_failures_witness :
  let q := sampleQueue "<p>hi</p>" in
  let payload := Text (JObject [("to", JString "a@x.com"); ("subject", JString "S");
                                ("templateName", JString "T");
                                ("data", JObject [("name", JString "Bob")])]) in
  let w := {| queue := [payload]; trace := [] |} in
  redisServes sendFails
  ∧ redisServes allWell
  ∧ wireStable (sampleTask 0)
  ∧ Marshal (sampleTask 0) = Ok payload
  ∧ ∃ w', workerLoop q [sendFails; sendFails; allWell] w = Looping w'
          ∧ queue w' = []
          ∧ logged LevelInfo "Email sent successfully" (trace w') = 1%nat.
Proof.
  intros q payload w.
  assert (Hfails : redisServes sendFails) by (by repeat split).
  assert (Hwell : redisServes allWell) by (by repeat split).
  assert (Hstable : wireStable (sampleTask 0)).
  { split.
    - split; [by vm_compute|]. split; [by vm_compute|]. split; [by vm_compute|].
      intros m [= <-]. apply map_Forall_singleton. by vm_compute.
    - intros m [= <-]. apply map_Forall_singleton. simpl. tauto. }
  assert (Henc : Marshal (sampleTask 0) = Ok payload) by (by vm_compute).
  split; [done|]. split; [done|]. split; [done|]. split; [done|].
  destruct (task_is_delivered_after_transient_failures q sendFails allWell refused 2
              (sampleTask 0) payload w Hfails Hwell Hstable)
    as (evs & Hrun & _ & _ & _ & Hsent & _);
    [by vm_compute|exact Henc|done|by vm_compute|by vm_compute|].
  eexists. split; [exact Hrun|]. split; [done|]. exact Hsent.
Defined.

(** Two tasks are enqueued on the empty list; the worker takes the first
    and leaves the second. *)
Lemma tasks_are_handled_in_enqueue_order_witness :
  let q := sampleQueue "<p>hi</p>" in
  let w1 := (EnqueueEmail q None (sampleTask 0) emptyWorld).2 in
  let w2 := (EnqueueEmail q None (sampleTask 1) w1).2 in
  wellFormed (sampleTask 0)
  ∧ EnqueueEmail q None (sampleTask 0) emptyWorld = (None, w1)
  ∧ EnqueueEmail q None (sampleTask 1) w1 = (None, w2)
  ∧ ∃ payload2, Marshal (sampleTask 1) = Ok payload2.
Proof.
  intros q w1 w2.
  assert (Hwf : wellFormed (sampleTask 0)).
  { split; [by vm_compute|]. split; [by vm_compute|]. split; [by vm_compute|].
    intros m [= <-]. apply map_Forall_singleton. by vm_compute. }
  assert (Hfirst : EnqueueEmail q None (sampleTask 0) emptyWorld = (None, w1))
    by (by vm_compute).
  assert (Hsecond : EnqueueEmail q None (sampleTask 1) w1 = (None, w2)) by (by vm_compute).
  split; [done|]. split; [done|]. split; [done|].
  destruct (tasks_are_handled_in_enqueue_order q allWell (sampleTask 0) (sampleTask 1)
              emptyWorld w1 w2 Hwf eq_refl Hfirst Hsecond eq_refl eq_refl)
    as (payload2 & Henc & _).
  by exists payload2.
Defined.

(** The sample task can never be mailed: after four passes it is gone, and
    it was requeued three times. *)
Lemma failing_task_is_dropped_after_ceiling_witness :
  let q := sampleQueue "<p>hi</p>" in
  let payload := Text (JObject [("to", JString "a@x.com"); ("subject", JString "S");
                                ("templateName", JString "T");
                                ("data", JObject [("name", JString "Bob")])]) in
  let w := {| queue := [payload]; trace := [] |} in
  redisServes sendFails
  ∧ wireStable (sampleTask 0)
  ∧ Marshal (sampleTask 0) = Ok payload
  ∧ ∃ w', workerLoop q (replicate 4 sendFails) w = Looping w'
          ∧ queue w' = [] ∧ List.length (pushed (trace w')) = 3%nat.
Proof.
  intros q payload w.
  assert (Hserves : redisServes sendFails) by (by repeat split).
  assert (Hstable : wireStable (sampleTask 0)).
  { split.
    - split; [by vm_compute|]. split; [by vm_compute|]. split; [by vm_compute|].
      intros m [= <-]. apply map_Forall_singleton. by vm_compute.
    - intros m [= <-]. apply map_Forall_singleton. simpl. tauto. }
  assert (Henc : Marshal (sampleTask 0) = Ok payload) by (by vm_compute).
  split; [done|]. split; [done|]. split; [done|].
  assert (Hrange : 0 ≤ Retries (sampleTask 0) ≤ maxRetries) by (clear; unfold maxRetries; simpl; lia).
  assert (Hsend : (SendEmail (sender q) (sendReply sendFails) (To (sampleTask 0))
     (Subject (sampleTask 0)) (TemplateName (sampleTask 0)) (Data (sampleTask 0)) w).1 = Some refused) by (by vm_compute).
  pose proof (failing_task_is_dropped_after_ceiling q sendFails refused (sampleTask 0) payload w
              Hserves Hstable Hrange Henc eq_refl Hsend) as H.
  cbv zeta in H. destruct H as (evs & Hrun & Hpushed & _).
  exists {| queue := []; trace := trace w ++ evs |}.
  split; [exact Hrun|].
  split; [reflexivity|]. exact Hpushed.
Defined.

(** The sample configuration gives a client for [localhost:6379]. *)
Lemma redis_client_exactly_when_witness :
  ∃ client, NewRedisClient sampleConfig None = Ok client ∧ Addr client = "localhost:6379".
Proof.
  destruct (redis_client_exactly_when sampleConfig None) as (Hiff & Hclient & _).
  destruct (proj2 Hiff) as [client Hok]; [by repeat split|].
  exists client. split; [done|]. by destruct (Hclient client Hok) as [-> _].
Defined.

(** A directory that holds one template loads. *)
Lemma templates_load_exactly_when_witness :
  let dir := {| entryPath := "html"; entryIsDir := true; entryErr := None;
                entryContent := Err (ErrorString "read html: is a directory") |} in
  let file := {| entryPath := "html/welcome.html"; entryIsDir := false; entryErr := None;
                 entryContent := Ok "<p>hi</p>" |} in
  ∃ m, New None [dir; file] = Ok m.
Proof.
  intros dir file. apply (templates_load_exactly_when None [dir; file]).
  split; [done|]. split.
  - intros d Hin.
    apply elem_of_cons in Hin as [->|Hin]; [by split|].
    apply elem_of_cons in Hin as [->|Hin]; [|by apply elem_of_nil in Hin].
    split; [done|]. intros _. exists "<p>hi</p>", "<p>hi</p>". by split.
  - exists file. split; [|done]. apply elem_of_cons. right. by apply elem_of_cons; left.
Defined.

(** The template of the file [html/welcome.html] is listed as [welcome]. *)
Lemma loaded_templates_come_from_html_files_witness :
  let dir := {| entryPath := "html"; entryIsDir := true; entryErr := None;
                entryContent := Err (ErrorString "read html: is a directory") |} in
  let file := {| entryPath := "html/welcome.html"; entryIsDir := false; entryErr := None;
                 entryContent := Ok "<p>hi</p>" |} in
  let m := {| templates := {[ "welcome" := "<p>hi</p>" ]} |} in
  New None [dir; file] = Ok m
  ∧ nameOf file = "welcome"
  ∧ nameOf file ∈ ListAvailabletemplates m.
Proof.
  intros dir file m.
  assert (Hnew : New None [dir; file] = Ok m) by (by vm_compute).
  split; [done|]. split; [by vm_compute|].
  destruct (loaded_templates_come_from_html_files None [dir; file] m Hnew) as (_ & Hlisted & _).
  apply Hlisted; [|done]. apply elem_of_cons. right. by apply elem_of_cons; left.
Defined.

(** With the variable of the SMTP server set to the empty text the process
    starts, over a configuration no mail can be sent with. *)
Lemma startup_checks_redis_not_smtp_witness :
  let environ : gmap string string := {[ "EMAIL_SMTP_SERVER" := "" ]} in
  let file := {| entryPath := "html/welcome.html"; entryIsDir := false; entryErr := None;
                 entryContent := Ok "<p>hi</p>" |} in
  ∃ q, startup "app-password" environ None [file] None = Ok q
       ∧ missingTransport (config (sender q)) = true.
Proof.
  intros environ file.
  destruct (startup_checks_redis_not_smtp "app-password" environ None [file] None)
    as (Hiff & Hbuilt & _).
  destruct (proj2 Hiff) as [q Hok].
  { split; [eexists; by vm_compute|]. split; [by vm_compute|]. split; [by vm_compute|done]. }
  exists q. split; [done|]. destruct (Hbuilt q Hok) as [-> _]. by vm_compute.
Defined.
